(** * Bakuretsu review-card generator: a shallow embedding of
      [src/review_card_generator.py] and the properties of its composition
      engine (text wrapping, score classification, cover normalisation,
      platform badge, font loading, and the [generate] draw sequence), and
      of the pure parts of [src/ui_app.py] (colour helpers, score slider,
      preview size, form checks). *)

From Stdlib Require Import String Ascii.
From Stdlib Require Import List ZArith NArith QArith Qpower Bool Lia Lqa.
From Stdlib Require Import Floats.SpecFloat.
Import ListNotations.

Local Open Scope Z_scope.

(* ================================================================== *)
(** * Python strings *)
(* ================================================================== *)

(** A Python [str] is a sequence of Unicode code points; [len] is the
    number of code points. *)
Module PyStr.

Definition char := N.
Definition str := list char.

(** String literals of the source are ASCII; [lit] reads a literal. *)
Definition lit (s : string) : str := map N_of_ascii (list_ascii_of_string s).

Definition len {A} (s : list A) : Z := Z.of_nat (length s).

(** [str.isspace] for one code point: the code points CPython's
    [_PyUnicode_IsWhitespace] accepts. [str.split()] and [str.strip()]
    without arguments use this set. *)
Definition isspace (c : char) : bool :=
  ((9 <=? c) && (c <=? 13) || (28 <=? c) && (c <=? 32)
   || (c =? 133) || (c =? 160) || (c =? 5760)
   || (8192 <=? c) && (c <=? 8202)
   || (c =? 8232) || (c =? 8233) || (c =? 8239) || (c =? 8287)
   || (c =? 12288))%N.

Definition space : char := 32%N.

(** [text.split()]: scan left to right, [cur] is the word being read. *)
Fixpoint split_from (cur : str) (s : str) : list str :=
  match s with
  | [] => match cur with [] => [] | _ => [cur] end
  | c :: s' =>
      if isspace c
      then match cur with
           | [] => split_from [] s'
           | _ => cur :: split_from [] s'
           end
      else split_from (cur ++ [c]) s'
  end.

Definition split (s : str) : list str := split_from [] s.

(** [sep.join(items)]. *)
Fixpoint join (sep : str) (items : list str) : str :=
  match items with
  | [] => []
  | [w] => w
  | w :: ws => w ++ sep ++ join sep ws
  end.

Fixpoint lstrip (s : str) : str :=
  match s with
  | [] => []
  | c :: s' => if isspace c then lstrip s' else s
  end.

Definition rstrip (s : str) : str := rev (lstrip (rev s)).

(** [s.strip()]. *)
Definition strip (s : str) : str := rstrip (lstrip s).

(** Truth value of a string or list: non-empty. *)
Definition truthy {A} (l : list A) : bool :=
  match l with [] => false | _ => true end.

(** [s[:-3]]: everything but the last three code points. *)
Definition drop_last3 (s : str) : str := firstn (length s - 3) s.

(** A word: non-empty, no whitespace. *)
Definition is_word (w : str) : Prop :=
  w <> [] /\ Forall (fun c => isspace c = false) w.

Definition all_space (s : str) : Prop := Forall (fun c => isspace c = true) s.

End PyStr.
Import PyStr.

(* ================================================================== *)
(** * Exceptions *)
(* ================================================================== *)

Inductive exception :=
| ValueError (msg : str)
| ZeroDivisionError
| OverflowError
| FileNotFoundError
| OSError.

Inductive result (A : Type) :=
| Ok (a : A)
| Raise (e : exception).
Arguments Ok {A} a.
Arguments Raise {A} e.

Definition bind {A B} (r : result A) (k : A -> result B) : result B :=
  match r with
  | Ok a => k a
  | Raise e => Raise e
  end.

Declare Scope py_scope.
Delimit Scope py_scope with py.
Notation "x <- c1 ;; c2" := (bind c1 (fun x => c2))
  (at level 61, c1 at next level, right associativity) : py_scope.

(* ================================================================== *)
(** * Python floats *)
(* ================================================================== *)

(** A Python [float] is an IEEE 754 binary64 number: [spec_float] with
    [prec = 53] and [emax = 1024]. Arithmetic computes the exact rational
    result and rounds it to nearest, ties to even; comparisons with an [int]
    are exact. *)
Module PyFloat.

Definition prec : Z := 53.
Definition emax : Z := 1024.
Definition float := spec_float.

(** [2^e] as a rational. *)
Definition pow2 (e : Z) : Q :=
  match e with
  | Zneg p => 1 # (2 ^ p)
  | _ => inject_Z (2 ^ e)
  end.

(** The real value of a float that is not an infinity or a NaN. *)
Definition value (x : float) : Q :=
  match x with
  | S754_finite s m e => (if s then inject_Z (Zneg m) else inject_Z (Zpos m)) * pow2 e
  | _ => 0
  end.

(** Three-way comparison of a float with an integer, [None] for a NaN. *)
Definition compare_int (x : float) (n : Z) : option comparison :=
  match x with
  | S754_nan => None
  | S754_infinity s => Some (if s then Lt else Gt)
  | _ => Some (value x ?= inject_Z n)%Q
  end.

(** [x >= n], [n <= x] *)
Definition ge_int (x : float) (n : Z) : bool :=
  match compare_int x n with
  | Some Gt | Some Eq => true
  | _ => false
  end.

(** [x <= n] *)
Definition le_int (x : float) (n : Z) : bool :=
  match compare_int x n with
  | Some Lt | Some Eq => true
  | _ => false
  end.

(** [x == n] *)
Definition eq_int (x : float) (n : Z) : bool :=
  match compare_int x n with
  | Some Eq => true
  | _ => false
  end.

(** [x > y] on floats. *)
Definition gt (x y : float) : bool :=
  match x, y with
  | S754_nan, _ | _, S754_nan => false
  | S754_infinity sx, S754_infinity sy => negb sx && sy
  | S754_infinity sx, _ => negb sx
  | _, S754_infinity sy => sy
  | _, _ => match (value x ?= value y)%Q with Gt => true | _ => false end
  end.

(** [int(x)]: truncation towards zero. *)
Definition to_int (x : float) : result Z :=
  match x with
  | S754_nan => Raise (ValueError (lit "cannot convert float NaN to integer"))
  | S754_infinity _ => Raise OverflowError
  | S754_zero _ => Ok 0
  | S754_finite s m e =>
      let a := match e with
               | Zneg p => Zpos m / 2 ^ Zpos p
               | _ => Zpos m * 2 ^ e
               end in
      Ok (if s then - a else a)
  end.

(** Round-half-even of [n / d], for [0 <= n] and [0 < d]. *)
Definition rne_div (n d : Z) : Z :=
  let q := n / d in
  let r := n mod d in
  match 2 * r ?= d with
  | Lt => q
  | Gt => q + 1
  | Eq => if Z.even q then q else q + 1
  end.

(** [(a / d) / 2^e] as a fraction of integers. *)
Definition scaled (a d e : Z) : Z * Z :=
  match e with
  | Zneg p => (a * 2 ^ Zpos p, d)
  | _ => (a, d * 2 ^ e)
  end.

(** [floor (log2 (a / d))] *)
Definition ilog2 (a d : positive) : Z :=
  let l := Z.log2 (Zpos a) - Z.log2 (Zpos d) in
  let '(n, dd) := scaled (Zpos a) (Zpos d) l in
  if dd <=? n then l else l - 1.

(** Round the positive rational [a / d] to binary64, with sign [s]. *)
Definition round_pos (s : bool) (a d : positive) : float :=
  let l := ilog2 a d in
  let e := Z.max (l + 1 - prec) (3 - emax - prec) in
  let '(n, dd) := scaled (Zpos a) (Zpos d) e in
  let m := rne_div n dd in
  let '(m', e') := if m =? 2 ^ prec then (2 ^ (prec - 1), e + 1) else (m, e) in
  match m' with
  | Zpos p => if e' <=? emax - prec then S754_finite s p e' else S754_infinity s
  | _ => S754_zero s
  end.

(** Round [|q|] to binary64 and give the result the sign [s]. *)
Definition round_abs (s : bool) (q : Q) : float :=
  match Qnum q with
  | Z0 => S754_zero s
  | Zpos a | Zneg a => round_pos s a (Qden q)
  end.

(** Round a rational to binary64; [szero] is the sign given to a zero. *)
Definition round (szero : bool) (q : Q) : float :=
  match Qnum q with
  | Z0 => S754_zero szero
  | Zpos _ => round_abs false q
  | Zneg _ => round_abs true q
  end.

Definition sign (x : float) : bool :=
  match x with
  | S754_zero s | S754_infinity s | S754_finite s _ _ => s
  | S754_nan => false
  end.

(** [float(n)] *)
Definition of_int (n : Z) : result float :=
  match round false (inject_Z n) with
  | S754_infinity _ => Raise OverflowError
  | x => Ok x
  end.

(** [a / b] on two [int]s: the correctly rounded quotient. *)
Definition int_truediv (a b : Z) : result float :=
  match b with
  | Z0 => Raise ZeroDivisionError
  | Zpos d =>
      match round false (a # d) with
      | S754_infinity _ => Raise OverflowError
      | x => Ok x
      end
  | Zneg d =>
      match round true ((- a) # d) with
      | S754_infinity _ => Raise OverflowError
      | x => Ok x
      end
  end.

(** [x * y] on floats. *)
Definition mul (x y : float) : float :=
  match x, y with
  | S754_nan, _ | _, S754_nan => S754_nan
  | S754_infinity _, S754_zero _ | S754_zero _, S754_infinity _ => S754_nan
  | S754_infinity _, _ | _, S754_infinity _ =>
      S754_infinity (xorb (sign x) (sign y))
  | S754_zero _, _ | _, S754_zero _ => S754_zero (xorb (sign x) (sign y))
  | S754_finite sx _ _, S754_finite sy _ _ =>
      round_abs (xorb sx sy) (value x * value y)
  end.

(** [x / y] on floats. *)
Definition div (x y : float) : result float :=
  match x, y with
  | _, S754_zero _ => Raise ZeroDivisionError
  | S754_nan, _ | _, S754_nan => Ok S754_nan
  | S754_infinity _, S754_infinity _ => Ok S754_nan
  | S754_infinity _, _ => Ok (S754_infinity (xorb (sign x) (sign y)))
  | _, S754_infinity _ | S754_zero _, _ => Ok (S754_zero (xorb (sign x) (sign y)))
  | S754_finite sx _ _, S754_finite sy _ _ =>
      Ok (round_abs (xorb sx sy) (value x / value y))
  end.

(** [n * x] with [n] an [int]: [n] is converted to a float first. *)
Definition int_mul (n : Z) (x : float) : result float :=
  match of_int n with
  | Ok f => Ok (mul f x)
  | Raise e => Raise e
  end.

(** [n / x] with [n] an [int]. *)
Definition int_div (n : Z) (x : float) : result float :=
  match of_int n with
  | Ok f => div f x
  | Raise e => Raise e
  end.

(** The literal [1.5]. *)
Definition lit_1_5 : float := S754_finite false 6755399441055744 (-52).

Fixpoint uint_str (u : Decimal.uint) : str :=
  match u with
  | Decimal.Nil => []
  | Decimal.D0 u => 48%N :: uint_str u
  | Decimal.D1 u => 49%N :: uint_str u
  | Decimal.D2 u => 50%N :: uint_str u
  | Decimal.D3 u => 51%N :: uint_str u
  | Decimal.D4 u => 52%N :: uint_str u
  | Decimal.D5 u => 53%N :: uint_str u
  | Decimal.D6 u => 54%N :: uint_str u
  | Decimal.D7 u => 55%N :: uint_str u
  | Decimal.D8 u => 56%N :: uint_str u
  | Decimal.D9 u => 57%N :: uint_str u
  end.

(** [str(n)] for an [int], as in [f"{n}"]. *)
Definition str_of_int (n : Z) : str :=
  match n with
  | Z0 => lit "0"
  | Zpos p => uint_str (Pos.to_uint p)
  | Zneg p => lit "-" ++ uint_str (Pos.to_uint p)
  end.

(** [f"{x:.1f}"]: the decimal with one fractional digit nearest to the exact
    value of [x], ties to even. *)
Definition format_1f (x : float) : str :=
  match x with
  | S754_nan => lit "nan"
  | S754_infinity s => if s then lit "-inf" else lit "inf"
  | S754_zero s => if s then lit "-0.0" else lit "0.0"
  | S754_finite s m e =>
      let '(n, d) := scaled (10 * Zpos m) 1 (- e) in
      let t := rne_div n d in
      (if s then lit "-" else []) ++
      str_of_int (t / 10) ++ lit "." ++ str_of_int (t mod 10)
  end.

End PyFloat.

(* ================================================================== *)
(** * Fonts and the text wrapper *)
(* ================================================================== *)

(** A PIL font object: what the generator uses of it is [getbbox], the
    bounding box [(left, top, right, bottom)] of a rendered string. *)
Record Font := {
  font_name : str;
  font_size : Z;
  getbbox : str -> Z * Z * Z * Z
}.

(** [bbox[2]] *)
Definition bbox_right (b : Z * Z * Z * Z) : Z :=
  let '(_, _, r, _) := b in r.

(** One iteration of the loop of [_wrap_text] on [(lines, current_line)]. *)
Definition wrap_step (font : Font) (max_width : Z)
    (st : list str * list str) (word : str) : list str * list str :=
  let '(lines, current_line) := st in
  let test_line := join [space] (current_line ++ [word]) in
  let bbox := getbbox font test_line in
  if bbox_right bbox <=? max_width then
    (lines, current_line ++ [word])
  else
    ((if truthy current_line
      then lines ++ [join [space] current_line]
      else lines),
     [word]).

(** [ReviewCardGenerator._wrap_text] *)
Definition _wrap_text (text : str) (font : Font) (max_width : Z) : list str :=
  let words := split text in
  let '(lines, current_line) :=
    fold_left (wrap_step font max_width) words ([], []) in
  if truthy current_line
  then lines ++ [join [space] current_line]
  else lines.

(* ================================================================== *)
(** * Data model *)
(* ================================================================== *)

Inductive Platform := NONE | BACKLOGGD | LETTERBOXD.

Inductive ContentType := GAME | MOVIE.

Inductive Color :=
| RGB (r g b : Z)
| RGBA (r g b a : Z).

(** PIL images, by the operations that built them; only sizes matter to
    the layout. *)
Inductive Image :=
| Decoded (id : N) (width height : Z)
| Resized (im : Image) (width height : Z)
| Cropped (im : Image) (left top right bottom : Z)
| RoundedTile (width height : Z) (im : Image) (radius : Z).

Definition image_size (im : Image) : Z * Z :=
  match im with
  | Decoded _ w h => (w, h)
  | Resized _ w h => (w, h)
  | Cropped _ l t r b => (r - l, b - t)
  | RoundedTile w h _ _ => (w, h)
  end.

Definition image_width (im : Image) : Z := fst (image_size im).
Definition image_height (im : Image) : Z := snd (image_size im).

Record PlatformBranding := {
  name : str;
  logo_path : option str;
  accent_color : Color;
  username : str
}.

(** [x or default] on an optional string. *)
Definition or_default (x : option str) (default : str) : str :=
  match x with
  | Some s => if truthy s then s else default
  | None => default
  end.

(** [PlatformBranding.backloggd] *)
Definition backloggd (username : str) (logo_path : option str) : PlatformBranding :=
  {| name := lit "Backloggd";
     logo_path := Some (or_default logo_path (lit "assets/logos/backloggd_logo.png"));
     accent_color := RGB 139 92 246;
     username := username |}.

(** [PlatformBranding.letterboxd] *)
Definition letterboxd (username : str) (logo_path : option str) : PlatformBranding :=
  {| name := lit "Letterboxd";
     logo_path := Some (or_default logo_path (lit "assets/logos/letterboxd_logo.png"));
     accent_color := RGB 255 128 0;
     username := username |}.

(** [Optional[Union[str, Path, Image.Image]]] *)
Inductive CoverSource :=
| CoverStr (s : str)
| CoverPath (p : str)
| CoverImage (im : Image).

Record ReviewData := {
  title : str;
  score : PyFloat.float;
  review_text : str;
  content_type : ContentType;
  cover_image : option CoverSource;
  platform : Platform;
  platform_username : str
}.

(** [ReviewData.validate] *)
Definition validate (self : ReviewData) : result bool :=
  if negb (truthy (title self)) || negb (truthy (strip (title self))) then
    Raise (ValueError (lit "Title cannot be empty"))
  else if negb (PyFloat.ge_int (score self) 0 && PyFloat.le_int (score self) 10) then
    Raise (ValueError (lit "Score must be between 0 and 10"))
  else if negb (truthy (review_text self)) || negb (truthy (strip (review_text self))) then
    Raise (ValueError (lit "Review text cannot be empty"))
  else Ok true.

(** [CardStyle], with the four fonts [_load_fonts] has set. *)
Record CardStyle := {
  width : Z;
  height : Z;
  background_color : Color;
  primary_color : Color;
  secondary_color : Color;
  style_accent_color : Color;
  title_font_size : Z;
  score_font_size : Z;
  review_font_size : Z;
  platform_font_size : Z;
  padding : Z;
  cover_width : Z;
  corner_radius : Z;
  title_font : Font;
  score_font : Font;
  review_font : Font;
  platform_font : Font
}.

(* ================================================================== *)
(** * The outside world *)
(* ================================================================== *)

(** What a logo path leads to: no file, a file PIL cannot open, or an
    image. *)
Inductive LogoFile :=
| LogoMissing
| LogoBroken (e : exception)
| LogoImage (im : Image).

(** The file system and the network, as the generator sees them. *)
Record World := {
  fetch_url : str -> result Image;
  open_file : str -> result Image;
  logo_file : str -> LogoFile
}.

Fixpoint startswith (s prefix : str) : bool :=
  match prefix, s with
  | [], _ => true
  | p :: prefix', c :: s' => (c =? p)%N && startswith s' prefix'
  | _ :: _, [] => false
  end.

(** [ImageLoader.load] *)
Definition ImageLoader_load (world : World) (source : CoverSource) : result Image :=
  match source with
  | CoverImage im => Ok im
  | CoverStr source_str | CoverPath source_str =>
      if startswith source_str (lit "http://") || startswith source_str (lit "https://")
      then fetch_url world source_str
      else open_file world source_str
  end.

(** Truth value of [review.cover_image]. *)
Definition cover_truthy (c : option CoverSource) : bool :=
  match c with
  | None => false
  | Some (CoverStr s) => truthy s
  | Some (CoverPath _) => true
  | Some (CoverImage _) => true
  end.

(* ================================================================== *)
(** * Score classifier *)
(* ================================================================== *)

(** [ReviewCardGenerator._format_score] *)
Definition _format_score (score : PyFloat.float) : result str :=
  match PyFloat.to_int score with
  | Ok i =>
      if PyFloat.eq_int score i
      then Ok (PyFloat.str_of_int i ++ lit "/10")
      else Ok (PyFloat.format_1f score ++ lit "/10")
  | Raise e => Raise e
  end.

Definition Green : Color := RGB 34 197 94.
Definition Yellow : Color := RGB 234 179 8.
Definition Orange : Color := RGB 249 115 22.
Definition Red : Color := RGB 239 68 68.

(** [ReviewCardGenerator._get_score_color] *)
Definition _get_score_color (score : PyFloat.float) : Color :=
  if PyFloat.ge_int score 8 then Green
  else if PyFloat.ge_int score 6 then Yellow
  else if PyFloat.ge_int score 4 then Orange
  else Red.

(* ================================================================== *)
(** * What PIL refuses *)
(* ================================================================== *)

(** [Image.new]: a negative side is refused. *)
Definition image_new (width height : Z) : result unit :=
  if (width <? 0) || (height <? 0)
  then Raise (ValueError (lit "Width and height must be >= 0"))
  else Ok tt.

(** The check [ImageDraw] makes on the two corners of a rounded rectangle
    and of an ellipse: the second may not lie left of or above the first. *)
Definition box_error (x0 y0 x1 y1 : Z) : option exception :=
  if x1 <? x0 then Some (ValueError (lit "x1 must be greater than or equal to x0"))
  else if y1 <? y0 then Some (ValueError (lit "y1 must be greater than or equal to y0"))
  else None.

(** [ImageDraw.rounded_rectangle] with a fill: the corners are checked, then
    the rounded corners are drawn as pie slices in boxes from a corner of the
    rectangle to [2 * radius] further; with a negative radius the second
    corner of that box lies left of the first, and the slice is refused. *)
Definition rounded_rectangle_error (x0 y0 x1 y1 radius : Z) : option exception :=
  match box_error x0 y0 x1 y1 with
  | Some e => Some e
  | None =>
      if radius <? 0
      then Some (ValueError (lit "x1 must be greater than or equal to x0"))
      else None
  end.

(** [Image.resize]: an image that has the size asked for is copied; otherwise
    a side below 1 is refused. *)
Definition image_resize (im : Image) (width height : Z) : result Image :=
  if (image_width im =? width) && (image_height im =? height)
  then Ok (Resized im width height)
  else if (width <? 1) || (height <? 1)
  then Raise (ValueError (lit "height and width must be > 0"))
  else Ok (Resized im width height).

(** [Image.crop]: a box whose right edge is left of its left edge, or whose
    lower edge is above its upper edge, is refused. *)
Definition image_crop (im : Image) (left top right bottom : Z) : result Image :=
  if right <? left
  then Raise (ValueError (lit "Coordinate 'right' is less than 'left'"))
  else if bottom <? top
  then Raise (ValueError (lit "Coordinate 'lower' is less than 'upper'"))
  else Ok (Cropped im left top right bottom).

(* ================================================================== *)
(** * Cover normalizer *)
(* ================================================================== *)

(** [ReviewCardGenerator._create_cover_with_rounded_corners] *)
Definition _create_cover_with_rounded_corners
    (cover : Image) (target_width target_height radius : Z) : result Image :=
  (cover_ratio <- PyFloat.int_truediv (image_width cover) (image_height cover) ;;
   target_ratio <- PyFloat.int_truediv target_width target_height ;;
   size <-
     (if PyFloat.gt cover_ratio target_ratio then
        let new_height := target_height in
        f <- PyFloat.int_mul new_height cover_ratio ;;
        new_width <- PyFloat.to_int f ;;
        Ok (new_width, new_height)
      else
        let new_width := target_width in
        f <- PyFloat.int_div new_width cover_ratio ;;
        new_height <- PyFloat.to_int f ;;
        Ok (new_width, new_height)) ;;
   let '(new_width, new_height) := size in
   cover <- image_resize cover new_width new_height ;;
   let left := (new_width - target_width) / 2 in
   let top := (new_height - target_height) / 2 in
   cover <- image_crop cover left top (left + target_width) (top + target_height) ;;
   mask <- image_new target_width target_height ;;
   match rounded_rectangle_error 0 0 (target_width - 1) (target_height - 1) radius with
   | Some e => Raise e
   | None =>
       result <- image_new target_width target_height ;;
       Ok (RoundedTile target_width target_height cover radius)
   end)%py.

(* ================================================================== *)
(** * Canvas and drawing *)
(* ================================================================== *)

(** The calls made on an image and its [ImageDraw]. *)
Inductive DrawOp :=
| RoundedRectangle (x0 y0 x1 y1 : Z) (radius : Z) (fill : Color)
| Paste (im : Image) (x y : Z)
| Ellipse (x0 y0 x1 y1 : Z) (fill : Color)
| Text (x y : Z) (text : str) (font : Font) (fill : Color) (anchor : option str).

(** The card: an RGBA image of a given size and the draw calls made on it,
    oldest first. *)
Record Canvas := {
  canvas_size : Z * Z;
  ops : list DrawOp
}.

(** Code that draws on the card and may raise: the state is the card, [None]
    until it is created. *)
Definition Draw (A : Type) : Type := option Canvas -> result A * option Canvas.

Definition ret {A} (a : A) : Draw A := fun s => (Ok a, s).

Definition raise {A} (e : exception) : Draw A := fun s => (Raise e, s).

Definition lift {A} (r : result A) : Draw A := fun s => (r, s).

Definition dbind {A B} (m : Draw A) (k : A -> Draw B) : Draw B :=
  fun s =>
    match m s with
    | (Ok a, s') => k a s'
    | (Raise e, s') => (Raise e, s')
    end.

Declare Scope draw_scope.
Delimit Scope draw_scope with draw.
Notation "x <- c1 ;; c2" := (dbind c1 (fun x => c2))
  (at level 61, c1 at next level, right associativity) : draw_scope.
Notation "c1 ;; c2" := (dbind c1 (fun _ => c2))
  (at level 61, right associativity) : draw_scope.

(** [try: body except Exception: handler] *)
Definition try_except {A} (body : Draw A) (handler : exception -> Draw A) : Draw A :=
  fun s =>
    match body s with
    | (Ok a, s') => (Ok a, s')
    | (Raise e, s') => handler e s'
    end.

(** What [ImageDraw] refuses of a call. *)
Definition shape_error (op : DrawOp) : option exception :=
  match op with
  | RoundedRectangle x0 y0 x1 y1 radius _ =>
      rounded_rectangle_error x0 y0 x1 y1 radius
  | Ellipse x0 y0 x1 y1 _ => box_error x0 y0 x1 y1
  | _ => None
  end.

(** One call on the card. *)
Definition draw (op : DrawOp) : Draw unit :=
  fun s =>
    match shape_error op with
    | Some e => (Raise e, s)
    | None =>
        match s with
        | Some card =>
            (Ok tt, Some {| canvas_size := canvas_size card; ops := ops card ++ [op] |})
        | None => (Ok tt, None)
        end
    end.

(** [return card] *)
Definition the_card : Draw Canvas :=
  fun s =>
    match s with
    | Some card => (Ok card, s)
    | None => (Raise OSError, s)
    end.

(** [ReviewCardGenerator._create_rounded_rectangle], making the card: the
    image is created, then the rectangle is drawn on it. When either step is
    refused there is no card. *)
Definition _create_rounded_rectangle (size : Z * Z) (radius : Z) (fill : Color)
  : Draw unit :=
  fun s =>
    let background :=
      RoundedRectangle 0 0 (fst size - 1) (snd size - 1) radius fill in
    match image_new (fst size) (snd size) with
    | Raise e => (Raise e, s)
    | Ok _ =>
        match shape_error background with
        | Some e => (Raise e, s)
        | None => (Ok tt, Some {| canvas_size := size; ops := [background] |})
        end
    end.

(** [ReviewCardGenerator._draw_platform_branding] *)
Definition _draw_platform_branding (world : World) (style : CardStyle)
    (platform : Platform) (username : str) (position : Z * Z) : Draw unit :=
  match platform with
  | NONE => ret tt
  | _ =>
    let branding :=
      match platform with
      | BACKLOGGD => Some (backloggd username None)
      | LETTERBOXD => Some (letterboxd username None)
      | NONE => None
      end in
    match branding with
    | None => ret tt
    | Some branding =>
      let '(x, y) := position in
      let logo_size := 32 in
      (x <- try_except
              (match logo_path branding with
               | Some path =>
                   if truthy path then
                     match logo_file world path with
                     | LogoMissing => ret x
                     | LogoBroken e => raise e
                     | LogoImage logo =>
                         let logo := Resized logo logo_size logo_size in
                         draw (Paste logo x y) ;;
                         ret (x + (logo_size + 10))
                     end
                   else ret x
               | None => ret x
               end)
              (fun _ =>
                 draw (Ellipse x y (x + logo_size) (y + logo_size)
                         (accent_color branding)) ;;
                 ret (x + (logo_size + 10))) ;;
       let platform_text :=
         name branding ++
         (if truthy username then lit " @" ++ username else []) in
       draw (Text x (y + logo_size / 2) platform_text
               (platform_font style) (secondary_color style) (Some (lit "lm"))))%draw
    end
  end.

(** The placeholder drawn in the cover slot. *)
Definition draw_placeholder (style : CardStyle)
    (cover_x cover_y cover_width cover_height : Z) : Draw unit :=
  (let placeholder_color := RGBA 40 40 50 255 in
   draw (RoundedRectangle cover_x cover_y
           (cover_x + cover_width) (cover_y + cover_height) 15 placeholder_color) ;;
   draw (Text (cover_x + cover_width / 2) (cover_y + cover_height / 2)
           (lit "No Cover") (review_font style) (secondary_color style)
           (Some (lit "mm"))))%draw.

(** The cover block of [generate]. *)
Definition draw_cover (world : World) (style : CardStyle) (review : ReviewData)
    (cover_x cover_y cover_width cover_height : Z) : Draw unit :=
  match cover_image review with
  | Some source =>
      if cover_truthy (cover_image review) then
        try_except
          (cover <- lift (ImageLoader_load world source) ;;
           cover_rounded <-
             lift (_create_cover_with_rounded_corners
                     cover cover_width cover_height 15) ;;
           draw (Paste cover_rounded cover_x cover_y))%draw
          (fun _ => draw_placeholder style cover_x cover_y cover_width cover_height)
      else draw_placeholder style cover_x cover_y cover_width cover_height
  | None => draw_placeholder style cover_x cover_y cover_width cover_height
  end.

(** The title loop of [generate]: draws [lines], returns the final
    [title_y]. *)
Fixpoint draw_title_lines (style : CardStyle) (text_x title_y : Z)
    (lines : list str) : Draw Z :=
  match lines with
  | [] => ret title_y
  | line :: rest =>
      (draw (Text text_x title_y line (title_font style) (primary_color style) None) ;;
       draw_title_lines style text_x (title_y + (title_font_size style + 5)) rest)%draw
  end.

Definition max_review_lines : Z := 8.

(** The review loop of [generate] from index [i] on; [n] is
    [len(review_lines)]. *)
Fixpoint draw_review_lines (style : CardStyle) (text_x review_y : Z)
    (n : Z) (i : Z) (lines : list str) : Draw unit :=
  match lines with
  | [] => ret tt
  | line :: rest =>
      let line :=
        if (i =? max_review_lines - 1) && (n >? max_review_lines) then
          if len line >? 3 then drop_last3 line ++ lit "..." else lit "..."
        else line in
      (draw (Text text_x review_y line (review_font style) (secondary_color style) None) ;;
       draw_review_lines style text_x (review_y + (review_font_size style + 8))
         n (i + 1) rest)%draw
  end.

(** The review block of [generate]. *)
Definition draw_review_text (style : CardStyle) (review : ReviewData)
    (text_x text_width review_y : Z) : Draw unit :=
  let review_lines := _wrap_text (review_text review) (review_font style) text_width in
  draw_review_lines style text_x review_y (len review_lines) 0
    (firstn (Z.to_nat max_review_lines) review_lines).

(** [int(cover_width * 1.5)] *)
Definition cover_height_of (style : CardStyle) : result Z :=
  bind (PyFloat.int_mul (cover_width style) PyFloat.lit_1_5) PyFloat.to_int.

(** [ReviewCardGenerator.generate], called without [output_path]. *)
Definition generate (world : World) (style : CardStyle) (review : ReviewData)
  : Draw Canvas :=
  (lift (validate review) ;;
   _create_rounded_rectangle (width style, height style)
     (corner_radius style) (background_color style) ;;
   let padding := padding style in
   let cover_width := cover_width style in
   cover_height <- lift (cover_height_of style) ;;
   let cover_x := padding in
   let cover_y := padding in
   let text_x := cover_x + cover_width + padding in
   let text_width := width style - text_x - padding in
   draw_cover world style review cover_x cover_y cover_width cover_height ;;
   let title_y := padding in
   let title_lines := _wrap_text (title review) (title_font style) text_width in
   title_y <- draw_title_lines style text_x title_y (firstn 2 title_lines) ;;
   let score_y := title_y + 15 in
   score_text <- lift (_format_score (score review)) ;;
   let score_color := _get_score_color (score review) in
   draw (Text text_x score_y score_text (score_font style) score_color None) ;;
   let review_y := score_y + score_font_size style + 20 in
   draw_review_text style review text_x text_width review_y ;;
   (if match platform review with NONE => false | _ => true end then
      let platform_y := height style - padding - 32 in
      _draw_platform_branding world style (platform review)
        (platform_username review) (padding, platform_y)
    else ret tt) ;;
   the_card)%draw.

(** Running [generate] from scratch: no card exists yet. *)
Definition run_generate (world : World) (style : CardStyle) (review : ReviewData)
  : result Canvas * option Canvas :=
  generate world style review None.

(* ================================================================== *)
(** * Vocabulary of the properties *)
(* ================================================================== *)

(** What the last three lines of [_wrap_text] do with the loop state. *)
Definition flushed (st : list str * list str) : list str :=
  let '(lines, current_line) := st in
  if truthy current_line then lines ++ [join [space] current_line] else lines.

(** A line is acceptable when it fits or is a single word. *)
Definition line_ok (font : Font) (max_width : Z) (line : str) : Prop :=
  bbox_right (getbbox font line) <= max_width \/ is_word line.

(** A text metric under which appending never makes a string narrower. *)
Definition prefix_monotone (font : Font) : Prop :=
  forall a b : str,
    bbox_right (getbbox font a) <= bbox_right (getbbox font (a ++ b)).

(** A float that denotes a real number: not an infinity, not a NaN. *)
Definition is_real (x : PyFloat.float) : Prop :=
  match x with
  | S754_zero _ | S754_finite _ _ _ => True
  | _ => False
  end.

(** The score lies in [[0, 10]]. *)
Definition score_in_range (x : PyFloat.float) : Prop :=
  is_real x /\ (0 <= PyFloat.value x)%Q /\ (PyFloat.value x <= 10)%Q.

(** The float has an exact integer value. *)
Definition is_integer_value (x : PyFloat.float) : Prop :=
  exists n : Z, (PyFloat.value x == inject_Z n)%Q.

(** Empty or whitespace-only. *)
Definition blank (s : str) : Prop := all_space s.

(** A review that passes validation, in the words of the data model. *)
Definition valid_review (r : ReviewData) : Prop :=
  ~ blank (title r) /\ ~ blank (review_text r) /\ score_in_range (score r).

(** An error of validation: an exception [validate] raises for some
    review. *)
Definition validation_error (e : exception) : Prop :=
  exists r : ReviewData, validate r = Raise e.

(** What PIL raises when it refuses a size, a rectangle or a radius. *)
Definition pil_refusal (e : exception) : Prop :=
  e = ValueError (lit "Width and height must be >= 0")
  \/ e = ValueError (lit "x1 must be greater than or equal to x0")
  \/ e = ValueError (lit "y1 must be greater than or equal to y0").

(** The floats [8.0], [6.0], [4.0], [7.999], [10.0] and [3.99]. *)
Definition f_8 : PyFloat.float := S754_finite false 4503599627370496 (-49).
Definition f_6 : PyFloat.float := S754_finite false 6755399441055744 (-50).
Definition f_4 : PyFloat.float := S754_finite false 4503599627370496 (-50).
Definition f_7_999 : PyFloat.float := S754_finite false 9006073354834149 (-50).
Definition f_10 : PyFloat.float := S754_finite false 5629499534213120 (-49).
Definition f_3_99 : PyFloat.float := S754_finite false 8984681256604140 (-51).

(** A positive finite float, with a mantissa of at most 53 bits, whose value
    lies between [2^J] and [2^K]. *)
Definition pos_between (J K : Z) (x : PyFloat.float) : Prop :=
  match x with
  | S754_finite false m _ =>
      Z.pos m < 2 ^ 53
      /\ (PyFloat.pow2 J <= PyFloat.value x)%Q /\ (PyFloat.value x <= PyFloat.pow2 K)%Q
  | _ => False
  end.

(* ================================================================== *)
(** * What is drawn, as lists of calls *)
(* ================================================================== *)

(** The card with further calls made on it. *)
Definition put_ops (card : Canvas) (extra : list DrawOp) : Canvas :=
  {| canvas_size := canvas_size card; ops := ops card ++ extra |}.

(** The fresh card of [generate]. *)
Definition base_card (style : CardStyle) : Canvas :=
  {| canvas_size := (width style, height style);
     ops := [RoundedRectangle 0 0 (width style - 1) (height style - 1)
               (corner_radius style) (background_color style)] |}.

Definition placeholder_ops (style : CardStyle)
    (cover_x cover_y cover_width cover_height : Z) : list DrawOp :=
  [RoundedRectangle cover_x cover_y (cover_x + cover_width) (cover_y + cover_height)
     15 (RGBA 40 40 50 255);
   Text (cover_x + cover_width / 2) (cover_y + cover_height / 2)
     (lit "No Cover") (review_font style) (secondary_color style) (Some (lit "mm"))].

(** The pixels a rectangle or an ellipse spans, across and down: PIL
    includes both corners. *)
Definition pixels_covered (op : DrawOp) : option (Z * Z) :=
  match op with
  | RoundedRectangle x0 y0 x1 y1 _ _ | Ellipse x0 y0 x1 y1 _ =>
      Some (x1 - x0 + 1, y1 - y0 + 1)
  | _ => None
  end.

(** The calls of the cover block. *)
Definition cover_ops (world : World) (style : CardStyle) (review : ReviewData)
    (cover_x cover_y cover_width cover_height : Z) : list DrawOp :=
  match cover_image review with
  | Some source =>
      if cover_truthy (cover_image review) then
        match bind (ImageLoader_load world source)
                (fun cover => _create_cover_with_rounded_corners
                                cover cover_width cover_height 15) with
        | Ok cover_rounded => [Paste cover_rounded cover_x cover_y]
        | Raise _ => placeholder_ops style cover_x cover_y cover_width cover_height
        end
      else placeholder_ops style cover_x cover_y cover_width cover_height
  | None => placeholder_ops style cover_x cover_y cover_width cover_height
  end.

(** Lines of text drawn one under the other, [step] pixels apart. *)
Fixpoint text_column (x y step : Z) (font : Font) (fill : Color)
    (lines : list str) : list DrawOp :=
  match lines with
  | [] => []
  | line :: rest =>
      Text x y line font fill None :: text_column x (y + step) step font fill rest
  end.

(** A line whose last three characters are replaced by ["..."], or that is
    replaced by ["..."] when it has three characters or fewer. *)
Definition with_ellipsis (line : str) : str :=
  if 3 <? len line then firstn (length line - 3) line ++ lit "..." else lit "...".

(** The review lines as rendered: at most eight, the eighth ending the text
    with an ellipsis when lines were dropped. *)
Definition rendered_lines (lines : list str) : list str :=
  if 8 <? len lines
  then firstn 7 lines ++ [with_ellipsis (nth 7 lines [])]
  else lines.

(** The lines the review loop draws from index [i] on. *)
Fixpoint marked_lines (n i : Z) (lines : list str) : list str :=
  match lines with
  | [] => []
  | line :: rest =>
      (if (i =? max_review_lines - 1) && (n >? max_review_lines) then
         if len line >? 3 then drop_last3 line ++ lit "..." else lit "..."
       else line) :: marked_lines n (i + 1) rest
  end.

(** The gap between the logo footprint and the label. *)
Definition badge_gutter : Z := 10.
Definition logo_size : Z := 32.

Definition branding_of (platform : Platform) (username : str) : option PlatformBranding :=
  match platform with
  | NONE => None
  | BACKLOGGD => Some (backloggd username None)
  | LETTERBOXD => Some (letterboxd username None)
  end.

Definition badge_label (branding : PlatformBranding) (username : str) : str :=
  name branding ++ (if truthy username then lit " @" ++ username else []).

(** The calls of [_draw_platform_branding]. *)
Definition badge_ops (world : World) (style : CardStyle) (platform : Platform)
    (username : str) (position : Z * Z) : list DrawOp :=
  match branding_of platform username with
  | None => []
  | Some branding =>
      let '(x, y) := position in
      let label x :=
        Text x (y + logo_size / 2) (badge_label branding username)
          (platform_font style) (secondary_color style) (Some (lit "lm")) in
      match logo_path branding with
      | Some path =>
          match logo_file world path with
          | LogoMissing => [label x]
          | LogoBroken _ =>
              [Ellipse x y (x + logo_size) (y + logo_size) (accent_color branding);
               label (x + (logo_size + badge_gutter))]
          | LogoImage logo =>
              [Paste (Resized logo logo_size logo_size) x y;
               label (x + (logo_size + badge_gutter))]
          end
      | None => [label x]
      end
  end.

(** Every call [generate] makes on the fresh card, for a cover slot of
    height [cover_height] and the score label [score_text]. *)
Definition card_ops (world : World) (style : CardStyle) (review : ReviewData)
    (cover_height : Z) (score_text : str) : list DrawOp :=
  let text_x := padding style + cover_width style + padding style in
  let text_width := width style - text_x - padding style in
  let title_lines :=
    firstn 2 (_wrap_text (title review) (title_font style) text_width) in
  let title_y := padding style + len title_lines * (title_font_size style + 5) in
  let score_y := title_y + 15 in
  let review_y := score_y + score_font_size style + 20 in
  cover_ops world style review (padding style) (padding style)
    (cover_width style) cover_height
  ++ text_column text_x (padding style) (title_font_size style + 5)
       (title_font style) (primary_color style) title_lines
  ++ [Text text_x score_y score_text (score_font style)
        (_get_score_color (score review)) None]
  ++ text_column text_x review_y (review_font_size style + 8)
       (review_font style) (secondary_color style)
       (rendered_lines
          (_wrap_text (review_text review) (review_font style) text_width))
  ++ badge_ops world style (platform review) (platform_username review)
       (padding style, height style - padding style - 32).

(** The review without its cover. *)
Definition without_cover (review : ReviewData) : ReviewData :=
  {| title := title review; score := score review;
     review_text := review_text review; content_type := content_type review;
     cover_image := None; platform := platform review;
     platform_username := platform_username review |}.

(** Sizes PIL can hold. *)
Definition pil_size (n : Z) : Prop := 0 < n < 2 ^ 31.

(* ================================================================== *)
(** * Sample inputs *)
(* ================================================================== *)

(** A fixed-pitch sample font: every code point is 10 pixels wide. *)
Definition fixed_pitch : Font :=
  {| font_name := lit "fixed"; font_size := 10;
     getbbox := fun s => (0, 0, 10 * len s, 10) |}.

(** [CardStyle()] with its default arguments, rendered in [fixed_pitch]. *)
Definition default_style : CardStyle :=
  {| width := 1200; height := 675;
     background_color := RGBA 18 18 24 255;
     primary_color := RGB 255 255 255;
     secondary_color := RGB 156 163 175;
     style_accent_color := RGB 236 72 153;
     title_font_size := 48; score_font_size := 72;
     review_font_size := 24; platform_font_size := 20;
     padding := 40; cover_width := 300; corner_radius := 20;
     title_font := fixed_pitch; score_font := fixed_pitch;
     review_font := fixed_pitch; platform_font := fixed_pitch |}.

(** The default style with another card size. *)
Definition sized_style (card_width card_height : Z) : CardStyle :=
  {| width := card_width; height := card_height;
     background_color := RGBA 18 18 24 255;
     primary_color := RGB 255 255 255;
     secondary_color := RGB 156 163 175;
     style_accent_color := RGB 236 72 153;
     title_font_size := 48; score_font_size := 72;
     review_font_size := 24; platform_font_size := 20;
     padding := 40; cover_width := 300; corner_radius := 20;
     title_font := fixed_pitch; score_font := fixed_pitch;
     review_font := fixed_pitch; platform_font := fixed_pitch |}.

(** A world with no network, no cover files and no logo files. *)
Definition bare_world : World :=
  {| fetch_url := fun _ => Raise (ValueError (lit "Failed to load image from URL"));
     open_file := fun _ => Raise FileNotFoundError;
     logo_file := fun _ => LogoMissing |}.

(** A world whose logo files exist but cannot be opened. *)
Definition broken_logo_world : World :=
  {| fetch_url := fun _ => Raise (ValueError (lit "Failed to load image from URL"));
     open_file := fun _ => Raise FileNotFoundError;
     logo_file := fun _ => LogoBroken OSError |}.

(** A world whose logo files are 64 by 64 images. *)
Definition logo_world : World :=
  {| fetch_url := fun _ => Raise (ValueError (lit "Failed to load image from URL"));
     open_file := fun _ => Raise FileNotFoundError;
     logo_file := fun _ => LogoImage (Decoded 1 64 64) |}.

(** The float [9.5]. *)
Definition f_9_5 : PyFloat.float := S754_finite false 5348024557502464 (-49).

Definition sample_review : ReviewData :=
  {| title := lit "Elden Ring";
     score := f_9_5;
     review_text := lit "A masterpiece of open-world design.";
     content_type := GAME;
     cover_image := Some (CoverStr (lit "covers/elden_ring.jpg"));
     platform := BACKLOGGD;
     platform_username := lit "tarnished" |}.

(* ================================================================== *)
(** * Further vocabulary: the wrapper's groups of words *)
(* ================================================================== *)

(** The loop of [_wrap_text] on groups of words instead of joined lines:
    [groups] are the groups already closed, [cur] is [current_line]. *)
Definition group_step (font : Font) (max_width : Z)
    (st : list (list str) * list str) (word : str) : list (list str) * list str :=
  let '(groups, cur) := st in
  if bbox_right (getbbox font (join [space] (cur ++ [word]))) <=? max_width
  then (groups, cur ++ [word])
  else ((if truthy cur then groups ++ [cur] else groups), [word]).

(** The break before [g2] was forced: its first word did not fit at the end
    of [g1]. *)
Definition forced_break (font : Font) (max_width : Z) (g1 g2 : list str) : Prop :=
  match g2 with
  | w :: _ => max_width < bbox_right (getbbox font (join [space] (g1 ++ [w])))
  | [] => True
  end.

(** Every break between consecutive groups was forced. *)
Fixpoint forced_breaks (font : Font) (max_width : Z) (groups : list (list str))
  : Prop :=
  match groups with
  | g1 :: rest =>
      match rest with
      | g2 :: _ => forced_break font max_width g1 g2
      | [] => True
      end /\ forced_breaks font max_width rest
  | [] => True
  end.


(** The state of the loop on groups: the breaks made so far, the open group
    included, were forced; before the first word there is no group. *)
Definition loop_chain (font : Font) (max_width : Z)
    (st : list (list str) * list str) : Prop :=
  match snd st with
  | [] => fst st = []
  | _ => forced_breaks font max_width (fst st ++ [snd st])
  end.

(** The groups of words behind the lines of [_wrap_text]. *)
Definition wrap_groups (text : str) (font : Font) (max_width : Z) : list (list str) :=
  let st := fold_left (group_step font max_width) (split text) ([], []) in
  if truthy (snd st) then fst st ++ [snd st] else fst st.


(** The buckets in order, from Bad (0) to Good (3). *)
Definition bucket_rank (c : Color) : Z :=
  match c with
  | RGB 34 197 94 => 3
  | RGB 234 179 8 => 2
  | RGB 249 115 22 => 1
  | _ => 0
  end.

(* ================================================================== *)
(** * Further vocabulary: the layout of the card *)
(* ================================================================== *)

(** Where the text drawn without an anchor starts: the title lines, the
    score and the review lines. *)
Definition plain_texts (l : list DrawOp) : list (Z * Z) :=
  flat_map (fun op => match op with
                      | Text x y _ _ _ None => [(x, y)]
                      | _ => []
                      end) l.

(** [n] positions one under the other from [(x, y)], [step] pixels apart. *)
Fixpoint column_positions (x y step : Z) (n : nat) : list (Z * Z) :=
  match n with
  | O => []
  | S n' => (x, y) :: column_positions x (y + step) step n'
  end.

(** The review with another content type. *)
Definition with_content_type (review : ReviewData) (ct : ContentType) : ReviewData :=
  {| title := title review; score := score review;
     review_text := review_text review; content_type := ct;
     cover_image := cover_image review; platform := platform review;
     platform_username := platform_username review |}.

(** The style with another accent colour. *)
Definition with_accent_color (style : CardStyle) (c : Color) : CardStyle :=
  {| width := width style; height := height style;
     background_color := background_color style;
     primary_color := primary_color style;
     secondary_color := secondary_color style;
     style_accent_color := c;
     title_font_size := title_font_size style;
     score_font_size := score_font_size style;
     review_font_size := review_font_size style;
     platform_font_size := platform_font_size style;
     padding := padding style; cover_width := cover_width style;
     corner_radius := corner_radius style;
     title_font := title_font style; score_font := score_font style;
     review_font := review_font style; platform_font := platform_font style |}.


(* ================================================================== *)
(** * Font loading *)
(* ================================================================== *)

(** The fonts of the machine, as [CardStyle._load_fonts] sees them:
    [Path(p).exists()], [ImageFont.truetype(p, size)] and
    [ImageFont.load_default()]. *)
Record FontWorld := {
  path_exists : str -> bool;
  truetype : str -> Z -> result Font;
  load_default : Font
}.

(** The four font attributes of a style, [None] while unset. *)
Record FontSlots := {
  slot_title : option Font;
  slot_score : option Font;
  slot_review : option Font;
  slot_platform : option Font
}.

(** Code that assigns font attributes and may raise. *)
Definition Load (A : Type) : Type := FontSlots -> result A * FontSlots.

Definition lret {A} (a : A) : Load A := fun s => (Ok a, s).

Definition lbind {A B} (m : Load A) (k : A -> Load B) : Load B :=
  fun s =>
    match m s with
    | (Ok a, s') => k a s'
    | (Raise e, s') => (Raise e, s')
    end.

Declare Scope load_scope.
Delimit Scope load_scope with load.
Notation "x <- c1 ;; c2" := (lbind c1 (fun x => c2))
  (at level 61, c1 at next level, right associativity) : load_scope.
Notation "c1 ;; c2" := (lbind c1 (fun _ => c2))
  (at level 61, right associativity) : load_scope.

Definition set_title_font (f : Font) : Load unit :=
  fun s => (Ok tt, {| slot_title := Some f; slot_score := slot_score s;
                      slot_review := slot_review s;
                      slot_platform := slot_platform s |}).

Definition set_score_font (f : Font) : Load unit :=
  fun s => (Ok tt, {| slot_title := slot_title s; slot_score := Some f;
                      slot_review := slot_review s;
                      slot_platform := slot_platform s |}).

Definition set_review_font (f : Font) : Load unit :=
  fun s => (Ok tt, {| slot_title := slot_title s; slot_score := slot_score s;
                      slot_review := Some f;
                      slot_platform := slot_platform s |}).

Definition set_platform_font (f : Font) : Load unit :=
  fun s => (Ok tt, {| slot_title := slot_title s; slot_score := slot_score s;
                      slot_review := slot_review s;
                      slot_platform := Some f |}).

(** The font sizes of a style: title, score, review, platform. *)
Record FontSizes := {
  title_size : Z;
  score_size : Z;
  review_size : Z;
  platform_size : Z
}.

(** The four assignments from font files: [path] for the title, the review
    and the platform, [score_path] for the score. *)
Definition load_four (fw : FontWorld) (path score_path : str) (sizes : FontSizes)
  : Load unit :=
  (f <- (fun s => (truetype fw path (title_size sizes), s)) ;;
   set_title_font f ;;
   f <- (fun s => (truetype fw score_path (score_size sizes), s)) ;;
   set_score_font f ;;
   f <- (fun s => (truetype fw path (review_size sizes), s)) ;;
   set_review_font f ;;
   f <- (fun s => (truetype fw path (platform_size sizes), s)) ;;
   set_platform_font f)%load.

(** The four assignments of the default bitmap font. *)
Definition load_defaults (fw : FontWorld) : Load unit :=
  (set_title_font (load_default fw) ;;
   set_score_font (load_default fw) ;;
   set_review_font (load_default fw) ;;
   set_platform_font (load_default fw))%load.

(** Exceptions caught by [except (OSError, IOError)]. *)
Definition is_os_error (e : exception) : bool :=
  match e with
  | OSError | FileNotFoundError => true
  | _ => false
  end.

Definition system_fonts : list str :=
  [lit "arial.ttf"; lit "Arial.ttf"; lit "segoeui.ttf"; lit "Segoe UI.ttf";
   lit "Helvetica.ttf"; lit "DejaVuSans.ttf";
   lit "C:/Windows/Fonts/segoeui.ttf"; lit "C:/Windows/Fonts/arial.ttf"].

(** The loop over the system fonts; returns [font_loaded]. *)
Fixpoint try_system_fonts (fw : FontWorld) (sizes : FontSizes) (names : list str)
  : Load bool :=
  match names with
  | [] => lret false
  | font_name :: rest =>
      fun s =>
        match load_four fw font_name font_name sizes s with
        | (Ok _, s') => (Ok true, s')
        | (Raise e, s') =>
            if is_os_error e then try_system_fonts fw sizes rest s'
            else (Raise e, s')
        end
  end.

(** [self.font_path and Path(self.font_path).exists()] *)
Definition font_path_usable (fw : FontWorld) (font_path : option str) : bool :=
  match font_path with
  | Some p => truthy p && path_exists fw p
  | None => false
  end.

(** [CardStyle._load_fonts] *)
Definition _load_fonts (fw : FontWorld) (font_path bold_font_path : option str)
    (sizes : FontSizes) : Load unit :=
  fun s =>
    match
      (if font_path_usable fw font_path then
         load_four fw (or_default font_path [])
           (or_default bold_font_path (or_default font_path [])) sizes
       else
         (font_loaded <- try_system_fonts fw sizes system_fonts ;;
          if font_loaded then lret tt else load_defaults fw)%load) s
    with
    | (Ok _, s') => (Ok tt, s')
    | (Raise _, s') => load_defaults fw s'
    end.

(** All four attributes set to the given fonts. *)
Definition slots (title score review platform : Font) : FontSlots :=
  {| slot_title := Some title; slot_score := Some score;
     slot_review := Some review; slot_platform := Some platform |}.

(** The four fonts [load_four] asks for, when all of them load. *)
Definition four_fonts (fw : FontWorld) (path score_path : str) (sizes : FontSizes)
  : result FontSlots :=
  (t <- truetype fw path (title_size sizes) ;;
   s <- truetype fw score_path (score_size sizes) ;;
   r <- truetype fw path (review_size sizes) ;;
   p <- truetype fw path (platform_size sizes) ;;
   Ok (slots t s r p))%py.

(** A machine with DejaVu Sans only, at any positive size. *)
Definition dejavu_world : FontWorld :=
  {| path_exists := fun _ => false;
     truetype := fun p size =>
       if list_eq_dec N.eq_dec p (lit "DejaVuSans.ttf") then
         if 0 <? size then
           Ok {| font_name := p; font_size := size;
                 getbbox := fun s => (0, 0, size * len s, size) |}
         else Raise (ValueError (lit "font size must be greater than 0"))
       else Raise OSError;
     load_default := fixed_pitch |}.

Definition default_sizes : FontSizes :=
  {| title_size := 48; score_size := 72; review_size := 24; platform_size := 20 |}.


(** Loading the four sizes from [name] fails with an [OSError]. *)
Definition os_failure (fw : FontWorld) (sizes : FontSizes) (name : str) : Prop :=
  exists e, four_fonts fw name name sizes = Raise e /\ is_os_error e = true.

(** The default bitmap font in all four attributes. *)
Definition default_slots (fw : FontWorld) : FontSlots :=
  slots (load_default fw) (load_default fw) (load_default fw) (load_default fw).

Definition no_slots : FontSlots :=
  {| slot_title := None; slot_score := None; slot_review := None;
     slot_platform := None |}.

(** A machine with one font file, [fonts/Regular.ttf], and no system font. *)
Definition regular_only_world : FontWorld :=
  {| path_exists := fun p =>
       if list_eq_dec N.eq_dec p (lit "fonts/Regular.ttf") then true else false;
     truetype := fun p size =>
       if list_eq_dec N.eq_dec p (lit "fonts/Regular.ttf") then
         Ok {| font_name := p; font_size := size;
               getbbox := fun s => (0, 0, size * len s, size) |}
       else Raise OSError;
     load_default := fixed_pitch |}.

(* ================================================================== *)
(** * The colour helpers of the UI *)
(* ================================================================== *)

(** What the model takes from the Unicode database: the decimal digit value
    of a code point ([Py_UNICODE_TODECIMAL]) and [str.isalnum] on one code
    point. *)
Record Unicode := {
  todecimal : char -> option N;
  isalnum : char -> bool
}.

(** [Py_ISSPACE]: the whitespace of the C locale. *)
Definition c_isspace (c : char) : bool :=
  ((9 <=? c) && (c <=? 13) || (c =? 32))%N.

(** [_PyLong_DigitValue] *)
Definition digit_value (c : char) : option Z :=
  if ((48 <=? c) && (c <=? 57))%N then Some (Z.of_N c - 48)
  else if ((97 <=? c) && (c <=? 122))%N then Some (Z.of_N c - 87)
  else if ((65 <=? c) && (c <=? 90))%N then Some (Z.of_N c - 55)
  else None.

(** [_PyUnicode_TransformDecimalAndSpaceToASCII] on a string that is not
    ASCII: Unicode spaces become a space, Unicode digits an ASCII digit; at
    any other code point from 127 on the string ends with a question
    mark. *)
Fixpoint transform_decimal_and_space (u : Unicode) (s : str) : str :=
  match s with
  | [] => []
  | c :: s' =>
      if (c <? 127)%N then c :: transform_decimal_and_space u s'
      else if isspace c then space :: transform_decimal_and_space u s'
      else match todecimal u c with
           | Some d => (48 + d)%N :: transform_decimal_and_space u s'
           | None => [63%N]
           end
  end.

Fixpoint skip_spaces (s : str) : str :=
  match s with
  | c :: s' => if c_isspace c then skip_spaces s' else s
  | [] => []
  end.

(** The digits of an integer literal, single underscores allowed between
    them: the value read, the number of digits and what follows; [None] for
    a doubled or a trailing underscore. *)
Fixpoint scan_digits (base acc : Z) (digits : nat) (after_underscore : bool)
    (s : str) : option (Z * nat * str) :=
  let stop := if after_underscore then None else Some (acc, digits, s) in
  match s with
  | [] => stop
  | c :: s' =>
      if (c =? 95)%N then
        if after_underscore then None
        else scan_digits base acc digits true s'
      else
        match digit_value c with
        | Some d =>
            if d <? base
            then scan_digits base (acc * base + d) (S digits) false s'
            else stop
        | None => stop
        end
  end.

(** [int(s, 16)] on a string; the message of the [ValueError] is given
    without the quoted literal. *)
Definition int_base16 (u : Unicode) (s : str) : result Z :=
  let invalid := Raise (ValueError (lit "invalid literal for int() with base 16")) in
  let a := if forallb (fun c => c <? 128)%N s then s
           else transform_decimal_and_space u s in
  let a := skip_spaces a in
  let '(negative, a) :=
    match a with
    | 43%N :: r => (false, r)
    | 45%N :: r => (true, r)
    | _ => (false, a)
    end in
  let a :=
    match a with
    | 48%N :: x :: r =>
        if ((x =? 120) || (x =? 88))%N
        then match r with 95%N :: r' => r' | _ => r end
        else a
    | _ => a
    end in
  match a with
  | 95%N :: _ => invalid
  | _ =>
      match scan_digits 16 0 0 false a with
      | Some (v, S _, rest) =>
          match skip_spaces rest with
          | [] => Ok (if negative then - v else v)
          | _ => invalid
          end
      | _ => invalid
      end
  end.

(** [s.lstrip(ch)] for a single character [ch]. *)
Fixpoint lstrip_char (ch : char) (s : str) : str :=
  match s with
  | c :: s' => if (c =? ch)%N then lstrip_char ch s' else s
  | [] => []
  end.

(** [s[i:i+2]] *)
Definition slice2 (i : nat) (s : str) : str := firstn 2 (skipn i s).

(** [hex_to_rgb] *)
Definition hex_to_rgb (u : Unicode) (hex_color : str) : result (Z * Z * Z) :=
  (let hex_color := lstrip_char 35%N hex_color in
   r <- int_base16 u (slice2 0 hex_color) ;;
   g <- int_base16 u (slice2 2 hex_color) ;;
   b <- int_base16 u (slice2 4 hex_color) ;;
   Ok (r, g, b))%py.

Fixpoint hex_uint_str (h : Hexadecimal.uint) : str :=
  match h with
  | Hexadecimal.Nil => []
  | Hexadecimal.D0 h' => 48%N :: hex_uint_str h'
  | Hexadecimal.D1 h' => 49%N :: hex_uint_str h'
  | Hexadecimal.D2 h' => 50%N :: hex_uint_str h'
  | Hexadecimal.D3 h' => 51%N :: hex_uint_str h'
  | Hexadecimal.D4 h' => 52%N :: hex_uint_str h'
  | Hexadecimal.D5 h' => 53%N :: hex_uint_str h'
  | Hexadecimal.D6 h' => 54%N :: hex_uint_str h'
  | Hexadecimal.D7 h' => 55%N :: hex_uint_str h'
  | Hexadecimal.D8 h' => 56%N :: hex_uint_str h'
  | Hexadecimal.D9 h' => 57%N :: hex_uint_str h'
  | Hexadecimal.Da h' => 97%N :: hex_uint_str h'
  | Hexadecimal.Db h' => 98%N :: hex_uint_str h'
  | Hexadecimal.Dc h' => 99%N :: hex_uint_str h'
  | Hexadecimal.Dd h' => 100%N :: hex_uint_str h'
  | Hexadecimal.De h' => 101%N :: hex_uint_str h'
  | Hexadecimal.Df h' => 102%N :: hex_uint_str h'
  end.

(** [format(n, "02x")]: lower-case hexadecimal, padded with zeros to two
    characters, the sign included. *)
Definition format_02x (n : Z) : str :=
  match n with
  | Z0 => lit "00"
  | Zpos p =>
      let h := hex_uint_str (Pos.to_hex_uint p) in
      if len h <? 2 then lit "0" ++ h else h
  | Zneg p => lit "-" ++ hex_uint_str (Pos.to_hex_uint p)
  end.

(** [rgb_to_hex] *)
Definition rgb_to_hex (rgb : Z * Z * Z) : str :=
  let '(r, g, b) := rgb in
  lit "#" ++ format_02x r ++ format_02x g ++ format_02x b.

(** [x > n] for a float and an [int]. *)
Definition float_gt_int (x : PyFloat.float) (n : Z) : bool :=
  match PyFloat.compare_int x n with
  | Some Gt => true
  | _ => false
  end.

(** [ColorButton._update_text_color]: the text colour chosen for the
    button. *)
Definition _update_text_color (u : Unicode) (current_color : str) : result str :=
  (rgb <- hex_to_rgb u current_color ;;
   let '(r, g, b) := rgb in
   brightness <- PyFloat.int_truediv (r * 299 + g * 587 + b * 114) 1000 ;;
   Ok (if float_gt_int brightness 128 then lit "#000000" else lit "#ffffff"))%py.

(** The characters [0-9a-fA-F]. *)
Definition hex_chars : list char :=
  [48; 49; 50; 51; 52; 53; 54; 55; 56; 57; 97; 98; 99; 100; 101; 102;
   65; 66; 67; 68; 69; 70]%N.

(** A Unicode database cut down to ASCII. *)
Definition ascii_only : Unicode :=
  {| todecimal := fun _ => None;
     isalnum := fun c =>
       ((48 <=? c) && (c <=? 57) || (65 <=? c) && (c <=? 90)
        || (97 <=? c) && (c <=? 122))%N |}.


(** The value of two hexadecimal digits. *)
Definition hex_pair (a b : char) : Z :=
  match digit_value a, digit_value b with
  | Some x, Some y => 16 * x + y
  | _, _ => 0
  end.

(** The characters [0-9a-f]. *)
Definition lower_hex_chars : list char := firstn 16 hex_chars.

(** The luma of a colour, in thousandths. *)
Definition luma (rgb : Z * Z * Z) : Z :=
  let '(r, g, b) := rgb in r * 299 + g * 587 + b * 114.

(** A colour channel. *)
Definition channel (n : Z) : Prop := 0 <= n <= 255.

(* ================================================================== *)
(** * The score slider of the UI *)
(* ================================================================== *)

(** [round(x)] on a float: the nearest integer, ties to the even one. *)
Definition py_round (x : PyFloat.float) : result Z :=
  match x with
  | S754_nan => Raise (ValueError (lit "cannot convert float NaN to integer"))
  | S754_infinity _ => Raise OverflowError
  | S754_zero _ => Ok 0
  | S754_finite s m e =>
      let a := match e with
               | Zneg p => PyFloat.rne_div (Zpos m) (2 ^ Zpos p)
               | _ => Zpos m * 2 ^ e
               end in
      Ok (if s then - a else a)
  end.

(** [x * n] with [n] an [int]: [n] is converted to a float first. *)
Definition float_mul_int (x : PyFloat.float) (n : Z) : result PyFloat.float :=
  match PyFloat.of_int n with
  | Ok f => Ok (PyFloat.mul x f)
  | Raise e => Raise e
  end.

(** [ReviewCardApp._update_score_label]: the score stored in [score_var],
    the text of the label and its colour. *)
Definition _update_score_label (value : PyFloat.float)
  : result (PyFloat.float * str * str) :=
  (doubled <- float_mul_int value 2 ;;
   k <- py_round doubled ;;
   score <- PyFloat.int_truediv k 2 ;;
   i <- PyFloat.to_int score ;;
   let text :=
     if negb (PyFloat.eq_int score i)
     then PyFloat.format_1f score
     else PyFloat.str_of_int i ++ lit ".0" in
   let color :=
     if PyFloat.ge_int score 8 then lit "#22c55e"
     else if PyFloat.ge_int score 6 then lit "#eab308"
     else if PyFloat.ge_int score 4 then lit "#f97316"
     else lit "#ef4444" in
   Ok (score, text, color))%py.

(** The channels of a colour, the alpha channel left out. *)
Definition color_rgb (c : Color) : Z * Z * Z :=
  match c with
  | RGB r g b => (r, g, b)
  | RGBA r g b _ => (r, g, b)
  end.

(** A float that is zero or a normal double of at most 16. *)
Definition slider_float (x : PyFloat.float) : Prop :=
  (exists s, x = S754_zero s) \/ pos_between (-1022) 4 x.

(** The float [7.3]. *)
Definition f_7_3 : PyFloat.float := S754_finite false 8219069319951155 (-50).

(* ================================================================== *)
(** * The preview of the UI *)
(* ================================================================== *)

(** The room for the preview in a frame of the given [winfo] size: 20 pixels
    are left free on every side; 800 by 450 when nothing is left. *)
Definition preview_room (frame_width frame_height : Z) : Z * Z :=
  let max_width := frame_width - 40 in
  let max_height := frame_height - 40 in
  if (max_width <=? 0) || (max_height <=? 0) then (800, 450)
  else (max_width, max_height).

(** [ReviewCardApp._update_preview]: the size the generated card is resized
    to. *)
Definition preview_size (card_width card_height frame_width frame_height : Z)
  : result (Z * Z) :=
  (let '(max_width, max_height) := preview_room frame_width frame_height in
   card_ratio <- PyFloat.int_truediv card_width card_height ;;
   frame_ratio <- PyFloat.int_truediv max_width max_height ;;
   if PyFloat.gt card_ratio frame_ratio then
     let new_width := max_width in
     f <- PyFloat.int_div max_width card_ratio ;;
     new_height <- PyFloat.to_int f ;;
     Ok (new_width, new_height)
   else
     let new_height := max_height in
     f <- PyFloat.int_mul max_height card_ratio ;;
     new_width <- PyFloat.to_int f ;;
     Ok (new_width, new_height))%py.

(* ================================================================== *)
(** * The form of the UI *)
(* ================================================================== *)

(** [ReviewCardApp._validate_inputs] on the contents of the title entry and
    of the review box: the result and the message shown, if any. *)
Definition _validate_inputs (title_entry review_box : str) : bool * option str :=
  let title := strip title_entry in
  if negb (truthy title) then (false, Some (lit "Please enter a title."))
  else
    let review := strip review_box in
    if negb (truthy review) then (false, Some (lit "Please enter a review."))
    else (true, None).

(** [s.replace(" ", "_")] *)
Definition underscored (s : str) : str :=
  map (fun c => if (c =? 32)%N then 95%N else c) s.

(** [ReviewCardApp._save_card]: the file name proposed for the card, from
    the contents of the title entry. *)
Definition default_name (u : Unicode) (title_entry : str) : str :=
  let title := strip title_entry in
  let safe_title :=
    strip (filter (fun c => isalnum u c || (c =? 32)%N || (c =? 45)%N || (c =? 95)%N)
             title) in
  if truthy safe_title then underscored safe_title ++ lit "_review.png"
  else lit "review_card.png".

(** A character of a sanitized title. *)
Definition name_char (u : Unicode) (c : char) : Prop :=
  (isalnum u c = true \/ c = 45%N \/ c = 95%N) /\ c <> 32%N.

(* ================================================================== *)
(** * Properties *)
(* ================================================================== *)

(** ** Strings: [split], [join], [strip] *)

Section StringFacts.

Lemma split_from_nonspace (w s cur : str) :
  Forall (fun c => isspace c = false) w ->
  split_from cur (w ++ s) = split_from (cur ++ w) s.
Proof.
  intros Hw; revert cur.
  induction Hw as [|c w Hc Hw IH]; intros cur; simpl.
  - now rewrite app_nil_r.
  - rewrite Hc, IH, <- app_assoc. reflexivity.
Qed.

Lemma split_from_skip (p s : str) :
  all_space p -> split_from [] (p ++ s) = split_from [] s.
Proof.
  induction 1 as [|c p Hc Hp IH]; simpl; [reflexivity|].
  now rewrite Hc.
Qed.

Lemma split_from_flush (cur : str) (c : char) (s : str) :
  cur <> [] -> isspace c = true ->
  split_from cur (c :: s) = cur :: split_from [] s.
Proof.
  intros Hcur Hc; simpl; rewrite Hc.
  destruct cur; [contradiction|reflexivity].
Qed.

Lemma split_all_space (s : str) : all_space s -> split s = [].
Proof.
  intros H. unfold split.
  rewrite <- (app_nil_r s), split_from_skip by assumption. reflexivity.
Qed.

Lemma split_from_words (s cur : str) :
  Forall (fun c => isspace c = false) cur ->
  Forall is_word (split_from cur s).
Proof.
  revert cur; induction s as [|c s IH]; intros cur Hcur; simpl.
  - destruct cur; constructor; [|constructor].
    split; [discriminate|assumption].
  - destruct (isspace c) eqn:Hc.
    + destruct cur as [|d cur].
      * apply IH; constructor.
      * constructor; [split; [discriminate|assumption]|].
        apply IH; constructor.
    + apply IH. apply Forall_app; split; [assumption|].
      constructor; [assumption|constructor].
Qed.

Lemma split_words (s : str) : Forall is_word (split s).
Proof. apply split_from_words; constructor. Qed.

Lemma split_word (w : str) : is_word w -> split w = [w].
Proof.
  intros [Hne Hw]. unfold split.
  rewrite <- (app_nil_r w) at 1.
  rewrite split_from_nonspace by assumption; simpl.
  destruct w; [contradiction|reflexivity].
Qed.

Lemma space_isspace : isspace space = true.
Proof. reflexivity. Qed.

(** Words joined by single spaces, with any whitespace around them, split
    back into the same words. *)
Lemma split_join_words (ws : list str) (s : str) :
  Forall is_word ws -> all_space s ->
  split_from [] (join [space] ws ++ s) = ws.
Proof.
  intros Hws Hs; induction Hws as [|w ws [Hne Hw] Hws IH].
  - simpl. rewrite <- (app_nil_r s), split_from_skip by assumption. reflexivity.
  - destruct ws as [|w' ws].
    + simpl. rewrite split_from_nonspace by assumption; simpl.
      destruct Hs as [|c s Hc Hs]; simpl.
      * destruct w; [contradiction|reflexivity].
      * rewrite Hc. destruct w; [contradiction|].
        f_equal. rewrite <- (app_nil_r s), split_from_skip by assumption.
        reflexivity.
    + change (join [space] (w :: w' :: ws))
        with (w ++ [space] ++ join [space] (w' :: ws)).
      rewrite <- !app_assoc.
      rewrite split_from_nonspace by assumption; simpl app at 1.
      simpl ([space] ++ _).
      rewrite split_from_flush; [|assumption|reflexivity].
      f_equal. exact IH.
Qed.

Lemma join_app (sep : str) (l1 l2 : list str) :
  l1 <> [] -> l2 <> [] ->
  join sep (l1 ++ l2) = join sep l1 ++ sep ++ join sep l2.
Proof.
  intros H1 H2; induction l1 as [|a l1 IH]; [contradiction|].
  destruct l1 as [|b l1].
  - simpl. destruct l2; [contradiction|reflexivity].
  - change (join sep ((a :: b :: l1) ++ l2))
      with (a ++ sep ++ join sep ((b :: l1) ++ l2)).
    rewrite IH by discriminate.
    change (join sep (a :: b :: l1)) with (a ++ sep ++ join sep (b :: l1)).
    now rewrite <- !app_assoc.
Qed.

Lemma join_prefix (sep : str) (l1 l2 : list str) :
  exists r, join sep (l1 ++ l2) = join sep l1 ++ r.
Proof.
  destruct l1 as [|a l1]; [now exists (join sep l2)|].
  destruct l2 as [|b l2]; [exists []; now rewrite !app_nil_r|].
  exists (sep ++ join sep (b :: l2)). apply join_app; discriminate.
Qed.

Lemma join_concat (sep : str) (groups : list (list str)) :
  Forall (fun g => g <> []) groups ->
  join sep (map (join sep) groups) = join sep (concat groups).
Proof.
  induction 1 as [|g gs Hg Hgs IH]; [reflexivity|].
  destruct gs as [|g' gs].
  - simpl. now rewrite app_nil_r.
  - change (join sep (map (join sep) (g :: g' :: gs)))
      with (join sep g ++ sep ++ join sep (map (join sep) (g' :: gs))).
    rewrite IH.
    change (concat (g :: g' :: gs)) with (g ++ concat (g' :: gs)).
    rewrite (join_app sep g); [reflexivity|assumption|].
    inversion Hgs; subst. destruct g'; [contradiction|discriminate].
Qed.

Lemma lstrip_skip (p s : str) : all_space p -> lstrip (p ++ s) = lstrip s.
Proof. induction 1 as [|c p Hc Hp IH]; simpl; [reflexivity|now rewrite Hc]. Qed.

Lemma lstrip_all_space (p : str) : all_space p -> lstrip p = [].
Proof. intros H. rewrite <- (app_nil_r p), lstrip_skip by assumption. reflexivity. Qed.

Lemma lstrip_all_space_inv (s : str) : all_space (lstrip s) -> all_space s.
Proof.
  induction s as [|c s IH]; simpl; [trivial|].
  destruct (isspace c) eqn:Hc; [|trivial].
  intros H. constructor; [assumption|now apply IH].
Qed.

Lemma lstrip_nil_iff (s : str) : lstrip s = [] <-> all_space s.
Proof.
  split; [|apply lstrip_all_space].
  induction s as [|c s IH]; simpl; [constructor|].
  destruct (isspace c) eqn:Hc; [|discriminate].
  intros H. constructor; [assumption|now apply IH].
Qed.

Lemma rstrip_skip (x s : str) : all_space s -> rstrip (x ++ s) = rstrip x.
Proof.
  intros H. unfold rstrip. rewrite rev_app_distr, lstrip_skip; [reflexivity|].
  unfold all_space. now apply Forall_rev.
Qed.

Lemma rstrip_ends_nonspace (x : str) (d : char) :
  isspace d = false -> rstrip (x ++ [d]) = x ++ [d].
Proof.
  intros H. unfold rstrip. rewrite rev_app_distr; simpl. rewrite H.
  change (d :: rev x) with ([d] ++ rev x).
  rewrite rev_app_distr, rev_involutive. reflexivity.
Qed.

Lemma strip_nil_iff (s : str) : strip s = [] <-> blank s.
Proof.
  unfold strip, rstrip, blank. split.
  - intros H. apply (f_equal (@rev char)) in H.
    rewrite rev_involutive in H. simpl in H.
    apply lstrip_nil_iff in H. apply Forall_rev in H.
    rewrite rev_involutive in H. now apply lstrip_all_space_inv.
  - intros H. rewrite (lstrip_all_space s H). reflexivity.
Qed.

(** The test [not s or not s.strip()]. *)
Lemma blank_test (s : str) :
  negb (truthy s) || negb (truthy (strip s)) = true <-> blank s.
Proof.
  rewrite <- strip_nil_iff. destruct s as [|c s]; simpl.
  - split; reflexivity.
  - destruct (strip (c :: s)); simpl; split; congruence.
Qed.

Lemma join_words_head (ws : list str) :
  ws <> [] -> Forall is_word ws ->
  exists c x, join [space] ws = c :: x /\ isspace c = false.
Proof.
  intros Hne Hws. destruct Hws as [|w ws [Hw1 Hw2] Hws]; [contradiction|].
  destruct Hw2 as [|c w Hc Hw]; [contradiction|].
  destruct ws; simpl; eauto.
Qed.

Lemma join_words_last (ws : list str) :
  ws <> [] -> Forall is_word ws ->
  exists x d, join [space] ws = x ++ [d] /\ isspace d = false.
Proof.
  intros Hne Hws. induction Hws as [|w ws [Hw1 Hw2] Hws IH]; [contradiction|].
  destruct ws as [|w' ws].
  - destruct (exists_last Hw1) as (x & d & ->). exists x, d. split; [reflexivity|].
    apply Forall_app in Hw2. destruct Hw2 as [_ Hd]. now inversion Hd.
  - destruct IH as (x & d & E & Hd); [discriminate|].
    exists (w ++ [space] ++ x), d. split; [|assumption].
    change (join [space] (w :: w' :: ws))
      with (w ++ [space] ++ join [space] (w' :: ws)).
    rewrite E, <- !app_assoc. reflexivity.
Qed.

(** For words separated by single spaces, with any whitespace before and
    after, collapsing whitespace is the same as trimming. *)
Lemma collapse_single_spaced (p s : str) (ws : list str) :
  all_space p -> all_space s -> Forall is_word ws ->
  split (p ++ join [space] ws ++ s) = ws
  /\ strip (p ++ join [space] ws ++ s) = join [space] ws.
Proof.
  intros Hp Hs Hws. split.
  - unfold split. rewrite split_from_skip by assumption.
    now apply split_join_words.
  - unfold strip. rewrite lstrip_skip by assumption.
    destruct ws as [|w ws].
    + simpl. rewrite lstrip_all_space by assumption. reflexivity.
    + destruct (join_words_head (w :: ws)) as (c & x & E & Hc);
        [discriminate|assumption|].
      destruct (join_words_last (w :: ws)) as (y & d & E' & Hd);
        [discriminate|assumption|].
      rewrite E. simpl. rewrite Hc. rewrite <- E.
      change (c :: x ++ s) with ((c :: x) ++ s). rewrite <- E.
      rewrite rstrip_skip by assumption.
      rewrite E'. now apply rstrip_ends_nonspace.
Qed.

End StringFacts.

(** ** The text wrapper *)

Section WrapFacts.

Variable font : Font.
Variable max_width : Z.

Lemma wrap_text_flushed (text : str) :
  _wrap_text text font max_width =
  flushed (fold_left (wrap_step font max_width) (split text) ([], [])).
Proof.
  unfold _wrap_text, flushed.
  now destruct (fold_left _ _ _).
Qed.

(** The lines are the space-joins of consecutive, non-empty groups of the
    words, in order. *)
Lemma wrap_loop_groups (words : list str) :
  forall (groups : list (list str)) (cur : list str),
  Forall (fun g => g <> []) groups ->
  exists groups',
    flushed (fold_left (wrap_step font max_width) words
               (map (join [space]) groups, cur))
      = map (join [space]) groups'
    /\ Forall (fun g => g <> []) groups'
    /\ concat groups' = concat groups ++ cur ++ words.
Proof.
  induction words as [|w ws IH]; intros groups cur Hg; simpl fold_left.
  - destruct cur as [|c cur]; simpl.
    + exists groups. now rewrite app_nil_r.
    + exists (groups ++ [c :: cur]). rewrite map_app, concat_app. simpl.
      rewrite !app_nil_r. split; [reflexivity|]. split; [|reflexivity].
      apply Forall_app; split; [assumption|]. constructor; [discriminate|constructor].
  - destruct (bbox_right _ <=? max_width).
    + destruct (IH groups (cur ++ [w]) Hg) as (g' & E1 & E2 & E3).
      exists g'. rewrite E1, E3, <- !app_assoc. auto.
    + destruct cur as [|c cur]; simpl truthy; cbv iota.
      * destruct (IH groups [w] Hg) as (g' & E1 & E2 & E3).
        exists g'. rewrite E1, E3. auto.
      * assert (Hg' : Forall (fun g : list str => g <> []) (groups ++ [c :: cur])).
        { apply Forall_app; split; [assumption|].
          constructor; [discriminate|constructor]. }
        destruct (IH (groups ++ [c :: cur]) [w] Hg') as (g' & E1 & E2 & E3).
        exists g'. rewrite map_app in E1.
        change (map (join [space]) [c :: cur]) with [join [space] (c :: cur)] in E1.
        rewrite E1, E3, concat_app. simpl. rewrite app_nil_r, <- !app_assoc. auto.
Qed.

Lemma wrap_text_groups (text : str) :
  exists groups,
    _wrap_text text font max_width = map (join [space]) groups
    /\ Forall (fun g => g <> []) groups
    /\ concat groups = split text.
Proof.
  rewrite wrap_text_flushed.
  destruct (wrap_loop_groups (split text) [] [] (Forall_nil _))
    as (g & E1 & E2 & E3).
  exists g. auto.
Qed.

Lemma wrap_loop_widths (words : list str) :
  Forall is_word words ->
  forall (lines cur : list str),
  Forall (line_ok font max_width) lines ->
  (cur = [] \/ line_ok font max_width (join [space] cur)) ->
  Forall (line_ok font max_width)
    (flushed (fold_left (wrap_step font max_width) words (lines, cur))).
Proof.
  induction 1 as [|w ws Hw Hws IH]; intros lines cur Hl Hc; simpl fold_left.
  - destruct cur as [|c cur]; simpl; [assumption|].
    apply Forall_app; split; [assumption|].
    destruct Hc as [Hc|Hc]; [discriminate|]. constructor; [exact Hc|constructor].
  - destruct (bbox_right _ <=? max_width) eqn:Hfit.
    + apply IH; [assumption|]. right; left. apply Z.leb_le. exact Hfit.
    + apply IH.
      * destruct cur as [|c cur]; simpl truthy; cbv iota; [assumption|].
        apply Forall_app; split; [assumption|].
        destruct Hc as [Hc|Hc]; [discriminate|]. constructor; [exact Hc|constructor].
      * right; right. exact Hw.
Qed.

End WrapFacts.

(** C4. Every line the text wrapper emits measures at most [max_width],
    unless the line consists of exactly one word (which is then a whole word
    of the input: lines are space-joins of consecutive groups of whole words,
    so no word is ever split). *)
Theorem wrap_text_line_width (text : str) (font : Font) (max_width : Z) :
  (forall line, In line (_wrap_text text font max_width) ->
     bbox_right (getbbox font line) <= max_width \/ split line = [line])
  /\ (exists groups,
        _wrap_text text font max_width = map (join [space]) groups
        /\ Forall (fun g => g <> []) groups
        /\ concat groups = split text).
Proof.
  split; [|apply wrap_text_groups].
  intros line Hin.
  assert (H : Forall (line_ok font max_width) (_wrap_text text font max_width)).
  { rewrite wrap_text_flushed. apply wrap_loop_widths.
    - apply split_words.
    - constructor.
    - now left. }
  rewrite Forall_forall in H. destruct (H line Hin) as [Hw|Hw].
  - left; exact Hw.
  - right; now apply split_word.
Qed.

(** C10. Joining the wrapper's lines with single spaces gives the input with
    its whitespace runs collapsed, [' '.join(text.split())]; an empty or
    whitespace-only input gives no line at all. *)
Theorem wrap_text_join_preserves_words (text : str) (font : Font) (max_width : Z) :
  join [space] (_wrap_text text font max_width) = join [space] (split text)
  /\ (all_space text -> _wrap_text text font max_width = []).
Proof.
  split.
  - destruct (wrap_text_groups font max_width text) as (g & E1 & E2 & E3).
    rewrite E1, join_concat, E3 by assumption. reflexivity.
  - intros Hs. unfold _wrap_text. rewrite split_all_space by assumption.
    reflexivity.
Qed.

Lemma wrap_loop_all_fit (font : Font) (max_width : Z) (words : list str) :
  prefix_monotone font ->
  forall cur : list str,
  bbox_right (getbbox font (join [space] (cur ++ words))) <= max_width ->
  fold_left (wrap_step font max_width) words ([], cur) = ([], cur ++ words).
Proof.
  intros Hmono. induction words as [|w ws IH]; intros cur Hfit; simpl.
  - now rewrite app_nil_r.
  - assert (Hw : bbox_right (getbbox font (join [space] (cur ++ [w]))) <= max_width).
    { destruct (join_prefix [space] (cur ++ [w]) ws) as [r Hr].
      replace (cur ++ w :: ws) with ((cur ++ [w]) ++ ws) in Hfit
        by (rewrite <- app_assoc; reflexivity).
      rewrite Hr in Hfit.
      exact (Z.le_trans _ _ _ (Hmono (join [space] (cur ++ [w])) r) Hfit). }
    apply Z.leb_le in Hw. rewrite Hw.
    rewrite IH; rewrite <- app_assoc; [reflexivity|exact Hfit].
Qed.

(** C5, as the code has it. Under a text metric that never shrinks when
    more is appended, a text with at least one word whose whitespace-collapsed
    form fits in [max_width] wraps to exactly one line, that collapsed form;
    when the words of the text are separated by single spaces this is the
    trimmed input. *)
Theorem wrap_text_short_single_line (text : str) (font : Font) (max_width : Z) :
  prefix_monotone font ->
  split text <> [] ->
  bbox_right (getbbox font (join [space] (split text))) <= max_width ->
  _wrap_text text font max_width = [join [space] (split text)]
  /\ (forall (p s : str) (ws : list str),
        all_space p -> all_space s -> Forall is_word ws ->
        text = p ++ join [space] ws ++ s ->
        _wrap_text text font max_width = [strip text]).
Proof.
  intros Hmono Hne Hfit.
  assert (E : _wrap_text text font max_width = [join [space] (split text)]).
  { rewrite wrap_text_flushed, wrap_loop_all_fit by assumption.
    simpl. destruct (split text); [contradiction|reflexivity]. }
  split; [exact E|].
  intros p s ws Hp Hs Hws ->.
  destruct (collapse_single_spaced p s ws Hp Hs Hws) as [E1 E2].
  rewrite E, E1, E2. reflexivity.
Qed.

Lemma fixed_pitch_monotone : prefix_monotone fixed_pitch.
Proof.
  intros a b. unfold fixed_pitch, bbox_right, len; cbn [getbbox].
  rewrite length_app. lia.
Qed.

Lemma wrap_text_short_single_line_witness :
  _wrap_text (lit " good  game ") fixed_pitch 200 = [lit "good game"].
Proof.
  apply (wrap_text_short_single_line (lit " good  game ") fixed_pitch 200).
  - exact fixed_pitch_monotone.
  - vm_compute. discriminate.
  - vm_compute. discriminate.
Defined.

(** C5 as stated fails: a non-empty text narrower than [max_width] whose
    words are two spaces apart wraps to one line that is not the trimmed
    input. *)
Lemma wrap_text_short_not_trimmed :
  lit "a  b" <> []
  /\ bbox_right (getbbox fixed_pitch (lit "a  b")) < 1000
  /\ _wrap_text (lit "a  b") fixed_pitch 1000 = [lit "a b"]
  /\ _wrap_text (lit "a  b") fixed_pitch 1000 <> [strip (lit "a  b")].
Proof.
  repeat split; try (vm_compute; congruence).
Qed.

(** ** Floats: comparison, truncation and printing *)

Section FloatFacts.

Import PyFloat.

Lemma ge_int_real (x : float) (n : Z) :
  is_real x -> (ge_int x n = true <-> (inject_Z n <= value x)%Q).
Proof.
  intros Hx. unfold ge_int, compare_int.
  assert (H : (match (value x ?= inject_Z n)%Q with
               | Gt | Eq => true | _ => false end) = true
              <-> (inject_Z n <= value x)%Q).
  { rewrite Qle_alt, <- (Qcompare_antisym (value x) (inject_Z n)).
    destruct (value x ?= inject_Z n)%Q; simpl; split; congruence. }
  destruct x; simpl in Hx; try contradiction; exact H.
Qed.

Lemma le_int_real (x : float) (n : Z) :
  is_real x -> (le_int x n = true <-> (value x <= inject_Z n)%Q).
Proof.
  intros Hx. unfold le_int, compare_int.
  assert (H : (match (value x ?= inject_Z n)%Q with
               | Lt | Eq => true | _ => false end) = true
              <-> (value x <= inject_Z n)%Q).
  { rewrite Qle_alt.
    destruct (value x ?= inject_Z n)%Q; simpl; split; congruence. }
  destruct x; simpl in Hx; try contradiction; exact H.
Qed.

Lemma eq_int_real (x : float) (n : Z) :
  is_real x -> (eq_int x n = true <-> (value x == inject_Z n)%Q).
Proof.
  intros Hx. unfold eq_int, compare_int.
  assert (H : (match (value x ?= inject_Z n)%Q with
               | Eq => true | _ => false end) = true
              <-> (value x == inject_Z n)%Q).
  { rewrite Qeq_alt.
    destruct (value x ?= inject_Z n)%Q; simpl; split; congruence. }
  destruct x; simpl in Hx; try contradiction; exact H.
Qed.

(** A comparison with an integer that succeeds on a float that is not real
    can only be with an infinity. *)
Lemma range_check_real (x : float) (lo hi : Z) :
  ge_int x lo && le_int x hi = true -> is_real x.
Proof.
  destruct x as [s|[|]| |s m e]; simpl; try exact (fun _ => I); discriminate.
Qed.

Lemma range_check_spec (x : float) :
  ge_int x 0 && le_int x 10 = true <-> score_in_range x.
Proof.
  split.
  - intros H. pose proof (range_check_real x 0 10 H) as Hr.
    apply andb_true_iff in H. destruct H as [H1 H2].
    apply ge_int_real in H1; [|assumption].
    apply le_int_real in H2; [|assumption].
    repeat split; assumption.
  - intros (Hr & H1 & H2). apply andb_true_iff. split.
    + now apply ge_int_real.
    + now apply le_int_real.
Qed.

Lemma pow2_pos (e : Z) : (0 < pow2 e)%Q.
Proof.
  destruct e as [|p|p]; unfold pow2.
  - reflexivity.
  - rewrite <- (Zlt_Qlt 0). apply Z.pow_pos_nonneg; lia.
  - reflexivity.
Qed.

Lemma in_range_cases (x : float) :
  score_in_range x ->
  (exists s, x = S754_zero s) \/ (exists m e, x = S754_finite false m e).
Proof.
  intros (Hr & H0 & _). destruct x as [s| | |[|] m e]; simpl in Hr; try contradiction.
  - left; eauto.
  - exfalso. simpl in H0.
    assert (H : (inject_Z (Z.neg m) * pow2 e < 0)%Q).
    { setoid_replace (inject_Z (Z.neg m)) with (- inject_Z (Z.pos m))%Q by reflexivity.
      setoid_replace (- inject_Z (Z.pos m) * pow2 e)%Q
        with (- (inject_Z (Z.pos m) * pow2 e))%Q by ring.
      rewrite <- (Qopp_involutive 0). apply Qopp_lt_compat.
      apply Qmult_lt_0_compat; [reflexivity|apply pow2_pos]. }
    exact (Qlt_not_le _ _ H H0).
  - right; eauto.
Qed.

Lemma to_int_integral (x : float) (n : Z) :
  is_real x -> (value x == inject_Z n)%Q -> to_int x = Ok n.
Proof.
  intros Hr Hv. destruct x as [s| | |s m e]; simpl in Hr; try contradiction.
  - simpl in *. f_equal. unfold Qeq in Hv; simpl in Hv. lia.
  - unfold value, pow2 in Hv. unfold to_int.
    destruct e as [|p|p].
    + f_equal. destruct s; unfold Qeq in Hv; simpl in Hv; lia.
    + f_equal. remember (2 ^ Z.pos p) as P.
      destruct s; unfold Qeq in Hv; cbn [Qnum Qden inject_Z Qmult] in Hv;
        rewrite !Z.mul_1_r in Hv; rewrite <- Hv;
        [rewrite <- Pos2Z.opp_pos, Z.mul_opp_l|]; reflexivity.
    + f_equal. change (2 ^ Z.pos p) with (Z.pos 2 ^ Z.pos p). rewrite <- Pos2Z.inj_pow.
      assert (HP : 0 < Z.pos (2 ^ p)) by lia.
      destruct s; unfold Qeq in Hv; simpl in Hv; rewrite !Pos.mul_1_r in Hv.
      * replace (Z.pos m) with ((- n) * Z.pos (2 ^ p)) by lia.
        rewrite Z.div_mul by lia. lia.
      * rewrite Hv, Z.div_mul by lia. reflexivity.
Qed.

Lemma to_int_real (x : float) : is_real x -> exists i, to_int x = Ok i.
Proof.
  destruct x; simpl; intros H; try contradiction; eauto.
Qed.

(** For a real float, [x == int(x)] holds exactly when the value of [x] is
    an integer. *)
Lemma eq_int_to_int (x : float) (i : Z) :
  is_real x -> to_int x = Ok i ->
  (eq_int x i = true <-> is_integer_value x).
Proof.
  intros Hr Hi. rewrite eq_int_real by assumption. split.
  - intros H. now exists i.
  - intros [n Hn]. rewrite (to_int_integral x n Hr Hn) in Hi.
    injection Hi as <-. exact Hn.
Qed.

(** Cancelling a positive factor. *)
Lemma Qle_cancel (x y z : Q) : (0 < z)%Q -> (x * z <= y * z)%Q -> (x <= y)%Q.
Proof. intros Hz H. now apply (Qmult_le_r x y z Hz). Qed.

Lemma Qlt_cancel (x y z : Q) : (0 < z)%Q -> (x * z < y * z)%Q -> (x < y)%Q.
Proof. intros Hz H. now apply (Qmult_lt_r x y z Hz). Qed.

(** [int(x)] is the floor of a positive float. *)
Lemma to_int_floor (m : positive) (e : Z) :
  exists i,
    to_int (S754_finite false m e) = Ok i
    /\ (inject_Z i <= value (S754_finite false m e))%Q
    /\ (value (S754_finite false m e) < inject_Z (i + 1))%Q.
Proof.
  unfold to_int, value, pow2. destruct e as [|p|p].
  - exists (Z.pos m * 2 ^ 0). split; [reflexivity|].
    rewrite <- inject_Z_mult, <- Zle_Qle, <- Zlt_Qlt. lia.
  - exists (Z.pos m * 2 ^ Z.pos p). split; [reflexivity|].
    rewrite <- inject_Z_mult, <- Zle_Qle, <- Zlt_Qlt. lia.
  - exists (Z.pos m / 2 ^ Z.pos p). split; [reflexivity|].
    change (2 ^ Z.pos p) with (Z.pos 2 ^ Z.pos p). rewrite <- Pos2Z.inj_pow.
    set (P := (2 ^ p)%positive).
    pose proof (Z.div_mod (Z.pos m) (Z.pos P) ltac:(lia)) as E.
    pose proof (Z.mod_pos_bound (Z.pos m) (Z.pos P) ltac:(lia)) as Hr.
    assert (HP : (0 < inject_Z (Z.pos P))%Q) by reflexivity.
    assert (Em : (inject_Z (Z.pos m) * (1 # P) * inject_Z (Z.pos P)
                  == inject_Z (Z.pos m))%Q).
    { setoid_replace (1 # P)%Q with (/ inject_Z (Z.pos P))%Q by reflexivity.
      field. discriminate. }
    split.
    + apply (Qle_cancel _ _ _ HP). rewrite Em, <- inject_Z_mult, <- Zle_Qle. nia.
    + apply (Qlt_cancel _ _ _ HP). rewrite Em, <- inject_Z_mult, <- Zlt_Qlt. nia.
Qed.

Lemma rne_div_spec (n d : Z) :
  0 < d -> 0 <= n ->
  2 * n - d <= 2 * (rne_div n d * d) <= 2 * n + d /\ 0 <= rne_div n d.
Proof.
  intros Hd Hn. unfold rne_div.
  pose proof (Z.div_mod n d ltac:(lia)) as E.
  pose proof (Z.mod_pos_bound n d Hd) as Hr.
  pose proof (Z.div_pos n d Hn Hd) as Hq.
  set (q := n / d) in *. set (r := n mod d) in *.
  destruct (Z.compare_spec (2 * r) d) as [H|H|H];
    [destruct (Z.even q)| |]; nia.
Qed.

Lemma rne_div_le (n d k : Z) :
  0 < d -> 0 <= n -> n <= k * d -> rne_div n d <= k.
Proof.
  intros Hd Hn Hk. pose proof (rne_div_spec n d Hd Hn) as [[_ H] _]. nia.
Qed.

Lemma rne_div_ge (n d k : Z) :
  0 < d -> 0 <= n -> k * d <= n -> k <= rne_div n d.
Proof.
  intros Hd Hn Hk. pose proof (rne_div_spec n d Hd Hn) as [[H _] _]. nia.
Qed.

Lemma scaled_neg_spec (a e : Z) :
  0 <= a ->
  let '(n, d) := scaled a 1 (- e) in
  0 < d /\ 0 <= n /\ (inject_Z n == inject_Z a * pow2 e * inject_Z d)%Q.
Proof.
  intros Ha. destruct e as [|p|p]; unfold scaled, pow2; cbn [Z.opp].
  - change (1 * 2 ^ 0) with 1. repeat split; try lia.
    unfold Qeq; simpl. lia.
  - assert (0 < 2 ^ Z.pos p) by (apply Z.pow_pos_nonneg; lia).
    repeat split; try nia. rewrite inject_Z_mult. ring.
  - change (2 ^ Z.pos p) with (Z.pos 2 ^ Z.pos p).
    rewrite <- Pos2Z.inj_pow, Z.mul_1_l.
    repeat split; try lia.
    unfold Qeq; simpl. rewrite Pos.mul_1_r. lia.
Qed.

Lemma digit_str (k : Z) : 0 <= k <= 9 -> length (str_of_int k) = 1%nat.
Proof.
  intros H.
  assert (E : k = 0 \/ k = 1 \/ k = 2 \/ k = 3 \/ k = 4 \/ k = 5 \/ k = 6
              \/ k = 7 \/ k = 8 \/ k = 9) by lia.
  repeat (destruct E as [->|E]; [reflexivity|]). subst; reflexivity.
Qed.

(** What [f"{x:.1f}"] prints for a positive float: the tenths [t] nearest
    to [10 * x], as an integer part, a point and exactly one digit. *)
Lemma format_1f_spec (m : positive) (e : Z) :
  let x := S754_finite false m e in
  exists t : Z,
    0 <= t
    /\ (inject_Z (2 * t) - 1 <= 20 * value x)%Q
    /\ (20 * value x <= inject_Z (2 * t) + 1)%Q
    /\ format_1f x = str_of_int (t / 10) ++ lit "." ++ str_of_int (t mod 10)
    /\ length (str_of_int (t mod 10)) = 1%nat.
Proof.
  intros x. unfold x, format_1f.
  pose proof (scaled_neg_spec (10 * Z.pos m) e ltac:(lia)) as Hs.
  destruct (scaled (10 * Z.pos m) 1 (- e)) as [n d].
  destruct Hs as (Hd & Hn & E).
  pose proof (rne_div_spec n d Hd Hn) as [[H1 H2] H0].
  exists (rne_div n d). set (t := rne_div n d) in *.
  assert (E2 : (20 * value (S754_finite false m e) * inject_Z d == inject_Z (2 * n))%Q).
  { rewrite (inject_Z_mult 2 n), E, inject_Z_mult. simpl value. ring. }
  assert (Hdq : (0 < inject_Z d)%Q) by (rewrite <- (Zlt_Qlt 0); exact Hd).
  split; [exact H0|]. split; [|split; [|split]].
  - apply (Qmult_le_r _ _ (inject_Z d) Hdq). rewrite E2.
    setoid_replace ((inject_Z (2 * t) - 1) * inject_Z d)%Q
      with (inject_Z (2 * (t * d) - d))
      by (unfold Zminus; rewrite inject_Z_plus, inject_Z_opp, !inject_Z_mult; ring).
    rewrite <- Zle_Qle. lia.
  - apply (Qmult_le_r _ _ (inject_Z d) Hdq). rewrite E2.
    setoid_replace ((inject_Z (2 * t) + 1) * inject_Z d)%Q
      with (inject_Z (2 * (t * d) + d))
      by (rewrite inject_Z_plus, !inject_Z_mult; ring).
    rewrite <- Zle_Qle. lia.
  - reflexivity.
  - apply digit_str. pose proof (Z.mod_pos_bound t 10). lia.
Qed.

(** ** Floats: rounding to binary64 *)

Lemma pow2_Qpower (e : Z) : (pow2 e == 2 ^ e)%Q.
Proof.
  destruct e as [|p|p]; unfold pow2.
  - reflexivity.
  - rewrite Zpower_Qpower by lia. reflexivity.
  - change (Z.neg p) with (- Z.pos p). rewrite Qpower_opp.
    rewrite <- (Zpower_Qpower 2 (Z.pos p)) by lia.
    change (2 ^ Z.pos p) with (Z.pos 2 ^ Z.pos p). rewrite <- Pos2Z.inj_pow.
    reflexivity.
Qed.

Lemma pow2_add (a b : Z) : (pow2 (a + b) == pow2 a * pow2 b)%Q.
Proof.
  rewrite !pow2_Qpower. apply Qpower_plus. discriminate.
Qed.

Lemma pow2_nonneg_ge1 (k : Z) : 0 <= k -> (1 <= pow2 k)%Q.
Proof.
  intros Hk. destruct k as [|p|p]; unfold pow2; try lia.
  - discriminate.
  - change 1%Q with (inject_Z 1). rewrite <- Zle_Qle.
    assert (0 < 2 ^ Z.pos p) by (apply Z.pow_pos_nonneg; lia). lia.
Qed.

Lemma pow2_le (a b : Z) : a <= b -> (pow2 a <= pow2 b)%Q.
Proof.
  intros H. replace b with (a + (b - a)) by lia. rewrite pow2_add.
  rewrite <- (Qmult_1_r (pow2 a)) at 1.
  apply Qmult_le_l; [apply pow2_pos|]. apply pow2_nonneg_ge1. lia.
Qed.

Lemma pow2_lt_inv (a b : Z) : (pow2 a < pow2 b)%Q -> a < b.
Proof.
  intros H. destruct (Z_lt_le_dec a b) as [Hlt|Hle]; [exact Hlt|].
  exfalso. apply (Qlt_not_le _ _ H). now apply pow2_le.
Qed.

Lemma pow2_of_nonneg (k : Z) : 0 <= k -> (pow2 k == inject_Z (2 ^ k))%Q.
Proof. destruct k; unfold pow2; try lia; reflexivity. Qed.

Lemma pow2_split (ex e : Z) :
  e <= ex -> (pow2 ex == inject_Z (2 ^ (ex - e)) * pow2 e)%Q.
Proof.
  intros H. replace ex with ((ex - e) + e) at 1 by lia.
  rewrite pow2_add, pow2_of_nonneg by lia. reflexivity.
Qed.

Lemma pow2_0_r (x : Q) : (x * pow2 0 == x)%Q.
Proof. change (pow2 0) with 1%Q. ring. Qed.

(** [scaled a d e] is the fraction [(a / d) / 2^e]. *)
Lemma scaled_spec (a d e : Z) :
  0 <= a -> 0 < d ->
  let '(n, dd) := scaled a d e in
  0 <= n /\ 0 < dd
  /\ (inject_Z n * (inject_Z d * pow2 e) == inject_Z a * inject_Z dd)%Q.
Proof.
  intros Ha Hd. destruct e as [|p|p]; unfold scaled, pow2.
  - change (2 ^ 0) with 1. rewrite Z.mul_1_r.
    split; [lia|]. split; [lia|]. ring.
  - assert (0 < 2 ^ Z.pos p) by (apply Z.pow_pos_nonneg; lia).
    split; [lia|]. split; [nia|]. rewrite inject_Z_mult. ring.
  - assert (0 < 2 ^ Z.pos p) by (apply Z.pow_pos_nonneg; lia).
    split; [nia|]. split; [lia|].
    change (2 ^ Z.pos p) with (Z.pos 2 ^ Z.pos p). rewrite <- Pos2Z.inj_pow.
    rewrite inject_Z_mult.
    setoid_replace (1 # 2 ^ p)%Q with (/ inject_Z (Z.pos (2 ^ p)))%Q by reflexivity.
    field. discriminate.
Qed.

(** The test of a scaled fraction against 1. *)
Lemma scaled_ge1 (a d e n dd : Z) :
  0 <= a -> 0 < d -> scaled a d e = (n, dd) ->
  (dd <= n <-> (pow2 e * inject_Z d <= inject_Z a)%Q).
Proof.
  intros Ha Hd E. pose proof (scaled_spec a d e Ha Hd) as H. rewrite E in H.
  destruct H as (Hn & Hdd & Hs).
  assert (Hddq : (0 < inject_Z dd)%Q) by (rewrite <- (Zlt_Qlt 0); exact Hdd).
  assert (Hx : (0 < inject_Z d * pow2 e)%Q).
  { apply Qmult_lt_0_compat; [rewrite <- (Zlt_Qlt 0); exact Hd|apply pow2_pos]. }
  rewrite Zle_Qle. split; intros H.
  - apply (Qle_cancel _ _ (inject_Z dd) Hddq). rewrite <- Hs.
    setoid_replace (pow2 e * inject_Z d * inject_Z dd)%Q
      with (inject_Z dd * (inject_Z d * pow2 e))%Q by ring.
    apply Qmult_le_r; assumption.
  - apply (Qle_cancel _ _ (inject_Z d * pow2 e)%Q Hx). rewrite Hs.
    setoid_replace (inject_Z dd * (inject_Z d * pow2 e))%Q
      with (pow2 e * inject_Z d * inject_Z dd)%Q by ring.
    apply Qmult_le_r; assumption.
Qed.

Lemma log2_pow2 (a : positive) :
  (pow2 (Z.log2 (Z.pos a)) <= inject_Z (Z.pos a))%Q
  /\ (inject_Z (Z.pos a) < 2 * pow2 (Z.log2 (Z.pos a)))%Q.
Proof.
  pose proof (Z.log2_spec (Z.pos a) ltac:(lia)) as [H1 H2].
  pose proof (Z.log2_nonneg (Z.pos a)) as H0.
  rewrite pow2_of_nonneg by assumption.
  rewrite Z.pow_succ_r in H2 by assumption.
  split.
  - rewrite <- Zle_Qle. exact H1.
  - change 2%Q with (inject_Z 2). rewrite <- inject_Z_mult, <- Zlt_Qlt. exact H2.
Qed.

(** [ilog2 a d] is the binade of [a / d]. *)
Lemma ilog2_spec (a d : positive) :
  let l := ilog2 a d in
  (pow2 l * inject_Z (Z.pos d) <= inject_Z (Z.pos a))%Q
  /\ (inject_Z (Z.pos a) < pow2 (l + 1) * inject_Z (Z.pos d))%Q.
Proof.
  unfold ilog2.
  set (l0 := Z.log2 (Z.pos a) - Z.log2 (Z.pos d)).
  destruct (log2_pow2 a) as [Ha1 Ha2]. destruct (log2_pow2 d) as [Hd1 Hd2].
  assert (E0 : (pow2 (Z.log2 (Z.pos a)) == pow2 l0 * pow2 (Z.log2 (Z.pos d)))%Q).
  { rewrite <- pow2_add. unfold l0.
    replace (Z.log2 (Z.pos a) - Z.log2 (Z.pos d) + Z.log2 (Z.pos d))
      with (Z.log2 (Z.pos a)) by lia. reflexivity. }
  assert (E1 : (pow2 (l0 + 1) == 2 * pow2 l0)%Q).
  { rewrite pow2_add. change (pow2 1) with 2%Q. ring. }
  assert (E2 : (2 * pow2 (l0 - 1) == pow2 l0)%Q).
  { replace l0 with ((l0 - 1) + 1) at 2 by lia. rewrite pow2_add.
    change (pow2 1) with 2%Q. ring. }
  pose proof (pow2_pos l0) as HP. pose proof (pow2_pos (l0 - 1)) as HP'.
  pose proof (pow2_pos (Z.log2 (Z.pos d))) as HD.
  destruct (scaled (Z.pos a) (Z.pos d) l0) as [n dd] eqn:Es.
  pose proof (scaled_ge1 (Z.pos a) (Z.pos d) l0 n dd ltac:(lia) ltac:(lia) Es) as Ht.
  destruct (dd <=? n) eqn:Etest.
  - apply Z.leb_le in Etest. apply Ht in Etest. split; [exact Etest|].
    rewrite E1. nra.
  - apply Z.leb_gt in Etest.
    assert (Hlt : (inject_Z (Z.pos a) < pow2 l0 * inject_Z (Z.pos d))%Q).
    { apply Qnot_le_lt. intros H. apply Ht in H. lia. }
    replace (l0 - 1 + 1) with l0 by lia. split; [|exact Hlt].
    nra.
Qed.

Lemma ilog2_range (a d : positive) (J K : Z) :
  (pow2 J * inject_Z (Z.pos d) <= inject_Z (Z.pos a))%Q ->
  (inject_Z (Z.pos a) < pow2 K * inject_Z (Z.pos d))%Q ->
  J <= ilog2 a d < K.
Proof.
  intros Hlo Hhi. destruct (ilog2_spec a d) as [Hl1 Hl2].
  assert (Hdq : (0 < inject_Z (Z.pos d))%Q) by reflexivity.
  split.
  - assert (H : (pow2 J < pow2 (ilog2 a d + 1))%Q).
    { apply (Qlt_cancel _ _ _ Hdq). eapply Qle_lt_trans; eassumption. }
    apply pow2_lt_inv in H. lia.
  - apply pow2_lt_inv. apply (Qlt_cancel _ _ _ Hdq).
    eapply Qle_lt_trans; eassumption.
Qed.

Lemma cross_le (n x a dd c : Q) :
  (0 < x)%Q -> (0 < dd)%Q -> (n * x == a * dd)%Q ->
  (c * x <= a)%Q -> (c * dd <= n)%Q.
Proof.
  intros Hx Hdd E H. apply (Qle_cancel _ _ x Hx). rewrite E.
  setoid_replace (c * dd * x)%Q with (c * x * dd)%Q by ring.
  apply Qmult_le_compat_r; [exact H|now apply Qlt_le_weak].
Qed.

Lemma cross_lt (n x a dd c : Q) :
  (0 < x)%Q -> (0 < dd)%Q -> (n * x == a * dd)%Q ->
  (a < c * x)%Q -> (n < c * dd)%Q.
Proof.
  intros Hx Hdd E H. apply (Qlt_cancel _ _ x Hx). rewrite E.
  setoid_replace (c * dd * x)%Q with (c * x * dd)%Q by ring.
  apply Qmult_lt_compat_r; assumption.
Qed.

Lemma cross_ge (n x a dd c : Q) :
  (0 < x)%Q -> (0 < dd)%Q -> (n * x == a * dd)%Q ->
  (a <= c * x)%Q -> (n <= c * dd)%Q.
Proof.
  intros Hx Hdd E H. apply (Qle_cancel _ _ x Hx). rewrite E.
  setoid_replace (c * dd * x)%Q with (c * x * dd)%Q by ring.
  apply Qmult_le_compat_r; [exact H|now apply Qlt_le_weak].
Qed.

(** The float [round_pos] returns in the normal range: its value is the
    half-even rounding [r] of [(a / d) / 2^(l - 52)] times [2^(l - 52)],
    where [l] is the binade of [a / d]. *)
Lemma round_pos_value (s : bool) (a d : positive) :
  let l := ilog2 a d in
  -1022 <= l <= 1022 ->
  exists n dd m e,
    scaled (Z.pos a) (Z.pos d) (l - 52) = (n, dd)
    /\ 0 <= n /\ 0 < dd
    /\ 2 ^ 52 <= rne_div n dd <= 2 ^ 53
    /\ round_pos s a d = S754_finite s m e
    /\ Z.pos m < 2 ^ 53
    /\ (inject_Z (Z.pos m) * pow2 e == inject_Z (rne_div n dd) * pow2 (l - 52))%Q.
Proof.
  intros l Hl.
  destruct (ilog2_spec a d) as [Hl1 Hl2]. fold l in Hl1, Hl2.
  unfold round_pos. fold l.
  assert (Hdq : (0 < inject_Z (Z.pos d))%Q) by reflexivity.
  replace (Z.max (l + 1 - prec) (3 - emax - prec)) with (l - 52)
    by (unfold prec, emax; lia).
  pose proof (scaled_spec (Z.pos a) (Z.pos d) (l - 52) ltac:(lia) ltac:(lia)) as Hs.
  destruct (scaled (Z.pos a) (Z.pos d) (l - 52)) as [n dd].
  destruct Hs as (Hn & Hdd & Hs).
  assert (Hddq : (0 < inject_Z dd)%Q) by (rewrite <- (Zlt_Qlt 0); exact Hdd).
  assert (Hx : (0 < inject_Z (Z.pos d) * pow2 (l - 52))%Q).
  { apply Qmult_lt_0_compat; [exact Hdq|apply pow2_pos]. }
  assert (El : (pow2 l == inject_Z (2 ^ 52) * pow2 (l - 52))%Q).
  { replace l with (52 + (l - 52)) at 1 by lia. rewrite pow2_add. reflexivity. }
  assert (El1 : (pow2 (l + 1) == inject_Z (2 ^ 53) * pow2 (l - 52))%Q).
  { replace (l + 1) with (53 + (l - 52)) by lia. rewrite pow2_add. reflexivity. }
  assert (Hn1 : 2 ^ 52 * dd <= n).
  { rewrite Zle_Qle, inject_Z_mult.
    apply (cross_le _ _ _ _ _ Hx Hddq Hs).
    setoid_replace (inject_Z (2 ^ 52) * (inject_Z (Z.pos d) * pow2 (l - 52)))%Q
      with (pow2 l * inject_Z (Z.pos d))%Q by (rewrite El; ring).
    exact Hl1. }
  assert (Hn2 : n < 2 ^ 53 * dd).
  { rewrite Zlt_Qlt, inject_Z_mult.
    apply (cross_lt _ _ _ _ _ Hx Hddq Hs).
    setoid_replace (inject_Z (2 ^ 53) * (inject_Z (Z.pos d) * pow2 (l - 52)))%Q
      with (pow2 (l + 1) * inject_Z (Z.pos d))%Q by (rewrite El1; ring).
    exact Hl2. }
  pose proof (rne_div_ge n dd (2 ^ 52) Hdd Hn Hn1) as Hm1.
  assert (Hm2 : rne_div n dd <= 2 ^ 53) by (apply rne_div_le; lia).
  exists n, dd.
  set (r := rne_div n dd) in *.
  change (2 ^ prec) with (2 ^ 53). change (2 ^ (prec - 1)) with (Z.pos (2 ^ 52)).
  change (emax - prec) with 971.
  destruct (r =? 2 ^ 53) eqn:Er.
  - apply Z.eqb_eq in Er.
    replace (l - 52 + 1 <=? 971) with true by (symmetry; apply Z.leb_le; lia).
    exists (2 ^ 52)%positive, (l - 52 + 1).
    repeat (split; [first [reflexivity | assumption | lia]|]).
    rewrite Er, pow2_add. change (pow2 1) with 2%Q.
    change (inject_Z (2 ^ 53)) with (inject_Z (Z.pos (2 ^ 52)) * 2)%Q. ring.
  - apply Z.eqb_neq in Er.
    destruct r as [|p|p] eqn:Ep; try (exfalso; cbn in Hm1; lia).
    replace (l - 52 <=? 971) with true by (symmetry; apply Z.leb_le; lia).
    exists p, (l - 52).
    repeat (split; [first [reflexivity | assumption | lia]|]).
    reflexivity.
Qed.

(** Rounding a positive fraction that lies between two powers of two of the
    normal range gives a finite float between the same powers. *)
Lemma round_pos_normal (s : bool) (a d : positive) (J K : Z) :
  -1022 <= J -> K <= 1023 ->
  (pow2 J * inject_Z (Z.pos d) <= inject_Z (Z.pos a))%Q ->
  (inject_Z (Z.pos a) < pow2 K * inject_Z (Z.pos d))%Q ->
  exists m e,
    round_pos s a d = S754_finite s m e
    /\ Z.pos m < 2 ^ 53
    /\ (pow2 J <= inject_Z (Z.pos m) * pow2 e)%Q
    /\ (inject_Z (Z.pos m) * pow2 e <= pow2 K)%Q.
Proof.
  intros HJ HK Hlo Hhi.
  pose proof (ilog2_range a d J K Hlo Hhi) as Hl.
  destruct (round_pos_value s a d ltac:(lia))
    as (n & dd & m & e & _ & _ & _ & [Hr1 Hr2] & E & Hm & Ev).
  exists m, e. split; [exact E|]. split; [exact Hm|]. rewrite Ev.
  set (l := ilog2 a d) in *.
  pose proof (pow2_pos (l - 52)) as HP.
  assert (El : (pow2 l == inject_Z (2 ^ 52) * pow2 (l - 52))%Q).
  { replace l with (52 + (l - 52)) at 1 by lia. rewrite pow2_add. reflexivity. }
  assert (El1 : (pow2 (l + 1) == inject_Z (2 ^ 53) * pow2 (l - 52))%Q).
  { replace (l + 1) with (53 + (l - 52)) by lia. rewrite pow2_add. reflexivity. }
  split.
  - eapply Qle_trans; [apply (pow2_le J l); lia|]. rewrite El.
    apply Qmult_le_compat_r; [rewrite <- Zle_Qle; exact Hr1|now apply Qlt_le_weak].
  - eapply Qle_trans; [|apply (pow2_le (l + 1) K); lia]. rewrite El1.
    apply Qmult_le_compat_r; [rewrite <- Zle_Qle; exact Hr2|now apply Qlt_le_weak].
Qed.

(** A number [k * 2^ex] with [k < 2^53] that is at most [a / d] is at most
    the rounding of [a / d]: rounding never crosses a float. *)
Lemma round_pos_ge_repr (a d : positive) (k ex : Z) :
  -1022 <= ilog2 a d <= 1022 ->
  0 < k < 2 ^ 53 ->
  (inject_Z k * pow2 ex * inject_Z (Z.pos d) <= inject_Z (Z.pos a))%Q ->
  (inject_Z k * pow2 ex <= value (round_pos false a d))%Q.
Proof.
  intros Hl Hk Hle.
  destruct (round_pos_value false a d Hl)
    as (n & dd & m & e & Es & Hn & Hdd & [Hr1 Hr2] & E & Hm & Ev).
  rewrite E. cbn [value]. rewrite Ev.
  set (l := ilog2 a d) in *. set (r := rne_div n dd) in *.
  pose proof (scaled_spec (Z.pos a) (Z.pos d) (l - 52) ltac:(lia) ltac:(lia)) as Hs.
  rewrite Es in Hs. destruct Hs as (_ & _ & Hs).
  pose proof (pow2_pos (l - 52)) as HP.
  assert (Hdq : (0 < inject_Z (Z.pos d))%Q) by reflexivity.
  assert (Hddq : (0 < inject_Z dd)%Q) by (rewrite <- (Zlt_Qlt 0); exact Hdd).
  assert (Hx : (0 < inject_Z (Z.pos d) * pow2 (l - 52))%Q)
    by (apply Qmult_lt_0_compat; assumption).
  destruct (Z_le_gt_dec (l - 52) ex) as [Hex|Hex].
  - rewrite (pow2_split ex (l - 52) Hex) in *.
    assert (H2 : 0 < 2 ^ (ex - (l - 52))) by (apply Z.pow_pos_nonneg; lia).
    set (c := 2 ^ (ex - (l - 52))) in *.
    assert (HK : k * c * dd <= n).
    { rewrite Zle_Qle, !inject_Z_mult.
      apply (cross_le _ _ _ _ _ Hx Hddq Hs).
      setoid_replace (inject_Z k * inject_Z c * (inject_Z (Z.pos d) * pow2 (l - 52)))%Q
        with (inject_Z k * (inject_Z c * pow2 (l - 52)) * inject_Z (Z.pos d))%Q by ring.
      exact Hle. }
    pose proof (rne_div_ge n dd (k * c) Hdd Hn HK) as Hge. fold r in Hge.
    setoid_replace (inject_Z k * (inject_Z c * pow2 (l - 52)))%Q
      with (inject_Z (k * c) * pow2 (l - 52))%Q by (rewrite inject_Z_mult; ring).
    apply Qmult_le_compat_r; [|now apply Qlt_le_weak].
    rewrite <- Zle_Qle. exact Hge.
  - assert (Hp : (pow2 ex <= pow2 (l - 53))%Q) by (apply pow2_le; lia).
    assert (E2 : (pow2 (l - 52) == 2 * pow2 (l - 53))%Q).
    { replace (l - 52) with (1 + (l - 53)) by lia. rewrite pow2_add. reflexivity. }
    pose proof (pow2_pos ex) as HPe. pose proof (pow2_pos (l - 53)) as HP3.
    assert (Hkq : (inject_Z k <= inject_Z (2 ^ 53))%Q) by (rewrite <- Zle_Qle; lia).
    assert (Hrq : (inject_Z (2 ^ 52) <= inject_Z r)%Q) by (rewrite <- Zle_Qle; lia).
    assert (Hk0 : (0 < inject_Z k)%Q) by (rewrite <- (Zlt_Qlt 0); lia).
    rewrite E2.
    apply Qle_trans with (inject_Z (2 ^ 53) * pow2 (l - 53))%Q.
    + apply Qle_trans with (inject_Z k * pow2 (l - 53))%Q.
      * apply Qmult_le_l; assumption.
      * apply Qmult_le_compat_r; [assumption|now apply Qlt_le_weak].
    + setoid_replace (inject_Z (2 ^ 53) * pow2 (l - 53))%Q
        with (inject_Z (2 ^ 52) * (2 * pow2 (l - 53)))%Q
        by (change (inject_Z (2 ^ 53)) with (inject_Z (2 ^ 52) * 2)%Q; ring).
      apply Qmult_le_compat_r; [assumption|]. lra.
Qed.

(** And a number [k * 2^ex] with [k < 2^53] that is at least [a / d] is at
    least the rounding of [a / d]. *)
Lemma round_pos_le_repr (a d : positive) (k ex : Z) :
  -1022 <= ilog2 a d <= 1022 ->
  0 < k < 2 ^ 53 ->
  (inject_Z (Z.pos a) <= inject_Z k * pow2 ex * inject_Z (Z.pos d))%Q ->
  (value (round_pos false a d) <= inject_Z k * pow2 ex)%Q.
Proof.
  intros Hl Hk Hle.
  destruct (round_pos_value false a d Hl)
    as (n & dd & m & e & Es & Hn & Hdd & [Hr1 Hr2] & E & Hm & Ev).
  rewrite E. cbn [value]. rewrite Ev.
  destruct (ilog2_spec a d) as [Hl1 _].
  set (l := ilog2 a d) in *. set (r := rne_div n dd) in *.
  pose proof (scaled_spec (Z.pos a) (Z.pos d) (l - 52) ltac:(lia) ltac:(lia)) as Hs.
  rewrite Es in Hs. destruct Hs as (_ & _ & Hs).
  pose proof (pow2_pos (l - 52)) as HP.
  assert (Hdq : (0 < inject_Z (Z.pos d))%Q) by reflexivity.
  assert (Hddq : (0 < inject_Z dd)%Q) by (rewrite <- (Zlt_Qlt 0); exact Hdd).
  assert (Hx : (0 < inject_Z (Z.pos d) * pow2 (l - 52))%Q)
    by (apply Qmult_lt_0_compat; assumption).
  destruct (Z_le_gt_dec (l - 52) ex) as [Hex|Hex].
  - rewrite (pow2_split ex (l - 52) Hex) in *.
    assert (H2 : 0 < 2 ^ (ex - (l - 52))) by (apply Z.pow_pos_nonneg; lia).
    set (c := 2 ^ (ex - (l - 52))) in *.
    assert (HK : n <= k * c * dd).
    { rewrite Zle_Qle, !inject_Z_mult.
      apply (cross_ge _ _ _ _ _ Hx Hddq Hs).
      setoid_replace (inject_Z k * inject_Z c * (inject_Z (Z.pos d) * pow2 (l - 52)))%Q
        with (inject_Z k * (inject_Z c * pow2 (l - 52)) * inject_Z (Z.pos d))%Q by ring.
      exact Hle. }
    pose proof (rne_div_le n dd (k * c) Hdd Hn HK) as Hge. fold r in Hge.
    setoid_replace (inject_Z k * (inject_Z c * pow2 (l - 52)))%Q
      with (inject_Z (k * c) * pow2 (l - 52))%Q by (rewrite inject_Z_mult; ring).
    apply Qmult_le_compat_r; [|now apply Qlt_le_weak].
    rewrite <- Zle_Qle. exact Hge.
  - exfalso.
    assert (Hp : (pow2 ex <= pow2 (l - 53))%Q) by (apply pow2_le; lia).
    assert (E2 : (pow2 l == inject_Z (2 ^ 53) * pow2 (l - 53))%Q).
    { replace l with (53 + (l - 53)) at 1 by lia. rewrite pow2_add. reflexivity. }
    pose proof (pow2_pos ex) as HPe. pose proof (pow2_pos (l - 53)) as HP3.
    assert (Hkq : (inject_Z k < inject_Z (2 ^ 53))%Q) by (rewrite <- Zlt_Qlt; lia).
    assert (Hk0 : (0 < inject_Z k)%Q) by (rewrite <- (Zlt_Qlt 0); lia).
    assert (H : (inject_Z k * pow2 ex < pow2 l)%Q).
    { rewrite E2.
      apply Qle_lt_trans with (inject_Z k * pow2 (l - 53))%Q.
      - apply Qmult_le_l; assumption.
      - apply Qmult_lt_compat_r; assumption. }
    assert (H' : (pow2 l * inject_Z (Z.pos d)
                  < pow2 l * inject_Z (Z.pos d))%Q).
    { eapply Qle_lt_trans; [exact Hl1|].
      eapply Qle_lt_trans; [exact Hle|].
      apply Qmult_lt_compat_r; assumption. }
    exact (Qlt_irrefl _ H').
Qed.

Lemma round_pos_not_nan (s : bool) (a d : positive) :
  PyFloat.round_pos s a d <> S754_nan.
Proof.
  unfold PyFloat.round_pos.
  destruct (PyFloat.scaled _ _ _) as [n dd].
  destruct (PyFloat.rne_div n dd =? 2 ^ PyFloat.prec).
  - change (2 ^ (PyFloat.prec - 1)) with (Z.pos (2 ^ 52)).
    destruct (_ <=? _); discriminate.
  - destruct (PyFloat.rne_div n dd); try discriminate.
    destruct (_ <=? _); discriminate.
Qed.

Lemma round_abs_not_nan (s : bool) (q : Q) : PyFloat.round_abs s q <> S754_nan.
Proof.
  unfold PyFloat.round_abs. destruct (Qnum q); try discriminate;
    apply round_pos_not_nan.
Qed.

Lemma Qmake_mul_den (a : Z) (d : positive) :
  ((a # d) * inject_Z (Z.pos d) == inject_Z a)%Q.
Proof. unfold Qeq; simpl. rewrite Pos.mul_1_r. ring. Qed.

(** A positive rational as a fraction of positives. *)
Lemma Qpos_num (q : Q) : (0 < q)%Q -> exists a, Qnum q = Z.pos a.
Proof.
  destruct q as [[|a|a] d]; unfold Qlt; simpl; intros H; try lia. eauto.
Qed.

Lemma Qfrac_le (c q : Q) :
  (c <= q)%Q <-> (c * inject_Z (Z.pos (Qden q)) <= inject_Z (Qnum q))%Q.
Proof.
  destruct q as [a d]; cbn [Qnum Qden].
  rewrite <- (Qmake_mul_den a d).
  split; intros H.
  - apply Qmult_le_compat_r; [exact H|discriminate].
  - apply (Qle_cancel _ _ (inject_Z (Z.pos d))); [reflexivity|exact H].
Qed.

Lemma Qfrac_ge (c q : Q) :
  (q <= c)%Q <-> (inject_Z (Qnum q) <= c * inject_Z (Z.pos (Qden q)))%Q.
Proof.
  destruct q as [a d]; cbn [Qnum Qden].
  rewrite <- (Qmake_mul_den a d).
  split; intros H.
  - apply Qmult_le_compat_r; [exact H|discriminate].
  - apply (Qle_cancel _ _ (inject_Z (Z.pos d))); [reflexivity|exact H].
Qed.

Lemma Qfrac_lt (c q : Q) :
  (q < c)%Q -> (inject_Z (Qnum q) < c * inject_Z (Z.pos (Qden q)))%Q.
Proof.
  destruct q as [a d]; cbn [Qnum Qden].
  rewrite <- (Qmake_mul_den a d). intros H.
  apply Qmult_lt_compat_r; [reflexivity|exact H].
Qed.

Lemma round_abs_normal (s : bool) (q : Q) (J K : Z) :
  -1022 <= J -> K <= 1023 ->
  (pow2 J <= q)%Q -> (q < pow2 K)%Q ->
  exists m e,
    round_abs s q = S754_finite s m e
    /\ Z.pos m < 2 ^ 53
    /\ (pow2 J <= inject_Z (Z.pos m) * pow2 e)%Q
    /\ (inject_Z (Z.pos m) * pow2 e <= pow2 K)%Q.
Proof.
  intros HJ HK Hlo Hhi. destruct q as [a d].
  assert (Hd : (0 < inject_Z (Z.pos d))%Q) by reflexivity.
  assert (Hlo' : (pow2 J * inject_Z (Z.pos d) <= inject_Z a)%Q).
  { rewrite <- (Qmake_mul_den a d). apply Qmult_le_compat_r; [exact Hlo|].
    now apply Qlt_le_weak. }
  assert (Hhi' : (inject_Z a < pow2 K * inject_Z (Z.pos d))%Q).
  { rewrite <- (Qmake_mul_den a d). apply Qmult_lt_compat_r; assumption. }
  assert (Ha : 0 < a).
  { rewrite Zlt_Qlt. eapply Qlt_le_trans; [|exact Hlo'].
    apply Qmult_lt_0_compat; [apply pow2_pos|exact Hd]. }
  destruct a as [|a|a]; try lia.
  unfold round_abs; cbn [Qnum Qden].
  now apply round_pos_normal.
Qed.

Lemma round_abs_range (q : Q) (J K : Z) :
  -1022 <= J -> K <= 1023 -> (pow2 J <= q)%Q -> (q < pow2 K)%Q ->
  exists a, Qnum q = Z.pos a /\ -1022 <= ilog2 a (Qden q) <= 1022.
Proof.
  intros HJ HK Hlo Hhi.
  assert (H0 : (0 < q)%Q) by (eapply Qlt_le_trans; [apply pow2_pos|exact Hlo]).
  destruct (Qpos_num q H0) as [a Ha]. exists a. split; [exact Ha|].
  apply Qfrac_le in Hlo. apply Qfrac_lt in Hhi. rewrite Ha in Hlo, Hhi.
  pose proof (ilog2_range a (Qden q) J K Hlo Hhi). lia.
Qed.

Lemma round_abs_ge_repr (q : Q) (J K k ex : Z) :
  -1022 <= J -> K <= 1023 -> (pow2 J <= q)%Q -> (q < pow2 K)%Q ->
  0 < k < 2 ^ 53 ->
  (inject_Z k * pow2 ex <= q)%Q ->
  (inject_Z k * pow2 ex <= value (round_abs false q))%Q.
Proof.
  intros HJ HK Hlo Hhi Hk Hle.
  destruct (round_abs_range q J K HJ HK Hlo Hhi) as (a & Ha & Hl).
  unfold round_abs. rewrite Ha.
  apply round_pos_ge_repr; try assumption.
  apply Qfrac_le in Hle. now rewrite Ha in Hle.
Qed.

Lemma round_abs_le_repr (q : Q) (J K k ex : Z) :
  -1022 <= J -> K <= 1023 -> (pow2 J <= q)%Q -> (q < pow2 K)%Q ->
  0 < k < 2 ^ 53 ->
  (q <= inject_Z k * pow2 ex)%Q ->
  (value (round_abs false q) <= inject_Z k * pow2 ex)%Q.
Proof.
  intros HJ HK Hlo Hhi Hk Hle.
  destruct (round_abs_range q J K HJ HK Hlo Hhi) as (a & Ha & Hl).
  unfold round_abs. rewrite Ha.
  apply round_pos_le_repr; try assumption.
  apply Qfrac_ge in Hle. now rewrite Ha in Hle.
Qed.

(** Rounding a number that is a float gives that number. *)
Lemma round_abs_exact (q : Q) (J K k ex : Z) :
  -1022 <= J -> K <= 1023 -> (pow2 J <= q)%Q -> (q < pow2 K)%Q ->
  0 < k < 2 ^ 53 ->
  (q == inject_Z k * pow2 ex)%Q ->
  (value (round_abs false q) == q)%Q.
Proof.
  intros HJ HK Hlo Hhi Hk E. apply Qle_antisym.
  - rewrite E at 2. apply (round_abs_le_repr q J K); try assumption.
    rewrite E. apply Qle_refl.
  - rewrite E at 1. apply (round_abs_ge_repr q J K); try assumption.
    rewrite E. apply Qle_refl.
Qed.

(** ** Floats: the operations on positive numbers in range *)

Lemma pos_between_weaken (J K J' K' : Z) (x : float) :
  J' <= J -> K <= K' -> pos_between J K x -> pos_between J' K' x.
Proof.
  intros HJ HK. destruct x as [| | |[|] m e]; simpl; try contradiction.
  intros (Hm & H1 & H2). split; [exact Hm|]. split.
  - eapply Qle_trans; [apply pow2_le; eassumption|exact H1].
  - eapply Qle_trans; [exact H2|apply pow2_le; assumption].
Qed.

Lemma pos_between_value (J K : Z) (x : float) :
  pos_between J K x ->
  (0 < value x)%Q /\ (pow2 J <= value x)%Q /\ (value x <= pow2 K)%Q.
Proof.
  destruct x as [| | |[|] m e]; simpl; try contradiction.
  intros (_ & H1 & H2). split; [|split; assumption].
  eapply Qlt_le_trans; [apply pow2_pos|exact H1].
Qed.

Lemma pos_between_repr (J K : Z) (x : float) :
  pos_between J K x ->
  exists k ex, 0 < k < 2 ^ 53 /\ (value x == inject_Z k * pow2 ex)%Q.
Proof.
  destruct x as [| | |[|] m e]; try contradiction.
  intros (Hm & _). exists (Z.pos m), e. split; [lia|reflexivity].
Qed.

Lemma lit_1_5_between : pos_between 0 1 PyFloat.lit_1_5.
Proof. repeat split; vm_compute; discriminate. Qed.

Lemma lit_1_5_value : (PyFloat.value PyFloat.lit_1_5 == 3 # 2)%Q.
Proof. vm_compute. reflexivity. Qed.

Lemma to_int_between (J K : Z) (x : float) :
  pos_between J K x -> exists i, to_int x = Ok i.
Proof.
  destruct x as [| | |[|] m e]; simpl; try contradiction. eauto.
Qed.


Lemma gt_pos (J1 K1 J2 K2 : Z) (x y : float) :
  pos_between J1 K1 x -> pos_between J2 K2 y ->
  (gt x y = true <-> (value y < value x)%Q).
Proof.
  intros Hx Hy.
  destruct x as [| | |[|] mx ex]; try contradiction.
  destruct y as [| | |[|] my ey]; try contradiction.
  unfold gt. rewrite Qgt_alt.
  destruct (value _ ?= value _)%Q; split; congruence.
Qed.

Lemma frac_range (a b : positive) (K : Z) :
  0 <= K -> Z.pos a < 2 ^ K -> Z.pos b < 2 ^ K ->
  (pow2 (- K) <= Z.pos a # b)%Q /\ (Z.pos a # b < pow2 K)%Q.
Proof.
  intros HK Ha Hb.
  assert (Hd : (0 < inject_Z (Z.pos b))%Q) by reflexivity.
  assert (HK1 : (pow2 (- K) * pow2 K == 1)%Q).
  { rewrite <- pow2_add. replace (- K + K) with 0 by lia. reflexivity. }
  assert (HbK : (inject_Z (Z.pos b) <= pow2 K)%Q).
  { rewrite pow2_of_nonneg by lia. rewrite <- Zle_Qle. lia. }
  assert (HaK : (inject_Z (Z.pos a) < pow2 K)%Q).
  { rewrite pow2_of_nonneg by lia. rewrite <- Zlt_Qlt. lia. }
  assert (Ha1 : (1 <= inject_Z (Z.pos a))%Q).
  { change 1%Q with (inject_Z 1). rewrite <- Zle_Qle. lia. }
  assert (Hb1 : (1 <= inject_Z (Z.pos b))%Q).
  { change 1%Q with (inject_Z 1). rewrite <- Zle_Qle. lia. }
  pose proof (pow2_pos K) as HPK. pose proof (pow2_pos (- K)) as HPK'.
  split.
  - apply (Qle_cancel _ _ _ Hd). rewrite Qmake_mul_den.
    eapply Qle_trans; [|exact Ha1]. rewrite <- HK1.
    apply Qmult_le_l; assumption.
  - apply (Qlt_cancel _ _ _ Hd). rewrite Qmake_mul_den.
    eapply Qlt_le_trans; [exact HaK|].
    rewrite <- (Qmult_1_r (pow2 K)) at 1. apply Qmult_le_l; assumption.
Qed.

Lemma int_truediv_round (a b : positive) (x : float) :
  int_truediv (Z.pos a) (Z.pos b) = Ok x -> x = round_abs false (Z.pos a # b).
Proof.
  unfold int_truediv, round. cbn [Qnum].
  destruct (round_abs false (Z.pos a # b)); intros H; congruence.
Qed.

(** [a / b] for positive [a] and [b] below [2^K]. *)
Lemma int_truediv_between (a b K : Z) :
  0 <= K <= 1022 -> 1 <= a < 2 ^ K -> 1 <= b < 2 ^ K ->
  exists x, int_truediv a b = Ok x /\ pos_between (- K) K x.
Proof.
  intros HK Ha Hb.
  destruct b as [|d|d]; try lia. destruct a as [|p|p]; try lia.
  destruct (frac_range p d K) as [Hlo Hhi]; try lia.
  unfold int_truediv, round. cbn [Qnum].
  destruct (round_abs_normal false (Z.pos p # d) (- K) K)
    as (m & e & E & Hm & H1 & H2); try lia; try assumption.
  rewrite E. exists (S754_finite false m e). split; [reflexivity|].
  repeat split; assumption.
Qed.

(** [float(n)] for a positive [n] below [2^K]. *)
Lemma of_int_between (n K : Z) :
  0 <= K <= 1022 -> 1 <= n < 2 ^ K ->
  exists x, of_int n = Ok x /\ pos_between 0 K x.
Proof.
  intros HK Hn. unfold of_int, round. cbn [Qnum inject_Z].
  destruct n as [|p|p]; try lia.
  destruct (round_abs_normal false (inject_Z (Z.pos p)) 0 K) as (m & e & E & Hm & H1 & H2);
    try lia.
  - change (pow2 0) with (inject_Z 1). rewrite <- Zle_Qle. lia.
  - rewrite pow2_of_nonneg by lia. rewrite <- Zlt_Qlt. lia.
  - rewrite E. exists (S754_finite false m e). split; [reflexivity|].
    repeat split; assumption.
Qed.

(** [float(n)] is exact for a positive [n] below [2^K], [K <= 53]. *)
Lemma of_int_exact (n K : Z) :
  0 <= K <= 53 -> 1 <= n < 2 ^ K ->
  exists x,
    of_int n = Ok x /\ pos_between 0 K x /\ (value x == inject_Z n)%Q.
Proof.
  intros HK Hn.
  destruct (of_int_between n K ltac:(lia) Hn) as (x & E & Hx).
  exists x. split; [exact E|]. split; [exact Hx|].
  unfold of_int, round in E. cbn [Qnum inject_Z] in E.
  destruct n as [|p|p]; try lia.
  assert (Hlo : (pow2 0 <= inject_Z (Z.pos p))%Q).
  { change (pow2 0) with (inject_Z 1). rewrite <- Zle_Qle. lia. }
  assert (Hhi : (inject_Z (Z.pos p) < pow2 K)%Q).
  { rewrite pow2_of_nonneg by lia. rewrite <- Zlt_Qlt. lia. }
  assert (Hp : Z.pos p < 2 ^ 53).
  { eapply Z.lt_le_trans; [apply Hn|]. apply Z.pow_le_mono_r; lia. }
  pose proof (round_abs_exact (inject_Z (Z.pos p)) 0 K (Z.pos p) 0
                ltac:(lia) ltac:(lia) Hlo Hhi ltac:(lia)
                ltac:(symmetry; apply pow2_0_r)) as Hv.
  destruct (round_abs false (inject_Z (Z.pos p))); try discriminate;
    injection E as <-; exact Hv.
Qed.

Lemma mul_range (J1 K1 J2 K2 : Z) (x y : float) :
  pos_between J1 K1 x -> pos_between J2 K2 y ->
  mul x y = round_abs false (value x * value y)
  /\ (pow2 (J1 + J2) <= value x * value y)%Q
  /\ (value x * value y < pow2 (K1 + K2 + 1))%Q.
Proof.
  intros Hx Hy.
  pose proof (pos_between_value _ _ _ Hx) as (Hx0 & Hx1 & Hx2).
  pose proof (pos_between_value _ _ _ Hy) as (Hy0 & Hy1 & Hy2).
  destruct x as [| | |[|] mx ex]; try contradiction.
  destruct y as [| | |[|] my ey]; try contradiction.
  split; [reflexivity|].
  set (vx := value (S754_finite false mx ex)) in *.
  set (vy := value (S754_finite false my ey)) in *.
  pose proof (pow2_pos J1) as HP1. pose proof (pow2_pos J2) as HP2.
  rewrite !pow2_add. change (pow2 1) with 2%Q. split; nra.
Qed.

(** [x * y] on positive floats in range. *)
Lemma mul_between (J1 K1 J2 K2 : Z) (x y : float) :
  pos_between J1 K1 x -> pos_between J2 K2 y ->
  -1022 <= J1 + J2 -> K1 + K2 + 1 <= 1023 ->
  pos_between (J1 + J2) (K1 + K2 + 1) (mul x y).
Proof.
  intros Hx Hy HJ HK.
  destruct (mul_range J1 K1 J2 K2 x y Hx Hy) as (E & Hlo & Hhi). rewrite E.
  destruct (round_abs_normal false _ _ _ HJ HK Hlo Hhi)
    as (m & e & E' & Hm & H1 & H2).
  rewrite E'. repeat split; assumption.
Qed.

Lemma div_range (J1 K1 J2 K2 : Z) (x y : float) :
  pos_between J1 K1 x -> pos_between J2 K2 y ->
  div x y = Ok (round_abs false (value x / value y))
  /\ (pow2 (J1 - K2) <= value x / value y)%Q
  /\ (value x / value y < pow2 (K1 - J2 + 1))%Q.
Proof.
  intros Hx Hy.
  pose proof (pos_between_value _ _ _ Hx) as (Hx0 & Hx1 & Hx2).
  pose proof (pos_between_value _ _ _ Hy) as (Hy0 & Hy1 & Hy2).
  destruct x as [| | |[|] mx ex]; try contradiction.
  destruct y as [| | |[|] my ey]; try contradiction.
  split; [reflexivity|].
  set (vx := value (S754_finite false mx ex)) in *.
  set (vy := value (S754_finite false my ey)) in *.
  assert (Hne : ~ (vy == 0)%Q) by (intros H; rewrite H in Hy0; discriminate).
  assert (Hq : (vx / vy * vy == vx)%Q) by (field; exact Hne).
  assert (E1 : (pow2 (J1 - K2) * pow2 K2 == pow2 J1)%Q).
  { rewrite <- pow2_add. replace (J1 - K2 + K2) with J1 by lia. reflexivity. }
  assert (E2 : (pow2 (K1 - J2 + 1) * pow2 J2 == 2 * pow2 K1)%Q).
  { rewrite <- pow2_add. replace (K1 - J2 + 1 + J2) with (K1 + 1) by lia.
    rewrite pow2_add. change (pow2 1) with 2%Q. ring. }
  pose proof (pow2_pos (J1 - K2)) as HPa. pose proof (pow2_pos (K1 - J2 + 1)) as HPb.
  pose proof (pow2_pos K1) as HPc.
  split.
  - apply (Qle_cancel _ _ vy Hy0). rewrite Hq.
    eapply Qle_trans; [|exact Hx1]. rewrite <- E1.
    apply Qmult_le_l; assumption.
  - apply (Qlt_cancel _ _ vy Hy0). rewrite Hq.
    apply Qle_lt_trans with (pow2 K1); [exact Hx2|].
    apply Qlt_le_trans with (2 * pow2 K1)%Q; [lra|].
    rewrite <- E2. apply Qmult_le_l; assumption.
Qed.

(** [x / y] on positive floats in range. *)
Lemma div_between (J1 K1 J2 K2 : Z) (x y : float) :
  pos_between J1 K1 x -> pos_between J2 K2 y ->
  -1022 <= J1 - K2 -> K1 - J2 + 1 <= 1023 ->
  exists z, div x y = Ok z /\ pos_between (J1 - K2) (K1 - J2 + 1) z.
Proof.
  intros Hx Hy HJ HK.
  destruct (div_range J1 K1 J2 K2 x y Hx Hy) as (E & Hlo & Hhi). rewrite E.
  destruct (round_abs_normal false _ _ _ HJ HK Hlo Hhi)
    as (m & e & E' & Hm & H1 & H2).
  exists (S754_finite false m e). rewrite E'. split; [reflexivity|].
  repeat split; assumption.
Qed.

(** A float above the rounded quotient [a / b] is at least [a / b]. *)
Lemma above_rounded_quotient (a b : positive) (cr tr : float) (J K : Z) :
  pos_between J K cr ->
  Z.pos a < 2 ^ 31 -> Z.pos b < 2 ^ 31 ->
  int_truediv (Z.pos a) (Z.pos b) = Ok tr ->
  (value tr < value cr)%Q ->
  (Z.pos a # b <= value cr)%Q.
Proof.
  intros Hcr Ha Hb Etr Hgt.
  destruct (Qlt_le_dec (value cr) (Z.pos a # b)) as [Hlt|Hle]; [|exact Hle].
  exfalso.
  destruct (pos_between_repr _ _ _ Hcr) as (k & ex & Hk & Ek).
  destruct (frac_range a b 31 ltac:(lia) Ha Hb) as [Hlo Hhi].
  pose proof (round_abs_ge_repr (Z.pos a # b) (-31) 31 k ex
                ltac:(lia) ltac:(lia) Hlo Hhi Hk) as H.
  rewrite <- Ek in H. specialize (H (Qlt_le_weak _ _ Hlt)).
  rewrite <- (int_truediv_round a b tr Etr) in H.
  exact (Qlt_not_le _ _ Hgt H).
Qed.


End FloatFacts.

(** ** Score colour *)

Lemma f_9_5_in_range : score_in_range f_9_5.
Proof. repeat split; vm_compute; congruence. Qed.

(** C2. For a score in [[0, 10]] the colour is chosen by inclusive lower
    bounds tried in descending order: at least 8 is green (Good), else at
    least 6 is yellow (Okay), else at least 4 is orange (Poor), else red
    (Bad); the scores 8, 6 and 4 themselves fall in the higher bucket and
    7.999 is still Okay. *)
Theorem get_score_color_buckets (s : PyFloat.float) :
  score_in_range s ->
  ((8 <= PyFloat.value s)%Q -> _get_score_color s = Green)
  /\ ((6 <= PyFloat.value s)%Q -> (PyFloat.value s < 8)%Q ->
      _get_score_color s = Yellow)
  /\ ((4 <= PyFloat.value s)%Q -> (PyFloat.value s < 6)%Q ->
      _get_score_color s = Orange)
  /\ ((PyFloat.value s < 4)%Q -> _get_score_color s = Red)
  /\ _get_score_color f_8 = Green
  /\ _get_score_color f_6 = Yellow
  /\ _get_score_color f_4 = Orange
  /\ _get_score_color f_7_999 = Yellow.
Proof.
  intros (Hr & _ & _).
  assert (Hge : forall n, PyFloat.ge_int s n = true <-> (inject_Z n <= PyFloat.value s)%Q)
    by (intros n; now apply ge_int_real).
  assert (Hlt : forall n, (PyFloat.value s < inject_Z n)%Q -> PyFloat.ge_int s n = false).
  { intros n Hn. destruct (PyFloat.ge_int s n) eqn:E; [|reflexivity].
    apply Hge in E. exfalso. exact (Qlt_not_le _ _ Hn E). }
  unfold _get_score_color.
  repeat split; try reflexivity.
  - intros H. apply (Hge 8) in H. now rewrite H.
  - intros H6 H8. apply (Hge 6) in H6. rewrite (Hlt 8 H8), H6. reflexivity.
  - intros H4 H6. apply (Hge 4) in H4.
    rewrite (Hlt 8), (Hlt 6 H6), H4; [reflexivity|].
    eapply Qlt_trans; [exact H6|reflexivity].
  - intros H4.
    rewrite (Hlt 8), (Hlt 6), (Hlt 4 H4); [reflexivity| |];
      (eapply Qlt_trans; [exact H4|reflexivity]).
Qed.

Lemma get_score_color_buckets_witness :
  score_in_range f_9_5 /\ _get_score_color f_9_5 = Green.
Proof.
  split; [exact f_9_5_in_range|].
  destruct (get_score_color_buckets f_9_5 f_9_5_in_range) as [H _].
  apply H. vm_compute; congruence.
Defined.

(** ** Score label *)

Lemma format_score_ok (s : PyFloat.float) :
  score_in_range s -> exists label, _format_score s = Ok label.
Proof.
  intros (Hr & _). destruct (to_int_real s Hr) as [i Hi].
  unfold _format_score. rewrite Hi. destruct (PyFloat.eq_int s i); eauto.
Qed.

(** C3. For a score in [[0, 10]]: when its value is an exact integer [n] the
    label is ["{n}/10"] with [n = int(score)]; otherwise the label is the
    score printed with exactly one fractional digit (the nearest tenth [t/10],
    [0 <= t <= 100]) followed by ["/10"]. So 9.5 gives ["9.5/10"], 10 gives
    ["10/10"] and 3.99 gives ["4.0/10"]. *)
Theorem format_score_label (s : PyFloat.float) :
  score_in_range s ->
  (is_integer_value s ->
     exists n : Z,
       PyFloat.to_int s = Ok n
       /\ (PyFloat.value s == inject_Z n)%Q
       /\ _format_score s = Ok (PyFloat.str_of_int n ++ lit "/10"))
  /\ (~ is_integer_value s ->
      _format_score s = Ok (PyFloat.format_1f s ++ lit "/10")
      /\ exists t : Z,
           0 <= t <= 100
           /\ (inject_Z (2 * t) - 1 <= 20 * PyFloat.value s)%Q
           /\ (20 * PyFloat.value s <= inject_Z (2 * t) + 1)%Q
           /\ PyFloat.format_1f s =
                PyFloat.str_of_int (t / 10) ++ lit "." ++ PyFloat.str_of_int (t mod 10)
           /\ length (PyFloat.str_of_int (t mod 10)) = 1%nat)
  /\ _format_score f_9_5 = Ok (lit "9.5/10")
  /\ _format_score f_10 = Ok (lit "10/10")
  /\ _format_score f_3_99 = Ok (lit "4.0/10").
Proof.
  intros Hs. pose proof Hs as (Hr & Hlo & Hhi).
  destruct (to_int_real s Hr) as [i Hi].
  pose proof (eq_int_to_int s i Hr Hi) as Heq.
  split; [|split; [|repeat split; reflexivity]].
  - intros Hint. exists i. apply Heq in Hint.
    split; [exact Hi|]. split; [now apply eq_int_real|].
    unfold _format_score. now rewrite Hi, Hint.
  - intros Hnint.
    assert (Hne : PyFloat.eq_int s i = false).
    { destruct (PyFloat.eq_int s i); [|reflexivity].
      exfalso. apply Hnint. now apply Heq. }
    split; [unfold _format_score; now rewrite Hi, Hne|].
    destruct (in_range_cases s Hs) as [[z ->]|(m & e & ->)].
    + exfalso. apply Hnint. exists 0. reflexivity.
    + destruct (format_1f_spec m e) as (t & H0 & H1 & H2 & H3 & H4).
      exists t. repeat split; try assumption.
      assert (H : (inject_Z (2 * t) - 1 <= 200)%Q).
      { eapply Qle_trans; [exact H1|].
        setoid_replace 200%Q with (20 * 10)%Q by reflexivity.
        apply Qmult_le_l; [reflexivity|exact Hhi]. }
      setoid_replace (inject_Z (2 * t) - 1)%Q with (inject_Z (2 * t - 1)) in H
        by (unfold Zminus; rewrite inject_Z_plus, inject_Z_opp; reflexivity).
      change 200%Q with (inject_Z 200) in H. rewrite <- Zle_Qle in H. lia.
Qed.

Lemma format_score_label_witness :
  score_in_range f_3_99
  /\ _format_score f_3_99 = Ok (PyFloat.format_1f f_3_99 ++ lit "/10").
Proof.
  assert (Hs : score_in_range f_3_99) by (repeat split; vm_compute; congruence).
  split; [exact Hs|].
  destruct (format_score_label f_3_99 Hs) as (_ & H & _).
  apply H. intros [n Hn].
  unfold Qeq in Hn; cbn in Hn.
  assert (Hp : Z.pos (2 ^ 51) = 2251799813685248) by (vm_compute; reflexivity).
  lia.
Defined.

(** ** Cover normalizer *)

Lemma image_new_ok (width height : Z) :
  0 <= width -> 0 <= height -> image_new width height = Ok tt.
Proof.
  intros Hw Hh. unfold image_new.
  apply Z.ltb_ge in Hw, Hh. now rewrite Hw, Hh.
Qed.

Lemma box_error_ok (x0 y0 x1 y1 : Z) :
  x0 <= x1 -> y0 <= y1 -> box_error x0 y0 x1 y1 = None.
Proof.
  intros Hx Hy. unfold box_error.
  apply Z.ltb_ge in Hx, Hy. now rewrite Hx, Hy.
Qed.

Lemma rounded_rectangle_error_ok (x0 y0 x1 y1 radius : Z) :
  x0 <= x1 -> y0 <= y1 -> 0 <= radius ->
  rounded_rectangle_error x0 y0 x1 y1 radius = None.
Proof.
  intros Hx Hy Hr. unfold rounded_rectangle_error.
  rewrite box_error_ok by assumption.
  apply Z.ltb_ge in Hr. now rewrite Hr.
Qed.

(** The placeholder and the mask of the cover have the radius 15: only the
    corners are checked. *)
Lemma rounded_rectangle_error_15 (x0 y0 x1 y1 : Z) :
  rounded_rectangle_error x0 y0 x1 y1 15 = box_error x0 y0 x1 y1.
Proof.
  unfold rounded_rectangle_error. now destruct (box_error x0 y0 x1 y1).
Qed.








(** When the two ratios are equal and the division rounds down, the resized
    cover is one pixel short of the target and the crop box starts at -1. *)
Example create_cover_truncated_height :
  _create_cover_with_rounded_corners (Decoded 0 18 14) 9 7 15
  = Ok (RoundedTile 9 7 (Cropped (Resized (Decoded 0 18 14) 9 6) 0 (-1) 9 6) 15).
Proof. vm_compute. reflexivity. Qed.

(** With a negative radius the corners of the mask are refused, and no tile
    is returned. *)
Example create_cover_negative_radius :
  _create_cover_with_rounded_corners (Decoded 0 600 900) 300 450 (-1)
  = Raise (ValueError (lit "x1 must be greater than or equal to x0")).
Proof. vm_compute. reflexivity. Qed.

(** For a width PIL can hold, [int(cover_width * 1.5)] is computed exactly. *)
Lemma cover_height_exact (style : CardStyle) :
  0 <= cover_width style < 2 ^ 31 ->
  cover_height_of style = Ok (3 * cover_width style / 2).
Proof.
  intros [H1 H2]. unfold cover_height_of.
  destruct (Z.eq_dec (cover_width style) 0) as [E0|E0]; [now rewrite E0|].
  assert (H1' : 0 < cover_width style) by lia. clear H1 E0. rename H1' into H1.
  unfold PyFloat.int_mul, bind.
  set (cw := cover_width style) in *.
  destruct (of_int_exact cw 31) as (f & Ef & Hf & Vf); try lia.
  rewrite Ef.
  destruct (mul_range 0 31 0 1 f PyFloat.lit_1_5 Hf lit_1_5_between)
    as (Em & Hlo & Hhi).
  pose proof (mul_between 0 31 0 1 f PyFloat.lit_1_5 Hf lit_1_5_between
                ltac:(lia) ltac:(lia)) as Hm.
  assert (Eq : (PyFloat.value f * PyFloat.value PyFloat.lit_1_5
                == inject_Z (3 * cw) * PyFloat.pow2 (-1))%Q).
  { rewrite Vf, lit_1_5_value, inject_Z_mult.
    change (PyFloat.pow2 (-1)) with (1 # 2)%Q.
    change (inject_Z 3) with 3%Q. field. }
  pose proof (round_abs_exact _ (0 + 0) (31 + 1 + 1) (3 * cw) (-1)
                ltac:(lia) ltac:(lia) Hlo Hhi ltac:(lia) Eq) as Hv.
  rewrite <- Em in Hv.
  destruct (PyFloat.mul f PyFloat.lit_1_5) as [| | |[|] m e]; try contradiction.
  destruct (to_int_floor m e) as (i & Ei & Hi1 & Hi2).
  rewrite Ei. f_equal.
  rewrite Hv, Eq in Hi1, Hi2.
  change (PyFloat.pow2 (-1)) with (1 # 2)%Q in Hi1, Hi2.
  assert (Hh : (inject_Z (3 * cw) * (1 # 2) * 2 == inject_Z (3 * cw))%Q) by field.
  assert (A : 2 * i <= 3 * cw).
  { rewrite Zle_Qle. rewrite <- Hh, inject_Z_mult.
    change (inject_Z 2) with 2%Q. lra. }
  assert (B : 3 * cw < 2 * (i + 1)).
  { rewrite Zlt_Qlt. rewrite <- Hh, (inject_Z_mult 2).
    change (inject_Z 2) with 2%Q. lra. }
  apply Z.div_unique with (3 * cw - 2 * i); lia.
Qed.

(** Computing the cover height can overflow, but it never raises a
    [ValueError]. *)
Lemma cover_height_no_value_error (style : CardStyle) (msg : str) :
  cover_height_of style <> Raise (ValueError msg).
Proof.
  unfold cover_height_of, PyFloat.int_mul, PyFloat.of_int, PyFloat.round, bind.
  set (q := inject_Z (cover_width style)).
  assert (H : forall s, match PyFloat.round_abs s q with
                        | S754_infinity _ => Raise OverflowError
                        | x => Ok x
                        end = Raise (ValueError msg) -> False).
  { intros s. destruct (PyFloat.round_abs s q); discriminate. }
  assert (Hm : forall x,
             x <> S754_nan ->
             PyFloat.to_int (PyFloat.mul x PyFloat.lit_1_5) <> Raise (ValueError msg)).
  { intros x Hx. destruct x as [s|s| |s m e]; try contradiction; try discriminate.
    unfold PyFloat.mul, PyFloat.lit_1_5.
    pose proof (round_abs_not_nan (xorb s false)
                  (PyFloat.value (S754_finite s m e)
                   * PyFloat.value (S754_finite false 6755399441055744 (-52)))) as Hn.
    destruct (PyFloat.round_abs _ _); try discriminate. contradiction. }
  destruct (Qnum q).
  - discriminate.
  - pose proof (round_abs_not_nan false q) as Hn.
    destruct (PyFloat.round_abs false q) eqn:E; try discriminate;
      try (apply Hm; discriminate). contradiction.
  - pose proof (round_abs_not_nan true q) as Hn.
    destruct (PyFloat.round_abs true q) eqn:E; try discriminate;
      try (apply Hm; discriminate). contradiction.
Qed.

(** ** Running the drawing code *)

Lemma put_ops_nil (card : Canvas) : put_ops card [] = card.
Proof. destruct card; unfold put_ops; simpl. now rewrite app_nil_r. Qed.

Lemma put_ops_app (card : Canvas) (a b : list DrawOp) :
  put_ops (put_ops card a) b = put_ops card (a ++ b).
Proof. unfold put_ops; simpl. now rewrite app_assoc. Qed.

Lemma draw_run (op : DrawOp) (card : Canvas) :
  shape_error op = None ->
  draw op (Some card) = (Ok tt, Some (put_ops card [op])).
Proof. intros H. unfold draw. now rewrite H. Qed.

Lemma draw_refused (op : DrawOp) (e : exception) (s : option Canvas) :
  shape_error op = Some e -> draw op s = (Raise e, s).
Proof. intros H. unfold draw. now rewrite H. Qed.

Lemma draw_ellipse_run (x y size : Z) (fill : Color) (card : Canvas) :
  0 <= size ->
  draw (Ellipse x y (x + size) (y + size) fill) (Some card)
  = (Ok tt, Some (put_ops card [Ellipse x y (x + size) (y + size) fill])).
Proof.
  intros H. apply draw_run. cbn [shape_error]. apply box_error_ok; lia.
Qed.

Lemma draw_placeholder_run (style : CardStyle) (x y w h : Z) (card : Canvas) :
  0 <= w -> 0 <= h ->
  draw_placeholder style x y w h (Some card)
  = (Ok tt, Some (put_ops card (placeholder_ops style x y w h))).
Proof.
  intros Hw Hh. unfold draw_placeholder, dbind.
  rewrite draw_run
    by (cbn [shape_error]; rewrite rounded_rectangle_error_15;
        apply box_error_ok; lia).
  rewrite draw_run by reflexivity. rewrite put_ops_app. reflexivity.
Qed.

(** The placeholder of a slot of negative width or height is refused, and
    nothing is drawn. *)
Lemma draw_placeholder_refused (style : CardStyle) (x y w h : Z) (e : exception)
    (s : option Canvas) :
  box_error x y (x + w) (y + h) = Some e ->
  draw_placeholder style x y w h s = (Raise e, s).
Proof.
  intros H. unfold draw_placeholder, dbind.
  now rewrite (draw_refused _ e s)
    by (cbn [shape_error]; rewrite rounded_rectangle_error_15; exact H).
Qed.

Lemma draw_cover_run (world : World) (style : CardStyle) (review : ReviewData)
    (x y w h : Z) (card : Canvas) :
  0 <= w -> 0 <= h ->
  draw_cover world style review x y w h (Some card)
  = (Ok tt, Some (put_ops card (cover_ops world style review x y w h))).
Proof.
  intros Hw Hh. unfold draw_cover, cover_ops.
  destruct (cover_image review) as [source|]; [|now apply draw_placeholder_run].
  destruct (cover_truthy (Some source)); [|now apply draw_placeholder_run].
  unfold try_except, dbind, lift, bind.
  destruct (ImageLoader_load world source) as [cover|e];
    [|now apply draw_placeholder_run].
  destruct (_create_cover_with_rounded_corners cover w h 15) as [tile|e];
    [|now apply draw_placeholder_run].
  rewrite draw_run by reflexivity. reflexivity.
Qed.

(** Whatever the cover block raises is a refusal of the placeholder; the
    card is then as it was. *)
Lemma draw_cover_outcome (world : World) (style : CardStyle) (review : ReviewData)
    (x y w h : Z) (card : Canvas) :
  draw_cover world style review x y w h (Some card)
  = (Ok tt, Some (put_ops card (cover_ops world style review x y w h)))
  \/ exists e,
       box_error x y (x + w) (y + h) = Some e
       /\ draw_cover world style review x y w h (Some card) = (Raise e, Some card).
Proof.
  assert (Hp : draw_placeholder style x y w h (Some card)
               = (Ok tt, Some (put_ops card (placeholder_ops style x y w h)))
               \/ exists e,
                    box_error x y (x + w) (y + h) = Some e
                    /\ draw_placeholder style x y w h (Some card)
                       = (Raise e, Some card)).
  { destruct (box_error x y (x + w) (y + h)) as [e|] eqn:E.
    - right. exists e. split; [reflexivity|]. now apply draw_placeholder_refused.
    - left. unfold draw_placeholder, dbind.
      rewrite draw_run
        by (cbn [shape_error]; rewrite rounded_rectangle_error_15; exact E).
      rewrite draw_run by reflexivity.
      rewrite put_ops_app. reflexivity. }
  unfold draw_cover, cover_ops.
  destruct (cover_image review) as [source|]; [|exact Hp].
  destruct (cover_truthy (Some source)); [|exact Hp].
  unfold try_except, dbind, lift, bind.
  destruct (ImageLoader_load world source) as [cover|e]; [|exact Hp].
  destruct (_create_cover_with_rounded_corners cover w h 15) as [tile|e];
    [|exact Hp].
  left. rewrite draw_run by reflexivity. reflexivity.
Qed.

Lemma draw_title_lines_run (style : CardStyle) (x : Z) (lines : list str) :
  forall (y : Z) (card : Canvas),
  draw_title_lines style x y lines (Some card)
  = (Ok (y + len lines * (title_font_size style + 5)),
     Some (put_ops card
             (text_column x y (title_font_size style + 5)
                (title_font style) (primary_color style) lines))).
Proof.
  induction lines as [|line rest IH]; intros y card.
  - simpl. unfold ret. rewrite put_ops_nil. f_equal. f_equal. unfold len; simpl; lia.
  - cbn [draw_title_lines text_column]. unfold dbind.
    rewrite draw_run by reflexivity. rewrite IH, put_ops_app.
    f_equal. f_equal. unfold len. cbn [length]. lia.
Qed.

Lemma draw_review_lines_run (style : CardStyle) (x n : Z) (lines : list str) :
  forall (y i : Z) (card : Canvas),
  draw_review_lines style x y n i lines (Some card)
  = (Ok tt,
     Some (put_ops card
             (text_column x y (review_font_size style + 8)
                (review_font style) (secondary_color style)
                (marked_lines n i lines)))).
Proof.
  induction lines as [|line rest IH]; intros y i card.
  - simpl. unfold ret. now rewrite put_ops_nil.
  - cbn [draw_review_lines text_column marked_lines]. unfold dbind.
    rewrite draw_run by reflexivity. rewrite IH, put_ops_app. reflexivity.
Qed.

Lemma marked_lines_unchanged (n : Z) (lines : list str) :
  forall i, (n <= max_review_lines \/ max_review_lines - 1 < i) ->
  marked_lines n i lines = lines.
Proof.
  induction lines as [|line rest IH]; intros i H; [reflexivity|].
  cbn [marked_lines]. rewrite IH by lia.
  replace ((i =? max_review_lines - 1) && (n >? max_review_lines)) with false;
    [reflexivity|].
  symmetry. apply andb_false_iff. unfold max_review_lines in *.
  destruct H; [right|left]; lia.
Qed.

Lemma with_ellipsis_drop (line : str) :
  (if len line >? 3 then drop_last3 line ++ lit "..." else lit "...")
  = with_ellipsis line.
Proof.
  unfold with_ellipsis, drop_last3. rewrite Z.gtb_ltb. reflexivity.
Qed.

Lemma marked_lines_eighth (n : Z) (line : str) (rest pre : list str) :
  forall i, i + len pre = max_review_lines - 1 -> max_review_lines < n ->
  marked_lines n i (pre ++ line :: rest) = pre ++ with_ellipsis line :: rest.
Proof.
  induction pre as [|l pre IH]; intros i Hi Hn; cbn [app marked_lines];
    pose proof (eq_refl : max_review_lines = 8) as Hmax.
  - unfold len in Hi; simpl in Hi.
    replace ((i =? max_review_lines - 1) && (n >? max_review_lines)) with true.
    + rewrite with_ellipsis_drop, marked_lines_unchanged; [reflexivity|lia].
    + symmetry. apply andb_true_iff. split; [apply Z.eqb_eq|apply Z.gtb_gt]; lia.
  - unfold len in Hi; cbn [length] in Hi.
    replace (i =? max_review_lines - 1) with false by (symmetry; apply Z.eqb_neq; lia).
    cbn [andb]. rewrite IH; [reflexivity| |assumption].
    unfold len. lia.
Qed.

Lemma firstn_eight (lines : list str) :
  8 < len lines ->
  firstn (Z.to_nat max_review_lines) lines = firstn 7 lines ++ [nth 7 lines []].
Proof.
  intros E. unfold len in E.
  do 9 (destruct lines as [|? lines]; [simpl in E; lia|]).
  reflexivity.
Qed.

Lemma marked_lines_rendered (lines : list str) :
  marked_lines (len lines) 0 (firstn (Z.to_nat max_review_lines) lines)
  = rendered_lines lines.
Proof.
  unfold rendered_lines. destruct (8 <? len lines) eqn:E.
  - apply Z.ltb_lt in E. rewrite firstn_eight by assumption.
    apply marked_lines_eighth; [|exact E].
    unfold len. rewrite firstn_length_le; [reflexivity|].
    unfold len in E. lia.
  - apply Z.ltb_ge in E. rewrite firstn_all2.
    + apply marked_lines_unchanged. left. exact E.
    + unfold len, max_review_lines in *. lia.
Qed.

Lemma draw_review_text_run (style : CardStyle) (review : ReviewData)
    (text_x text_width review_y : Z) (card : Canvas) :
  draw_review_text style review text_x text_width review_y (Some card)
  = (Ok tt,
     Some (put_ops card
             (text_column text_x review_y (review_font_size style + 8)
                (review_font style) (secondary_color style)
                (rendered_lines
                   (_wrap_text (review_text review) (review_font style) text_width))))).
Proof.
  unfold draw_review_text. rewrite draw_review_lines_run, marked_lines_rendered.
  reflexivity.
Qed.

Lemma draw_platform_branding_run (world : World) (style : CardStyle)
    (platform : Platform) (username : str) (position : Z * Z) (card : Canvas) :
  _draw_platform_branding world style platform username position (Some card)
  = (Ok tt, Some (put_ops card (badge_ops world style platform username position))).
Proof.
  destruct position as [x y].
  destruct platform; unfold _draw_platform_branding, badge_ops; cbn [branding_of].
  - unfold ret. now rewrite put_ops_nil.
  - unfold try_except, dbind. cbn [logo_path backloggd or_default].
    change (truthy (lit "assets/logos/backloggd_logo.png")) with true. cbv iota.
    destruct (logo_file world _) as [|e|logo]; unfold raise, ret;
      repeat (rewrite ?draw_ellipse_run by lia;
              rewrite ?draw_run by reflexivity; cbv beta iota zeta);
      rewrite ?put_ops_app; reflexivity.
  - unfold try_except, dbind. cbn [logo_path letterboxd or_default].
    change (truthy (lit "assets/logos/letterboxd_logo.png")) with true. cbv iota.
    destruct (logo_file world _) as [|e|logo]; unfold raise, ret;
      repeat (rewrite ?draw_ellipse_run by lia;
              rewrite ?draw_run by reflexivity; cbv beta iota zeta);
      rewrite ?put_ops_app; reflexivity.
Qed.

(** ** Validation and the whole of [generate] *)

Lemma validate_valid (r : ReviewData) : valid_review r -> validate r = Ok true.
Proof.
  intros (Ht & Hx & Hs). unfold validate.
  destruct (negb (truthy (title r)) || negb (truthy (strip (title r)))) eqn:E1.
  { exfalso. apply Ht. now apply blank_test. }
  apply range_check_spec in Hs. rewrite Hs. cbn [negb].
  destruct (negb (truthy (review_text r)) || negb (truthy (strip (review_text r)))) eqn:E2.
  { exfalso. apply Hx. now apply blank_test. }
  reflexivity.
Qed.

Lemma validate_invalid (r : ReviewData) :
  blank (title r) \/ blank (review_text r) \/ ~ score_in_range (score r) ->
  exists msg, validate r = Raise (ValueError msg).
Proof.
  intros H. unfold validate.
  destruct (negb (truthy (title r)) || negb (truthy (strip (title r)))) eqn:E1;
    [eauto|].
  destruct (PyFloat.ge_int (score r) 0 && PyFloat.le_int (score r) 10) eqn:E2;
    cbn [negb]; [|eauto].
  destruct (negb (truthy (review_text r)) || negb (truthy (strip (review_text r)))) eqn:E3;
    [eauto|].
  exfalso. destruct H as [H|[H|H]].
  - apply blank_test in H. congruence.
  - apply blank_test in H. congruence.
  - apply H. now apply range_check_spec.
Qed.

Lemma generate_invalid_run (world : World) (style : CardStyle) (r : ReviewData)
    (e : exception) :
  validate r = Raise e -> run_generate world style r = (Raise e, None).
Proof.
  intros H. unfold run_generate, generate, dbind, lift. now rewrite H.
Qed.

Lemma create_card_run (style : CardStyle) :
  0 < width style -> 0 < height style -> 0 <= corner_radius style ->
  _create_rounded_rectangle (width style, height style)
    (corner_radius style) (background_color style) None
  = (Ok tt, Some (base_card style)).
Proof.
  intros Hw Hh Hr. unfold _create_rounded_rectangle. cbn [fst snd shape_error].
  rewrite image_new_ok by lia. rewrite rounded_rectangle_error_ok by lia.
  reflexivity.
Qed.

Lemma image_new_refusal (width height : Z) (e : exception) :
  image_new width height = Raise e -> pil_refusal e.
Proof.
  unfold image_new. destruct (_ || _); [|discriminate].
  intros [= <-]. left. reflexivity.
Qed.

Lemma box_error_refusal (x0 y0 x1 y1 : Z) (e : exception) :
  box_error x0 y0 x1 y1 = Some e -> pil_refusal e.
Proof.
  unfold box_error. destruct (x1 <? x0).
  - intros [= <-]. right; left. reflexivity.
  - destruct (y1 <? y0); [|discriminate].
    intros [= <-]. right; right. reflexivity.
Qed.

Lemma rounded_rectangle_error_refusal (x0 y0 x1 y1 radius : Z) (e : exception) :
  rounded_rectangle_error x0 y0 x1 y1 radius = Some e -> pil_refusal e.
Proof.
  unfold rounded_rectangle_error.
  destruct (box_error x0 y0 x1 y1) as [e'|] eqn:Eb.
  - intros [= <-]. exact (box_error_refusal _ _ _ _ _ Eb).
  - destruct (radius <? 0); [|discriminate].
    intros [= <-]. right; left. reflexivity.
Qed.

(** The card is made, or PIL refuses its size or its radius and there is no
    card. *)
Lemma create_card_outcome (style : CardStyle) :
  _create_rounded_rectangle (width style, height style)
    (corner_radius style) (background_color style) None
  = (Ok tt, Some (base_card style))
  \/ exists e,
       pil_refusal e
       /\ _create_rounded_rectangle (width style, height style)
            (corner_radius style) (background_color style) None
          = (Raise e, None).
Proof.
  unfold _create_rounded_rectangle. cbn [fst snd shape_error].
  destruct (image_new (width style) (height style)) as [u|e] eqn:En.
  - destruct (rounded_rectangle_error 0 0 (width style - 1) (height style - 1)
                (corner_radius style)) as [e|] eqn:Eb.
    + right. exists e. split; [|reflexivity].
      exact (rounded_rectangle_error_refusal _ _ _ _ _ _ Eb).
    + left. reflexivity.
  - right. exists e. split; [|reflexivity]. exact (image_new_refusal _ _ _ En).
Qed.

Lemma draw_badge_run (world : World) (style : CardStyle) (r : ReviewData)
    (card : Canvas) :
  (if match platform r with NONE => false | _ => true end
   then _draw_platform_branding world style (platform r) (platform_username r)
          (padding style, height style - padding style - 32)
   else ret tt) (Some card)
  = (Ok tt, Some (put_ops card
       (badge_ops world style (platform r) (platform_username r)
          (padding style, height style - padding style - 32)))).
Proof.
  destruct (platform r) eqn:Ep.
  - unfold ret, badge_ops. cbn [branding_of]. now rewrite put_ops_nil.
  - apply draw_platform_branding_run.
  - apply draw_platform_branding_run.
Qed.

(** Everything [generate] does once the cover block has made the calls
    [cover_calls] on the fresh card. *)
Lemma generate_after_cover (world : World) (style : CardStyle) (r : ReviewData)
    (label : str) (cover_calls : list DrawOp) :
  _format_score (score r) = Ok label ->
  let text_x := padding style + cover_width style + padding style in
  let text_width := width style - text_x - padding style in
  let title_lines :=
    firstn 2 (_wrap_text (title r) (title_font style) text_width) in
  let title_y := padding style + len title_lines * (title_font_size style + 5) in
  let score_y := title_y + 15 in
  let review_y := score_y + score_font_size style + 20 in
  let card :=
    put_ops (base_card style)
      (cover_calls
       ++ text_column text_x (padding style) (title_font_size style + 5)
            (title_font style) (primary_color style) title_lines
       ++ [Text text_x score_y label (score_font style)
             (_get_score_color (score r)) None]
       ++ text_column text_x review_y (review_font_size style + 8)
            (review_font style) (secondary_color style)
            (rendered_lines
               (_wrap_text (review_text r) (review_font style) text_width))
       ++ badge_ops world style (platform r) (platform_username r)
            (padding style, height style - padding style - 32)) in
  (title_y <- draw_title_lines style text_x (padding style) title_lines ;;
   let score_y := title_y + 15 in
   score_text <- lift (_format_score (score r)) ;;
   let score_color := _get_score_color (score r) in
   draw (Text text_x score_y score_text (score_font style) score_color None) ;;
   let review_y := score_y + score_font_size style + 20 in
   draw_review_text style r text_x text_width review_y ;;
   (if match platform r with NONE => false | _ => true end then
      let platform_y := height style - padding style - 32 in
      _draw_platform_branding world style (platform r)
        (platform_username r) (padding style, platform_y)
    else ret tt) ;;
   the_card)%draw (Some (put_ops (base_card style) cover_calls))
  = (Ok card, Some card).
Proof.
  intros Hl text_x text_width title_lines title_y score_y review_y card.
  unfold dbind at 1. rewrite draw_title_lines_run.
  unfold dbind at 1. unfold lift at 1. rewrite Hl.
  unfold dbind at 1. rewrite draw_run by reflexivity.
  unfold dbind at 1. rewrite draw_review_text_run.
  unfold dbind at 1. cbv zeta. rewrite draw_badge_run.
  unfold the_card. rewrite !put_ops_app. reflexivity.
Qed.

Lemma generate_valid_run (world : World) (style : CardStyle) (r : ReviewData) :
  valid_review r ->
  0 < width style -> 0 < height style -> 0 <= corner_radius style ->
  0 <= cover_width style < 2 ^ 31 ->
  exists label,
    _format_score (score r) = Ok label
    /\ run_generate world style r
       = (let card := put_ops (base_card style)
                        (card_ops world style r (3 * cover_width style / 2) label) in
          (Ok card, Some card)).
Proof.
  intros Hv Hw Hh Hr Hc. pose proof (validate_valid r Hv) as Hval.
  destruct Hv as (_ & _ & Hs).
  destruct (format_score_ok (score r) Hs) as [label Hl].
  exists label. split; [exact Hl|].
  unfold run_generate, generate.
  unfold dbind at 1. unfold lift at 1. rewrite Hval.
  unfold dbind at 1. rewrite (create_card_run style Hw Hh Hr).
  cbv beta iota. unfold dbind at 1. unfold lift at 1.
  rewrite (cover_height_exact style Hc). cbv beta iota zeta.
  unfold dbind at 1.
  rewrite draw_cover_run by (try apply Z.div_pos; lia).
  rewrite (generate_after_cover world style r label _ Hl).
  unfold card_ops. reflexivity.
Qed.

(** A valid review: [generate] returns the card, or raises what PIL raised
    on the sizes of the style or what [int(cover_width * 1.5)] raised. *)
Lemma generate_valid_outcome (world : World) (style : CardStyle) (r : ReviewData) :
  valid_review r ->
  (exists card, run_generate world style r = (Ok card, Some card))
  \/ exists e s,
       run_generate world style r = (Raise e, s)
       /\ (pil_refusal e \/ cover_height_of style = Raise e).
Proof.
  intros Hv. pose proof (validate_valid r Hv) as Hval.
  destruct Hv as (_ & _ & Hs).
  destruct (format_score_ok (score r) Hs) as [label Hl].
  destruct (run_generate world style r) as [res final] eqn:Hrun.
  unfold run_generate, generate in Hrun.
  unfold dbind at 1 in Hrun. unfold lift at 1 in Hrun. rewrite Hval in Hrun.
  unfold dbind at 1 in Hrun.
  destruct (create_card_outcome style) as [Hc|(e & He & Hc)]; rewrite Hc in Hrun.
  2:{ injection Hrun as <- <-. right. exists e, None.
      split; [reflexivity|left; exact He]. }
  cbv beta iota in Hrun. unfold dbind at 1 in Hrun. unfold lift at 1 in Hrun.
  destruct (cover_height_of style) as [h|e] eqn:Eh.
  2:{ injection Hrun as <- <-. right. exists e, (Some (base_card style)).
      split; [reflexivity|right; reflexivity]. }
  cbv beta iota zeta in Hrun. unfold dbind at 1 in Hrun.
  destruct (draw_cover_outcome world style r (padding style) (padding style)
              (cover_width style) h (base_card style)) as [Hd|(e & He & Hd)];
    rewrite Hd in Hrun.
  - left. rewrite (generate_after_cover world style r label _ Hl) in Hrun.
    injection Hrun as <- <-. eexists. reflexivity.
  - injection Hrun as <- <-. right. exists e, (Some (base_card style)).
    split; [reflexivity|left]. exact (box_error_refusal _ _ _ _ _ He).
Qed.

Lemma validation_error_cases (e : exception) :
  validation_error e ->
  e = ValueError (lit "Title cannot be empty")
  \/ e = ValueError (lit "Score must be between 0 and 10")
  \/ e = ValueError (lit "Review text cannot be empty").
Proof.
  intros [r H]. unfold validate in H.
  destruct (_ || _); [injection H as <-; auto|].
  destruct (negb _); [injection H as <-; auto|].
  destruct (_ || _); [injection H as <-; auto|discriminate].
Qed.

(** What PIL says is not what [validate] says. *)
Lemma pil_refusal_not_validation (e : exception) :
  pil_refusal e -> ~ validation_error e.
Proof.
  intros Hp Hv. apply validation_error_cases in Hv.
  assert (H : forall a b : str, ValueError a = ValueError b -> hd 0%N a = hd 0%N b)
    by (intros a b [= ->]; reflexivity).
  destruct Hp as [-> | [-> | ->]]; destruct Hv as [Hv|[Hv|Hv]];
    apply H in Hv; vm_compute in Hv; discriminate.
Qed.

(** C1. A review with a blank title, a blank text or a score outside
    [[0, 10]] makes [generate] raise a [ValueError] while no card exists yet:
    nothing was created, nothing was drawn. A valid review passes
    validation, and whatever [generate] raises for it is not one of the
    errors of [validate]. *)
Theorem generate_validation (world : World) (style : CardStyle) (r : ReviewData) :
  (blank (title r) \/ blank (review_text r) \/ ~ score_in_range (score r) ->
     exists msg, run_generate world style r = (Raise (ValueError msg), None))
  /\ (valid_review r ->
        validate r = Ok true
        /\ (forall e, validation_error e ->
              fst (run_generate world style r) <> Raise e)).
Proof.
  split.
  - intros H. destruct (validate_invalid r H) as [msg Hm].
    exists msg. now apply generate_invalid_run.
  - intros Hv. split; [now apply validate_valid|].
    intros e He Hr.
    destruct (generate_valid_outcome world style r Hv)
      as [(card & Hrun)|(e' & s & Hrun & Hc)];
      rewrite Hrun in Hr; cbn [fst] in Hr; [discriminate|].
    injection Hr as ->. destruct Hc as [Hc|Hc].
    + exact (pil_refusal_not_validation e Hc He).
    + apply validation_error_cases in He.
      destruct He as [-> | [-> | ->]];
        exact (cover_height_no_value_error style _ Hc).
Qed.

Lemma sample_review_valid : valid_review sample_review.
Proof.
  split; [|split].
  - intros H. inversion H as [|c s Hc Hs]. discriminate.
  - intros H. inversion H as [|c s Hc Hs]. discriminate.
  - exact f_9_5_in_range.
Qed.

Lemma generate_validation_witness :
  (exists msg,
     run_generate bare_world default_style
       {| title := lit "  "; score := f_9_5; review_text := lit "fine";
          content_type := GAME; cover_image := None; platform := NONE;
          platform_username := [] |}
     = (Raise (ValueError msg), None))
  /\ validate sample_review = Ok true.
Proof.
  split.
  - apply (generate_validation bare_world default_style). left.
    repeat constructor.
  - apply (generate_validation bare_world default_style sample_review).
    exact sample_review_valid.
Defined.

(** ** Review text truncation *)

Lemma with_ellipsis_long (line : str) :
  3 < len line ->
  exists pre suf,
    line = pre ++ suf /\ length suf = 3%nat /\ with_ellipsis line = pre ++ lit "...".
Proof.
  intros H. exists (firstn (length line - 3) line), (skipn (length line - 3) line).
  split; [symmetry; apply firstn_skipn|]. split.
  - rewrite length_skipn. unfold len in H. lia.
  - unfold with_ellipsis. apply Z.ltb_lt in H. now rewrite H.
Qed.

Lemma with_ellipsis_short (line : str) :
  len line <= 3 -> with_ellipsis line = lit "...".
Proof.
  intros H. unfold with_ellipsis. apply Z.ltb_ge in H. now rewrite H.
Qed.

(** C6. The review block draws the rendered lines of the wrapped text, one
    under the other. When the text wraps to more than 8 lines exactly 8 are
    rendered: the first 7 unchanged, and the 8th wrapped line with its last 3
    characters replaced by ["..."] if it is longer than 3 characters, or
    ["..."] alone otherwise. When it wraps to 8 lines or fewer, all lines are
    rendered unchanged. *)
Theorem review_lines_truncated (style : CardStyle) (review : ReviewData)
    (text_x text_width review_y : Z) (card : Canvas) :
  let lines := _wrap_text (review_text review) (review_font style) text_width in
  draw_review_text style review text_x text_width review_y (Some card)
  = (Ok tt,
     Some (put_ops card
             (text_column text_x review_y (review_font_size style + 8)
                (review_font style) (secondary_color style) (rendered_lines lines))))
  /\ (8 < len lines ->
      length (rendered_lines lines) = 8%nat
      /\ firstn 7 (rendered_lines lines) = firstn 7 lines
      /\ exists line8,
           nth_error lines 7 = Some line8
           /\ nth_error (rendered_lines lines) 7 = Some (with_ellipsis line8)
           /\ (3 < len line8 ->
               exists pre suf,
                 line8 = pre ++ suf /\ length suf = 3%nat
                 /\ with_ellipsis line8 = pre ++ lit "...")
           /\ (len line8 <= 3 -> with_ellipsis line8 = lit "..."))
  /\ (len lines <= 8 -> rendered_lines lines = lines).
Proof.
  intros lines. split; [apply draw_review_text_run|]. split.
  - intros H. unfold rendered_lines.
    pose proof H as H'. apply Z.ltb_lt in H'. rewrite H'. clear H'.
    assert (H7 : length (firstn 7 lines) = 7%nat).
    { apply firstn_length_le. unfold len in H. lia. }
    split; [rewrite length_app, H7; reflexivity|].
    split.
    { rewrite firstn_app, H7, Nat.sub_diag, firstn_firstn. simpl.
      now rewrite app_nil_r. }
    exists (nth 7 lines []). split.
    { apply nth_error_nth'. unfold len in H. lia. }
    split.
    { rewrite nth_error_app2 by lia. rewrite H7. reflexivity. }
    split; [apply with_ellipsis_long|apply with_ellipsis_short].
  - intros H. unfold rendered_lines. apply Z.ltb_ge in H. now rewrite H.
Qed.

(** ** Platform badge *)

(** C7, on the code. What the badge of a known platform looks like for each
    outcome of looking up its logo: with a logo image the logo is pasted, and
    with a logo file that cannot be opened a circle of the accent colour is
    drawn, in the same 32-pixel footprint, and the label starts 42 pixels to
    the right; with no logo file nothing is drawn in the footprint and the
    label starts at the left edge, so the layout does depend on the logo
    being there. *)
Theorem platform_badge_by_logo (world : World) (style : CardStyle)
    (platform : Platform) (username : str) (x y : Z) (card : Canvas)
    (branding : PlatformBranding) (path : str) :
  branding_of platform username = Some branding ->
  logo_path branding = Some path ->
  let label x :=
    Text x (y + 16) (badge_label branding username)
      (platform_font style) (secondary_color style) (Some (lit "lm")) in
  let drawn :=
    _draw_platform_branding world style platform username (x, y) (Some card) in
  (forall logo, logo_file world path = LogoImage logo ->
     drawn = (Ok tt, Some (put_ops card
                [Paste (Resized logo 32 32) x y; label (x + 42)])))
  /\ (forall e, logo_file world path = LogoBroken e ->
        drawn = (Ok tt, Some (put_ops card
                   [Ellipse x y (x + 32) (y + 32) (accent_color branding);
                    label (x + 42)])))
  /\ (logo_file world path = LogoMissing ->
        drawn = (Ok tt, Some (put_ops card [label x]))).
Proof.
  intros Hb Hp label drawn. unfold drawn.
  rewrite draw_platform_branding_run. unfold badge_ops. rewrite Hb, Hp.
  repeat split; intros; rewrite H; reflexivity.
Qed.

Lemma platform_badge_by_logo_witness :
  _draw_platform_branding bare_world default_style BACKLOGGD (lit "tarnished")
    (40, 603) (Some (base_card default_style))
  = (Ok tt,
     Some (put_ops (base_card default_style)
             [Text 40 619 (lit "Backloggd @tarnished") fixed_pitch
                (RGB 156 163 175) (Some (lit "lm"))])).
Proof.
  apply (platform_badge_by_logo bare_world default_style BACKLOGGD
           (lit "tarnished") 40 603 (base_card default_style)
           (backloggd (lit "tarnished") None)
           (lit "assets/logos/backloggd_logo.png") eq_refl eq_refl).
  reflexivity.
Defined.

(** With the logo file missing no circle is drawn and the label is not
    shifted: the badge differs from the one drawn when the logo loads. *)
Lemma platform_badge_missing_logo_shifts :
  badge_ops bare_world default_style BACKLOGGD (lit "tarnished") (40, 603)
  = [Text 40 619 (lit "Backloggd @tarnished") fixed_pitch
       (RGB 156 163 175) (Some (lit "lm"))]
  /\ badge_ops broken_logo_world default_style BACKLOGGD (lit "tarnished") (40, 603)
     = [Ellipse 40 603 72 635 (RGB 139 92 246);
        Text 82 619 (lit "Backloggd @tarnished") fixed_pitch
          (RGB 156 163 175) (Some (lit "lm"))]
  /\ badge_ops logo_world default_style BACKLOGGD (lit "tarnished") (40, 603)
     = [Paste (Resized (Decoded 1 64 64) 32 32) 40 603;
        Text 82 619 (lit "Backloggd @tarnished") fixed_pitch
          (RGB 156 163 175) (Some (lit "lm"))].
Proof. repeat split. Qed.

(** ** Cover that cannot be loaded *)

Lemma cover_ops_load_failure (world : World) (style : CardStyle) (r : ReviewData)
    (source : CoverSource) (e : exception) (x y w h : Z) :
  cover_image r = Some source ->
  ImageLoader_load world source = Raise e ->
  cover_ops world style r x y w h = placeholder_ops style x y w h.
Proof.
  intros Hc Hl. unfold cover_ops. rewrite Hc.
  destruct (cover_truthy (Some source)); [|reflexivity].
  unfold bind. now rewrite Hl.
Qed.

(** A style whose card has no width: PIL refuses the background, and
    [generate] raises before anything is drawn. *)
Lemma generate_refused_size (world : World) (style : CardStyle) (r : ReviewData) :
  valid_review r -> width style <= 0 \/ height style <= 0 ->
  exists msg, run_generate world style r = (Raise (ValueError msg), None).
Proof.
  intros Hv Hs. pose proof (validate_valid r Hv) as Hval.
  unfold run_generate, generate.
  unfold dbind at 1. unfold lift at 1. rewrite Hval.
  unfold dbind at 1.
  destruct (create_card_outcome style) as [Hc|(e & He & Hc)].
  - exfalso. unfold _create_rounded_rectangle in Hc. cbn [fst snd shape_error] in Hc.
    unfold image_new, rounded_rectangle_error, box_error in Hc.
    destruct (width style <? 0) eqn:E1; [discriminate|].
    destruct (height style <? 0) eqn:E2; [discriminate|].
    cbn [orb] in Hc.
    destruct (width style - 1 <? 0) eqn:E3; [discriminate|].
    destruct (height style - 1 <? 0) eqn:E4; [discriminate|].
    apply Z.ltb_ge in E3, E4. lia.
  - rewrite Hc. destruct He as [-> | [-> | ->]]; eexists; reflexivity.
Qed.

(** A style whose corner radius is negative: PIL refuses the corners of the
    background, and [generate] raises before anything is drawn. *)
Lemma generate_refused_radius (world : World) (style : CardStyle) (r : ReviewData) :
  valid_review r -> corner_radius style < 0 ->
  exists msg, run_generate world style r = (Raise (ValueError msg), None).
Proof.
  intros Hv Hs. pose proof (validate_valid r Hv) as Hval.
  unfold run_generate, generate.
  unfold dbind at 1. unfold lift at 1. rewrite Hval.
  unfold dbind at 1.
  destruct (create_card_outcome style) as [Hc|(e & He & Hc)].
  - exfalso. unfold _create_rounded_rectangle in Hc. cbn [fst snd shape_error] in Hc.
    unfold rounded_rectangle_error in Hc.
    apply Z.ltb_lt in Hs. rewrite Hs in Hc.
    destruct (image_new _ _); [|discriminate].
    destruct (box_error _ _ _ _); discriminate.
  - rewrite Hc. destruct He as [-> | [-> | ->]]; eexists; reflexivity.
Qed.

(** C9, as the code has it. For a valid review whose cover reference cannot
    be loaded or decoded, and a style whose card sizes are positive and whose
    corner radius and cover width are not negative (sizes PIL can hold),
    [generate] does not
    raise: it returns the card, on which the cover slot holds the placeholder
    rectangle drawn from [(padding, padding)] and the label ["No Cover"]
    anchored by its middle at the centre of the slot of [cover_width] by
    [int(cover_width * 1.5)]; the card is the very card rendered for the
    same review without a cover. *)
Theorem generate_cover_failure_placeholder (world : World) (style : CardStyle)
    (r : ReviewData) (source : CoverSource) (e : exception) :
  valid_review r ->
  pil_size (width style) -> pil_size (height style) ->
  0 <= corner_radius style ->
  0 <= cover_width style < 2 ^ 31 ->
  cover_image r = Some source ->
  ImageLoader_load world source = Raise e ->
  exists (h : Z) (card : Canvas) (x1 y1 : Z) (rest : list DrawOp),
    cover_height_of style = Ok h
    /\ h = 3 * cover_width style / 2
    /\ run_generate world style r = (Ok card, Some card)
    /\ canvas_size card = (width style, height style)
    /\ ops card =
         ops (base_card style)
         ++ [RoundedRectangle (padding style) (padding style) x1 y1
               15 (RGBA 40 40 50 255);
             Text (padding style + cover_width style / 2) (padding style + h / 2)
               (lit "No Cover") (review_font style) (secondary_color style)
               (Some (lit "mm"))]
         ++ rest
    /\ run_generate world style (without_cover r) = (Ok card, Some card).
Proof.
  intros Hv [Hw _] [Hh _] Hr Hcw Hc Hl.
  pose proof (cover_height_exact style Hcw) as Hch.
  set (h := 3 * cover_width style / 2) in *.
  destruct (generate_valid_run world style r Hv Hw Hh Hr Hcw)
    as (label & Hlabel & Hrun).
  assert (Hv' : valid_review (without_cover r)) by exact Hv.
  destruct (generate_valid_run world style (without_cover r) Hv' Hw Hh Hr Hcw)
    as (label' & Hlabel' & Hrun').
  change (score (without_cover r)) with (score r) in Hlabel'.
  assert (label' = label) by congruence. subst label'.
  fold h in Hrun, Hrun'. cbv zeta in Hrun, Hrun'.
  assert (Hops : card_ops world style (without_cover r) h label
                 = card_ops world style r h label).
  { unfold card_ops.
    rewrite (cover_ops_load_failure world style r source e) by assumption.
    reflexivity. }
  rewrite Hops in Hrun'.
  exists h, (put_ops (base_card style) (card_ops world style r h label)).
  do 3 eexists. split; [exact Hch|]. split; [reflexivity|].
  split; [exact Hrun|]. split; [reflexivity|].
  split; [|exact Hrun'].
  unfold put_ops; cbn [ops]. f_equal. unfold card_ops.
  rewrite (cover_ops_load_failure world style r source e) by assumption.
  unfold placeholder_ops. cbn [app]. reflexivity.
Qed.

Lemma generate_cover_failure_placeholder_witness :
  exists card,
    run_generate bare_world default_style sample_review = (Ok card, Some card)
    /\ run_generate bare_world default_style (without_cover sample_review)
       = (Ok card, Some card).
Proof.
  destruct (generate_cover_failure_placeholder bare_world default_style
              sample_review (CoverStr (lit "covers/elden_ring.jpg"))
              FileNotFoundError sample_review_valid)
    as (h & card & x1 & y1 & rest & _ & _ & H1 & _ & _ & H2).
  - unfold pil_size. cbn. lia.
  - unfold pil_size. cbn. lia.
  - cbn. lia.
  - cbn. lia.
  - reflexivity.
  - reflexivity.
  - exists card. split; assumption.
Defined.

(** C9 as stated fails twice. With a card of width 0 the valid sample
    review, whose cover cannot be loaded, makes [generate] raise; and on the
    default card the placeholder of the 300 by 450 slot spans 301 by 451
    pixels, PIL including both corners of the rectangle. *)
Lemma generate_placeholder_not_exact :
  (valid_review sample_review
   /\ ImageLoader_load bare_world (CoverStr (lit "covers/elden_ring.jpg"))
      = Raise FileNotFoundError
   /\ exists msg,
        run_generate bare_world (sized_style 0 675) sample_review
        = (Raise (ValueError msg), None))
  /\ exists card placeholder,
       run_generate bare_world default_style sample_review = (Ok card, Some card)
       /\ nth_error (ops card) 1 = Some placeholder
       /\ placeholder = RoundedRectangle 40 40 340 490 15 (RGBA 40 40 50 255)
       /\ pixels_covered placeholder = Some (301, 451)
       /\ (cover_width default_style, 3 * cover_width default_style / 2)
          = (300, 450).
Proof.
  split.
  - split; [exact sample_review_valid|]. split; [reflexivity|].
    apply generate_refused_size; [exact sample_review_valid|].
    left. cbn. lia.
  - destruct (generate_valid_run bare_world default_style sample_review
                sample_review_valid) as (label & _ & Hrun);
      try (cbn; lia).
    eexists. eexists. split; [exact Hrun|].
    split; [reflexivity|]. split; [reflexivity|]. split; reflexivity.
Qed.

(** ** More on the text wrapper *)

Section WrapGroups.

Variable font : Font.
Variable max_width : Z.

Lemma wrap_loop_as_groups (words : list str) :
  forall (groups : list (list str)) (cur : list str),
  fold_left (wrap_step font max_width) words (map (join [space]) groups, cur)
  = (map (join [space]) (fst (fold_left (group_step font max_width) words (groups, cur))),
     snd (fold_left (group_step font max_width) words (groups, cur))).
Proof.
  induction words as [|w ws IH]; intros groups cur; [reflexivity|].
  cbn [fold_left]. unfold wrap_step at 2, group_step at 2 4.
  destruct (bbox_right _ <=? max_width).
  - apply IH.
  - destruct cur as [|c cur]; cbn [truthy]; [apply IH|].
    rewrite <- (IH (groups ++ [c :: cur]) [w]). now rewrite map_app.
Qed.

Lemma forced_breaks_snoc (gs : list (list str)) (g g' : list str) :
  forced_breaks font max_width (gs ++ [g]) ->
  forced_break font max_width g g' ->
  forced_breaks font max_width (gs ++ [g; g']).
Proof.
  induction gs as [|a gs IH]; intros H Hf.
  - cbn. auto.
  - cbn [app forced_breaks] in *. destruct H as [H1 H2]. split.
    + destruct gs; exact H1.
    + now apply IH.
Qed.

Lemma forced_breaks_grow (gs : list (list str)) (g : list str) (w : str) :
  g <> [] ->
  forced_breaks font max_width (gs ++ [g]) ->
  forced_breaks font max_width (gs ++ [g ++ [w]]).
Proof.
  intros Hg. induction gs as [|a gs IH]; intros H.
  - cbn. auto.
  - cbn [app forced_breaks] in *. destruct H as [H1 H2]. split.
    + destruct gs as [|b gs]; [|exact H1].
      cbn in *. destruct g; [contradiction|exact H1].
    + now apply IH.
Qed.

Lemma group_loop_forced (words : list str) :
  forall st, loop_chain font max_width st ->
  loop_chain font max_width (fold_left (group_step font max_width) words st).
Proof.
  induction words as [|w ws IH]; intros [groups cur] H; [exact H|].
  cbn [fold_left]. apply IH. unfold group_step.
  destruct (bbox_right _ <=? max_width) eqn:E.
  - unfold loop_chain in *. cbn [fst snd] in *.
    destruct cur as [|c cur].
    + subst groups. cbn. auto.
    + change ((c :: cur) ++ [w]) with (c :: (cur ++ [w])).
      change (c :: (cur ++ [w])) with ((c :: cur) ++ [w]).
      destruct ((c :: cur) ++ [w]) eqn:E'; [discriminate|]. rewrite <- E'.
      apply forced_breaks_grow; [discriminate|exact H].
  - apply Z.leb_gt in E. unfold loop_chain in *. cbn [fst snd] in *.
    destruct cur as [|c cur]; cbn [truthy].
    + subst groups. cbn. auto.
    + rewrite <- app_assoc. apply forced_breaks_snoc; [exact H|exact E].
Qed.

Lemma forced_breaks_nth (gs : list (list str)) :
  forced_breaks font max_width gs ->
  forall i g1 g2,
    nth_error gs i = Some g1 -> nth_error gs (S i) = Some g2 ->
    forced_break font max_width g1 g2.
Proof.
  induction gs as [|a gs IH]; intros H i g1 g2 H1 H2.
  - destruct i; discriminate.
  - destruct H as [Ha Hr]. destruct i as [|i].
    + cbn in H1, H2. injection H1 as <-. destruct gs; [discriminate|].
      cbn in H2. injection H2 as <-. exact Ha.
    + cbn in H1. exact (IH Hr i g1 g2 H1 H2).
Qed.

Lemma group_loop_concat (words : list str) :
  forall st,
  Forall (fun g => g <> []) (fst st) ->
  Forall (fun g => g <> []) (fst (fold_left (group_step font max_width) words st))
  /\ concat (fst (fold_left (group_step font max_width) words st))
     ++ snd (fold_left (group_step font max_width) words st)
     = concat (fst st) ++ snd st ++ words.
Proof.
  induction words as [|w ws IH]; intros [groups cur] H; cbn [fst snd] in *.
  - cbn. now rewrite app_nil_r.
  - cbn [fold_left]. unfold group_step at 2 4 6.
    destruct (bbox_right _ <=? max_width).
    + destruct (IH (groups, cur ++ [w]) H) as [H1 H2]. split; [exact H1|].
      rewrite H2. cbn [fst snd]. now rewrite <- app_assoc.
    + destruct cur as [|c cur]; cbn [truthy].
      * destruct (IH (groups, [w]) H) as [H1 H2]. split; [exact H1|].
        rewrite H2. reflexivity.
      * assert (H' : Forall (fun g : list str => g <> []) (groups ++ [c :: cur])).
        { apply Forall_app. split; [exact H|]. constructor; [discriminate|constructor]. }
        destruct (IH (groups ++ [c :: cur], [w]) H') as [H1 H2]. split; [exact H1|].
        rewrite H2. cbn [fst snd]. rewrite concat_app. cbn.
        rewrite app_nil_r, <- !app_assoc. reflexivity.
Qed.

Lemma wrap_text_as_groups (text : str) :
  _wrap_text text font max_width
  = map (join [space]) (wrap_groups text font max_width).
Proof.
  rewrite wrap_text_flushed. unfold wrap_groups.
  change (@nil str) with (map (join [space]) []) at 1.
  rewrite wrap_loop_as_groups. unfold flushed.
  destruct (snd _) as [|c cur]; cbn [truthy]; [reflexivity|].
  now rewrite map_app.
Qed.

Lemma wrap_groups_spec (text : str) :
  Forall (fun g => g <> []) (wrap_groups text font max_width)
  /\ concat (wrap_groups text font max_width) = split text
  /\ forced_breaks font max_width (wrap_groups text font max_width).
Proof.
  unfold wrap_groups.
  destruct (group_loop_concat (split text) ([], []) (Forall_nil _)) as [H1 H2].
  pose proof (group_loop_forced (split text) ([], []) eq_refl) as H3.
  unfold loop_chain in H3. cbn [fst snd app concat] in H2.
  destruct (fold_left _ _ _) as [groups cur]. cbn [fst snd] in *.
  destruct cur as [|c cur]; cbn [truthy].
  - rewrite app_nil_r in H2. subst groups.
    split; [exact H1|]. split; [exact H2|exact I].
  - split; [|split].
    + apply Forall_app. split; [exact H1|]. constructor; [discriminate|constructor].
    + rewrite concat_app. cbn. now rewrite app_nil_r.
    + exact H3.
Qed.

Lemma concat_words (groups : list (list str)) :
  Forall is_word (concat groups) -> Forall (Forall is_word) groups.
Proof.
  induction groups as [|g gs IH]; intros H; constructor;
    cbn in H; apply Forall_app in H; destruct H; auto.
Qed.

Lemma split_join_group (g : list str) :
  Forall is_word g -> split (join [space] g) = g.
Proof.
  intros H. unfold split. rewrite <- (app_nil_r (join [space] g)).
  apply split_join_words; [exact H|constructor].
Qed.

Lemma wrap_groups_words (text : str) :
  Forall (Forall is_word) (wrap_groups text font max_width).
Proof.
  apply concat_words. destruct (wrap_groups_spec text) as (_ & E & _).
  rewrite E. apply split_words.
Qed.

End WrapGroups.

(** X1. The wrapper is greedy: whenever it starts a new line, the first
    word of that line did not fit at the end of the line before it. *)
Theorem wrap_text_breaks_forced (text : str) (font : Font) (max_width : Z)
    (i : nat) (line next w : str) (ws : list str) :
  nth_error (_wrap_text text font max_width) i = Some line ->
  nth_error (_wrap_text text font max_width) (S i) = Some next ->
  split next = w :: ws ->
  max_width < bbox_right (getbbox font (line ++ [space] ++ w)).
Proof.
  rewrite wrap_text_as_groups. intros H1 H2 Hs.
  rewrite nth_error_map in H1, H2.
  destruct (nth_error _ i) as [g1|] eqn:E1; [|discriminate].
  destruct (nth_error _ (S i)) as [g2|] eqn:E2; [|discriminate].
  cbn in H1, H2. injection H1 as <-. injection H2 as <-.
  rename E1 into H1, E2 into H2.
  destruct (wrap_groups_spec font max_width text) as (Hne & _ & Hf).
  pose proof (wrap_groups_words font max_width text) as Hw.
  rewrite Forall_forall in Hne, Hw.
  pose proof (Hne g1 (nth_error_In _ _ H1)) as Hg1.
  rewrite (split_join_group g2 (Hw g2 (nth_error_In _ _ H2))) in Hs. subst g2.
  pose proof (forced_breaks_nth font max_width _ Hf i g1 (w :: ws) H1 H2) as H.
  cbn [forced_break] in H.
  rewrite join_app in H by (assumption || discriminate). exact H.
Qed.

Lemma wrap_text_breaks_forced_witness :
  40 < bbox_right (getbbox fixed_pitch (lit "ab" ++ [space] ++ lit "cd")).
Proof.
  apply (wrap_text_breaks_forced (lit "ab cd ef") fixed_pitch 40 0
           (lit "ab") (lit "cd") (lit "cd") []); reflexivity.
Defined.

(** X2. Every line of the wrapper is non-empty, has no white space at either
    end and has its words separated by single spaces; splitting the lines
    gives back the words of the text, in order, and there are no more lines
    than words. *)
Theorem wrap_text_lines_normal (text : str) (font : Font) (max_width : Z) :
  (forall line, In line (_wrap_text text font max_width) ->
     line <> [] /\ strip line = line /\ join [space] (split line) = line)
  /\ concat (map split (_wrap_text text font max_width)) = split text
  /\ (length (_wrap_text text font max_width) <= length (split text))%nat.
Proof.
  rewrite wrap_text_as_groups.
  destruct (wrap_groups_spec font max_width text) as (Hne & Hc & _).
  pose proof (wrap_groups_words font max_width text) as Hw.
  split; [|split].
  - intros line Hin. apply in_map_iff in Hin. destruct Hin as (g & <- & Hin).
    rewrite Forall_forall in Hne, Hw.
    pose proof (Hne g Hin) as Hg. pose proof (Hw g Hin) as Hgw.
    split; [|split].
    + destruct (join_words_head g Hg Hgw) as (c & x & E & _). rewrite E. discriminate.
    + destruct (collapse_single_spaced [] [] g (Forall_nil _) (Forall_nil _) Hgw)
        as [_ E].
      cbn [app] in E. now rewrite app_nil_r in E.
    + now rewrite split_join_group.
  - rewrite <- Hc. rewrite map_map. f_equal.
    clear Hne Hc. induction Hw as [|g gs Hg Hgs IH]; [reflexivity|].
    cbn [map]. now rewrite (split_join_group g Hg), IH.
  - rewrite length_map, <- Hc.
    clear Hc Hw. induction Hne as [|g gs Hg Hgs IH]; [apply Nat.le_refl|].
    cbn [concat length]. rewrite length_app.
    destruct g; [contradiction|]. cbn [length]. lia.
Qed.

(** X3. Wrapping is stable: joining the lines with spaces and wrapping the
    result again, with the same font and width, gives the same lines. *)
Theorem wrap_text_rewrap (text : str) (font : Font) (max_width : Z) :
  _wrap_text (join [space] (_wrap_text text font max_width)) font max_width
  = _wrap_text text font max_width.
Proof.
  assert (E : join [space] (_wrap_text text font max_width)
              = join [space] (split text)).
  { destruct (wrap_text_groups font max_width text) as (g & E1 & E2 & E3).
    rewrite E1, join_concat, E3 by assumption. reflexivity. }
  unfold _wrap_text at 1. rewrite E.
  rewrite (split_join_group (split text) (split_words text)).
  reflexivity.
Qed.

(** ** More on the score classifier *)

Lemma ge_int_false_real (x : PyFloat.float) (n : Z) :
  is_real x -> (PyFloat.ge_int x n = false <-> (PyFloat.value x < inject_Z n)%Q).
Proof.
  intros Hx. pose proof (ge_int_real x n Hx) as H. split.
  - intros E. apply Qnot_le_lt. intros Hle. apply H in Hle. congruence.
  - intros Hlt. destruct (PyFloat.ge_int x n); [|reflexivity].
    exfalso. apply (Qlt_not_le _ _ Hlt). now apply H.
Qed.

(** X4. The bucket never gets worse as the score grows. *)
Theorem get_score_color_monotone (s1 s2 : PyFloat.float) :
  is_real s1 -> is_real s2 ->
  (PyFloat.value s1 <= PyFloat.value s2)%Q ->
  bucket_rank (_get_score_color s1) <= bucket_rank (_get_score_color s2).
Proof.
  intros H1 H2 Hle.
  assert (Hm : forall n, PyFloat.ge_int s1 n = true -> PyFloat.ge_int s2 n = true).
  { intros n E. apply ge_int_real in E; [|exact H1]. apply ge_int_real; [exact H2|].
    eapply Qle_trans; eassumption. }
  unfold _get_score_color.
  destruct (PyFloat.ge_int s1 8) eqn:E8; [rewrite (Hm 8 E8); cbn; lia|].
  destruct (PyFloat.ge_int s1 6) eqn:E6.
  { rewrite (Hm 6 E6). destruct (PyFloat.ge_int s2 8); cbn; lia. }
  destruct (PyFloat.ge_int s1 4) eqn:E4.
  { rewrite (Hm 4 E4).
    destruct (PyFloat.ge_int s2 8); [cbn; lia|].
    destruct (PyFloat.ge_int s2 6); cbn; lia. }
  destruct (PyFloat.ge_int s2 8); [cbn; lia|].
  destruct (PyFloat.ge_int s2 6); [cbn; lia|].
  destruct (PyFloat.ge_int s2 4); cbn; lia.
Qed.

Lemma get_score_color_monotone_witness :
  bucket_rank (_get_score_color f_7_999) <= bucket_rank (_get_score_color f_8).
Proof.
  apply (get_score_color_monotone f_7_999 f_8); [exact I|exact I|].
  vm_compute. discriminate.
Defined.

(** X5. [_format_score] returns a label exactly for the floats that are
    numbers: it raises [ValueError] for a NaN and [OverflowError] for an
    infinity. *)
Theorem format_score_defined (s : PyFloat.float) :
  ((exists label, _format_score s = Ok label) <-> is_real s)
  /\ (s = S754_nan -> exists msg, _format_score s = Raise (ValueError msg))
  /\ (forall sign, s = S754_infinity sign -> _format_score s = Raise OverflowError).
Proof.
  split; [|split].
  - split.
    + intros [label H]. destruct s; cbn in *; try exact I; discriminate.
    + intros Hr. destruct (to_int_real s Hr) as [i Hi].
      unfold _format_score. rewrite Hi. destruct (PyFloat.eq_int s i); eauto.
  - intros ->. eexists. reflexivity.
  - intros sign ->. reflexivity.
Qed.

Lemma not_integer_between (x : PyFloat.float) (n : Z) :
  (inject_Z n < PyFloat.value x)%Q -> (PyFloat.value x < inject_Z (n + 1))%Q ->
  ~ is_integer_value x.
Proof.
  intros H1 H2 [k Hk]. rewrite Hk in H1, H2.
  rewrite <- Zlt_Qlt in H1, H2. lia.
Qed.

(** The label of a positive float that is not an integer, from the tenths
    nearest to it. *)
Lemma format_score_tenths (m : positive) (e : Z) (t : Z) :
  let x := S754_finite false m e in
  ~ is_integer_value x ->
  (inject_Z (2 * t) - 1 < 20 * PyFloat.value x)%Q ->
  (20 * PyFloat.value x < inject_Z (2 * t) + 1)%Q ->
  _format_score x
  = Ok (PyFloat.str_of_int (t / 10) ++ lit "." ++ PyFloat.str_of_int (t mod 10)
        ++ lit "/10").
Proof.
  intros x Hn H1 H2.
  destruct (to_int_real x I) as [i Hi].
  assert (Hne : PyFloat.eq_int x i = false).
  { destruct (PyFloat.eq_int x i) eqn:E; [|reflexivity].
    exfalso. apply Hn. now apply (eq_int_to_int x i I Hi). }
  unfold _format_score. rewrite Hi, Hne.
  destruct (format_1f_spec m e) as (t' & _ & H1' & H2' & E & _). fold x in H1', H2', E.
  assert (t' = t).
  { assert (A : (inject_Z (2 * t) - 1 < inject_Z (2 * t') + 1)%Q)
      by (eapply Qlt_le_trans; eassumption).
    assert (B : (inject_Z (2 * t') - 1 < inject_Z (2 * t) + 1)%Q)
      by (eapply Qle_lt_trans; eassumption).
    assert (A' : (inject_Z (2 * t) < inject_Z (2 * t' + 2))%Q).
    { rewrite inject_Z_plus. change (inject_Z 2) with 2%Q. lra. }
    assert (B' : (inject_Z (2 * t') < inject_Z (2 * t + 2))%Q).
    { rewrite inject_Z_plus. change (inject_Z 2) with 2%Q. lra. }
    rewrite <- Zlt_Qlt in A', B'. lia. }
  subst t'. rewrite E, <- !app_assoc. reflexivity.
Qed.

Lemma positive_real_cases (s : PyFloat.float) :
  is_real s -> (0 < PyFloat.value s)%Q -> exists m e, s = S754_finite false m e.
Proof.
  intros Hr H0. destruct s as [z| | |[|] m e]; try contradiction.
  - cbn in H0. discriminate.
  - exfalso. cbn [PyFloat.value] in H0.
    assert (H : (inject_Z (Z.neg m) * PyFloat.pow2 e < 0)%Q).
    { setoid_replace (inject_Z (Z.neg m)) with (- inject_Z (Z.pos m))%Q by reflexivity.
      pose proof (pow2_pos e).
      assert (0 < inject_Z (Z.pos m))%Q by reflexivity. nra. }
    lra.
  - eauto.
Qed.

(** X6. Just below a bucket boundary the label and the colour part ways: a
    score within 0.05 below 8 (or 6, or 4) is labelled ["8.0/10"] (["6.0/10"],
    ["4.0/10"]) and still gets the colour of the bucket below. *)
Theorem score_label_rounds_over_boundary (s : PyFloat.float) (b : Z) :
  is_real s ->
  b = 4 \/ b = 6 \/ b = 8 ->
  (inject_Z b - (1 # 20) < PyFloat.value s)%Q ->
  (PyFloat.value s < inject_Z b)%Q ->
  _format_score s = Ok (PyFloat.str_of_int b ++ lit ".0/10")
  /\ _get_score_color s
     = (if b =? 8 then Yellow else if b =? 6 then Orange else Red).
Proof.
  intros Hr Hb Hlo Hhi.
  assert (H0 : (0 < PyFloat.value s)%Q).
  { eapply Qlt_trans; [|exact Hlo].
    destruct Hb as [-> | [-> | ->]]; reflexivity. }
  destruct (positive_real_cases s Hr H0) as (m & e & ->).
  split.
  - assert (Hn : ~ is_integer_value (S754_finite false m e)).
    { apply (not_integer_between _ (b - 1)).
      - eapply Qle_lt_trans; [|exact Hlo].
        replace (b - 1) with (b + -1) by lia. rewrite inject_Z_plus.
        apply Qplus_le_r. discriminate.
      - replace (b - 1 + 1) with b by lia. exact Hhi. }
    rewrite (format_score_tenths m e (10 * b) Hn).
    + rewrite (Z.mul_comm 10 b), Z.div_mul, Z.mod_mul by lia. reflexivity.
    + rewrite !inject_Z_mult. change (inject_Z 2) with 2%Q.
      change (inject_Z 10) with 10%Q. lra.
    + rewrite !inject_Z_mult. change (inject_Z 2) with 2%Q.
      change (inject_Z 10) with 10%Q. lra.
  - unfold _get_score_color.
    assert (Hlt : forall n, (PyFloat.value (S754_finite false m e) < inject_Z n)%Q ->
                            PyFloat.ge_int (S754_finite false m e) n = false)
      by (intros n; apply ge_int_false_real; exact I).
    assert (Hge : forall n, (inject_Z n <= PyFloat.value (S754_finite false m e))%Q ->
                            PyFloat.ge_int (S754_finite false m e) n = true)
      by (intros n; apply ge_int_real; exact I).
    destruct Hb as [-> | [-> | ->]]; cbn [Z.eqb Pos.eqb].
    + rewrite (Hlt 8), (Hlt 6), (Hlt 4); [reflexivity|exact Hhi| |];
        (eapply Qlt_trans; [exact Hhi|reflexivity]).
    + rewrite (Hlt 8), (Hlt 6), (Hge 4); [reflexivity| |exact Hhi|].
      * apply Qlt_le_weak. eapply Qlt_trans; [|exact Hlo]. reflexivity.
      * eapply Qlt_trans; [exact Hhi|reflexivity].
    + rewrite (Hlt 8), (Hge 6); [reflexivity| |exact Hhi].
      apply Qlt_le_weak. eapply Qlt_trans; [|exact Hlo]. reflexivity.
Qed.

Lemma score_label_rounds_over_boundary_witness :
  _format_score f_7_999 = Ok (lit "8.0/10") /\ _get_score_color f_7_999 = Yellow.
Proof.
  apply (score_label_rounds_over_boundary f_7_999 8 I).
  - right; right; reflexivity.
  - vm_compute. reflexivity.
  - vm_compute. reflexivity.
Defined.

(** X7. A score that is a whole number of halves, [k / 2] with [0 <= k], is
    labelled exactly: ["{k/2}/10"] when [k] is even and ["{k/2}.5/10"] when it
    is odd; nothing is rounded away. *)
Theorem format_score_half_steps (s : PyFloat.float) (k : Z) :
  is_real s -> 0 <= k ->
  (2 * PyFloat.value s == inject_Z k)%Q ->
  _format_score s
  = Ok (PyFloat.str_of_int (k / 2) ++ (if Z.even k then lit "/10" else lit ".5/10")).
Proof.
  intros Hr Hk Hv.
  destruct (Z.even k) eqn:Ev.
  - apply Z.even_spec in Ev. destruct Ev as [j ->].
    assert (Hj : (PyFloat.value s == inject_Z j)%Q).
    { rewrite inject_Z_mult in Hv. change (inject_Z 2) with 2%Q in Hv. lra. }
    unfold _format_score. rewrite (to_int_integral s j Hr Hj).
    assert (E : PyFloat.eq_int s j = true) by (apply eq_int_real; assumption).
    rewrite E, (Z.mul_comm 2 j), Z.div_mul by lia. reflexivity.
  - assert (Ho : Z.odd k = true) by (rewrite <- Z.negb_even, Ev; reflexivity).
    apply Z.odd_spec in Ho. destruct Ho as [j ->].
    assert (Hj : (PyFloat.value s == inject_Z j + (1 # 2))%Q).
    { rewrite inject_Z_plus, inject_Z_mult in Hv.
      change (inject_Z 2) with 2%Q in Hv. change (inject_Z 1) with 1%Q in Hv. lra. }
    assert (H0 : (0 < PyFloat.value s)%Q).
    { rewrite Hj. assert (0 <= inject_Z j)%Q by (change 0%Q with (inject_Z 0); rewrite <- Zle_Qle; lia). lra. }
    destruct (positive_real_cases s Hr H0) as (m & e & ->).
    assert (Hn : ~ is_integer_value (S754_finite false m e)).
    { apply (not_integer_between _ j); rewrite Hj.
      - lra.
      - rewrite inject_Z_plus. change (inject_Z 1) with 1%Q. lra. }
    rewrite (format_score_tenths m e (10 * j + 5) Hn).
    + replace ((10 * j + 5) / 10) with j by (apply Z.div_unique with 5; lia).
      replace ((10 * j + 5) mod 10) with 5 by (apply Z.mod_unique with j; lia).
      replace ((2 * j + 1) / 2) with j by (apply Z.div_unique with 1; lia).
      rewrite <- ?app_assoc. reflexivity.
    + rewrite Hj. replace (2 * (10 * j + 5)) with (20 * j + 10) by lia.
      rewrite inject_Z_plus, inject_Z_mult.
      change (inject_Z 20) with 20%Q. change (inject_Z 10) with 10%Q. lra.
    + rewrite Hj. replace (2 * (10 * j + 5)) with (20 * j + 10) by lia.
      rewrite inject_Z_plus, inject_Z_mult.
      change (inject_Z 20) with 20%Q. change (inject_Z 10) with 10%Q. lra.
Qed.

Lemma format_score_half_steps_witness :
  _format_score f_9_5 = Ok (lit "9.5/10").
Proof.
  apply (format_score_half_steps f_9_5 19 I).
  - lia.
  - vm_compute. reflexivity.
Defined.

(** ** More on [generate] *)

Lemma split_from_nil (s cur : str) :
  split_from cur s = [] -> cur = [] /\ all_space s.
Proof.
  revert cur. induction s as [|c s IH]; intros cur H; simpl in H.
  - destruct cur; [split; [reflexivity|constructor]|discriminate].
  - destruct (isspace c) eqn:Ec.
    + destruct cur; [|discriminate].
      destruct (IH [] H) as [_ Hs]. split; [reflexivity|now constructor].
    + destruct (IH _ H) as [Hc _]. now destruct cur.
Qed.

Lemma split_not_blank (s : str) : ~ blank s -> split s <> [].
Proof.
  intros Hb E. apply Hb. now destruct (split_from_nil s [] E).
Qed.

Lemma wrap_text_not_blank (text : str) (font : Font) (max_width : Z) :
  ~ blank text -> _wrap_text text font max_width <> [].
Proof.
  intros Hb. destruct (wrap_text_groups font max_width text) as (g & E & _ & Hc).
  rewrite E. destruct g; [|discriminate].
  exfalso. apply (split_not_blank text Hb). now rewrite <- Hc.
Qed.

(** X8. For a valid review and a style whose card sizes are positive and
    whose corner radius and cover width are not negative (sizes PIL can
    hold), [generate]
    returns the card whatever the network, the files and the logos do: the
    card has the size of the style and its first call is the background
    rectangle. When the width or the height of the card is not positive, PIL
    refuses the background: [generate] raises a [ValueError] and there is no
    card. *)
Theorem generate_contains_failures (world : World) (style : CardStyle)
    (r : ReviewData) :
  valid_review r ->
  (pil_size (width style) -> pil_size (height style) ->
   0 <= corner_radius style ->
   0 <= cover_width style < 2 ^ 31 ->
   exists card,
     run_generate world style r = (Ok card, Some card)
     /\ canvas_size card = (width style, height style)
     /\ hd_error (ops card)
        = Some (RoundedRectangle 0 0 (width style - 1) (height style - 1)
                  (corner_radius style) (background_color style)))
  /\ (width style <= 0 \/ height style <= 0 ->
      exists msg, run_generate world style r = (Raise (ValueError msg), None)).
Proof.
  intros Hv. split.
  - intros [Hw _] [Hh _] Hr Hc.
    destruct (generate_valid_run world style r Hv Hw Hh Hr Hc)
      as (label & _ & Hrun).
    rewrite Hrun. cbv zeta. eexists. split; [reflexivity|]. split; reflexivity.
  - intros Hs. exact (generate_refused_size world style r Hv Hs).
Qed.

Lemma generate_contains_failures_witness :
  (exists card,
     run_generate broken_logo_world default_style sample_review = (Ok card, Some card)
     /\ canvas_size card = (1200, 675))
  /\ exists msg,
       run_generate broken_logo_world (sized_style 1200 0) sample_review
       = (Raise (ValueError msg), None).
Proof.
  split.
  - destruct (proj1 (generate_contains_failures broken_logo_world default_style
                       sample_review sample_review_valid))
      as (card & H1 & H2 & _); try (unfold pil_size; cbn; lia).
    exists card. split; [exact H1|exact H2].
  - apply (generate_contains_failures broken_logo_world (sized_style 1200 0)
             sample_review sample_review_valid).
    right. cbn. lia.
Defined.

(** X9. [validate] reports the first failing check only: a blank title gives
    the title message whatever the score and the text are; with a good title
    a score outside [[0, 10]] (a NaN included) gives the score message
    whatever the text is; the text message needs a good title and a good
    score. *)
Theorem validate_first_failure (r : ReviewData) :
  (blank (title r) ->
     validate r = Raise (ValueError (lit "Title cannot be empty")))
  /\ (~ blank (title r) -> ~ score_in_range (score r) ->
        validate r = Raise (ValueError (lit "Score must be between 0 and 10")))
  /\ (~ blank (title r) -> score_in_range (score r) -> blank (review_text r) ->
        validate r = Raise (ValueError (lit "Review text cannot be empty"))).
Proof.
  unfold validate. split; [|split].
  - intros Ht. apply blank_test in Ht. now rewrite Ht.
  - intros Ht Hs.
    destruct (negb (truthy (title r)) || negb (truthy (strip (title r)))) eqn:E1.
    { exfalso. apply Ht. now apply blank_test. }
    destruct (PyFloat.ge_int (score r) 0 && PyFloat.le_int (score r) 10) eqn:E2;
      [|reflexivity].
    exfalso. apply Hs. now apply range_check_spec.
  - intros Ht Hs Hx.
    destruct (negb (truthy (title r)) || negb (truthy (strip (title r)))) eqn:E1.
    { exfalso. apply Ht. now apply blank_test. }
    apply range_check_spec in Hs. rewrite Hs. cbn [negb].
    apply blank_test in Hx. now rewrite Hx.
Qed.

Lemma validate_first_failure_witness :
  validate {| title := lit " "; score := S754_nan; review_text := [];
              content_type := MOVIE; cover_image := None; platform := NONE;
              platform_username := [] |}
  = Raise (ValueError (lit "Title cannot be empty"))
  /\ validate {| title := lit "Dune"; score := S754_nan; review_text := [];
                 content_type := MOVIE; cover_image := None; platform := NONE;
                 platform_username := [] |}
     = Raise (ValueError (lit "Score must be between 0 and 10")).
Proof.
  split.
  - apply (validate_first_failure
             {| title := lit " "; score := S754_nan; review_text := [];
                content_type := MOVIE; cover_image := None; platform := NONE;
                platform_username := [] |}).
    repeat constructor.
  - apply (validate_first_failure
             {| title := lit "Dune"; score := S754_nan; review_text := [];
                content_type := MOVIE; cover_image := None; platform := NONE;
                platform_username := [] |}).
    + intros H. inversion H as [|c s Hc Hs]. discriminate.
    + intros (H & _). exact H.
Defined.

Lemma dbind_ext {A B} (m m' : Draw A) (k k' : A -> Draw B) (s : option Canvas) :
  m s = m' s -> (forall a s', k a s' = k' a s') -> dbind m k s = dbind m' k' s.
Proof.
  intros Hm Hk. unfold dbind. rewrite Hm.
  destruct (m' s) as [[a|e] s']; [apply Hk|reflexivity].
Qed.

Lemma draw_title_lines_accent (style : CardStyle) (c : Color) (lines : list str) :
  forall x y s,
    draw_title_lines (with_accent_color style c) x y lines s
    = draw_title_lines style x y lines s.
Proof.
  induction lines as [|l ls IH]; intros x y s; [reflexivity|].
  cbn [draw_title_lines]. apply dbind_ext; [reflexivity|].
  intros _ s'. apply IH.
Qed.

Lemma draw_review_lines_accent (style : CardStyle) (c : Color) (lines : list str) :
  forall x y n i s,
    draw_review_lines (with_accent_color style c) x y n i lines s
    = draw_review_lines style x y n i lines s.
Proof.
  induction lines as [|l ls IH]; intros x y n i s; [reflexivity|].
  cbn [draw_review_lines]. apply dbind_ext; [reflexivity|].
  intros _ s'. apply IH.
Qed.

(** X10. The card does not depend on the content type of the review, nor on
    the accent colour of the style: [generate] reads neither. *)
Theorem generate_ignores_content_type (world : World) (style : CardStyle)
    (r : ReviewData) (ct : ContentType) (c : Color) :
  run_generate world (with_accent_color style c) (with_content_type r ct)
  = run_generate world style r.
Proof.
  unfold run_generate, generate.
  apply dbind_ext; [reflexivity|]. intros _ s1.
  apply dbind_ext; [reflexivity|]. intros _ s2.
  apply dbind_ext; [reflexivity|]. intros h s3.
  apply dbind_ext; [reflexivity|]. intros _ s4.
  apply dbind_ext; [apply draw_title_lines_accent|]. intros y s5.
  apply dbind_ext; [reflexivity|]. intros label s6.
  apply dbind_ext; [reflexivity|]. intros _ s7.
  apply dbind_ext; [apply draw_review_lines_accent|]. intros _ s8.
  apply dbind_ext; [|reflexivity].
  destruct r as [r1 r2 r3 r4 r5 [| |] r7]; reflexivity.
Qed.





Lemma plain_texts_app (a b : list DrawOp) :
  plain_texts (a ++ b) = plain_texts a ++ plain_texts b.
Proof. apply flat_map_app. Qed.

Lemma plain_texts_column (x y step : Z) (font : Font) (fill : Color)
    (lines : list str) :
  plain_texts (text_column x y step font fill lines)
  = column_positions x y step (length lines).
Proof.
  revert y. induction lines as [|l ls IH]; intros y; [reflexivity|].
  cbn. f_equal. apply IH.
Qed.

Lemma plain_texts_cover_ops (world : World) (style : CardStyle) (r : ReviewData)
    (x y w h : Z) :
  plain_texts (cover_ops world style r x y w h) = [].
Proof.
  unfold cover_ops.
  destruct (cover_image r) as [source|]; [|reflexivity].
  destruct (cover_truthy (Some source)); [|reflexivity].
  destruct (bind _ _); reflexivity.
Qed.

Lemma plain_texts_badge_ops (world : World) (style : CardStyle)
    (platform : Platform) (username : str) (position : Z * Z) :
  plain_texts (badge_ops world style platform username position) = [].
Proof.
  unfold badge_ops. destruct position as [x y].
  destruct platform; cbn [branding_of]; [reflexivity| |];
    cbn [logo_path backloggd letterboxd];
    destruct (logo_file world _); reflexivity.
Qed.

Lemma rendered_lines_length (lines : list str) :
  length (rendered_lines lines) = Nat.min 8 (length lines).
Proof.
  unfold rendered_lines, len. destruct (8 <? Z.of_nat (length lines)) eqn:E.
  - apply Z.ltb_lt in E. rewrite length_app, length_firstn. cbn [length]. lia.
  - apply Z.ltb_ge in E. lia.
Qed.

(** X12. On a card of positive PIL sizes whose corner radius is not
    negative, the text forms one column right
    of the cover, at [x = padding + cover_width + padding]: one or two title
    lines from
    [y = padding], [title_font_size + 5] apart; the score 15 pixels under the
    place of the next title line; from [score_font_size + 20] under the
    score, one to eight review lines [review_font_size + 8] apart. No other
    text is drawn without an anchor. *)
Theorem generate_text_layout (world : World) (style : CardStyle) (r : ReviewData) :
  valid_review r ->
  pil_size (width style) -> pil_size (height style) ->
  0 <= corner_radius style ->
  0 <= cover_width style < 2 ^ 31 ->
  let text_x := padding style + cover_width style + padding style in
  let text_width := width style - text_x - padding style in
  let n := Nat.min 2 (length (_wrap_text (title r) (title_font style) text_width)) in
  let m := Nat.min 8
             (length (_wrap_text (review_text r) (review_font style) text_width)) in
  let score_y := padding style + Z.of_nat n * (title_font_size style + 5) + 15 in
  exists card,
    run_generate world style r = (Ok card, Some card)
    /\ (1 <= n <= 2)%nat /\ (1 <= m <= 8)%nat
    /\ plain_texts (ops card)
       = column_positions text_x (padding style) (title_font_size style + 5) n
         ++ [(text_x, score_y)]
         ++ column_positions text_x (score_y + score_font_size style + 20)
              (review_font_size style + 8) m.
Proof.
  intros Hv [Hcard_w _] [Hcard_h _] Hr Hw text_x text_width n m score_y.
  destruct (generate_valid_run world style r Hv Hcard_w Hcard_h Hr Hw)
    as (label & _ & Hrun).
  destruct Hv as (Ht & Hx & _).
  pose proof (wrap_text_not_blank (title r) (title_font style) text_width Ht) as Hn.
  pose proof (wrap_text_not_blank (review_text r) (review_font style) text_width Hx)
    as Hm.
  rewrite Hrun. cbv zeta. eexists. split; [reflexivity|].
  split; [|split].
  - subst n. destruct (_wrap_text (title r) _ _); [contradiction|cbn [length]; lia].
  - subst m. destruct (_wrap_text (review_text r) _ _); [contradiction|cbn [length]; lia].
  - cbn [ops put_ops base_card]. unfold card_ops.
    rewrite !plain_texts_app, plain_texts_cover_ops, plain_texts_badge_ops,
      !plain_texts_column, rendered_lines_length, length_firstn, app_nil_r.
    unfold len. rewrite length_firstn. reflexivity.
Qed.

Lemma generate_text_layout_witness :
  exists card,
    run_generate bare_world default_style sample_review = (Ok card, Some card)
    /\ plain_texts (ops card) = [(380, 40); (380, 108); (380, 200)].
Proof.
  destruct (generate_text_layout bare_world default_style sample_review
              sample_review_valid) as (card & H1 & _ & _ & H2).
  - unfold pil_size. cbn. lia.
  - unfold pil_size. cbn. lia.
  - cbn. lia.
  - cbn. lia.
  - exists card. split; [exact H1|]. rewrite H2. vm_compute. reflexivity.
Defined.

(** ** Font loading *)

Lemma load_four_ok (fw : FontWorld) (path score_path : str) (sizes : FontSizes)
    (fs s : FontSlots) :
  four_fonts fw path score_path sizes = Ok fs ->
  load_four fw path score_path sizes s = (Ok tt, fs).
Proof.
  unfold four_fonts, load_four, lbind, bind.
  destruct (truetype fw path (title_size sizes)); [|discriminate].
  destruct (truetype fw score_path (score_size sizes)); [|discriminate].
  destruct (truetype fw path (review_size sizes)); [|discriminate].
  destruct (truetype fw path (platform_size sizes)); [|discriminate].
  intros [= <-]. reflexivity.
Qed.

Lemma load_four_raise (fw : FontWorld) (path score_path : str) (sizes : FontSizes)
    (e : exception) (s : FontSlots) :
  four_fonts fw path score_path sizes = Raise e ->
  exists s', load_four fw path score_path sizes s = (Raise e, s').
Proof.
  unfold four_fonts, load_four, lbind, bind.
  destruct (truetype fw path (title_size sizes));
    [|intros [= <-]; eexists; reflexivity].
  destruct (truetype fw score_path (score_size sizes));
    [|intros [= <-]; eexists; reflexivity].
  destruct (truetype fw path (review_size sizes));
    [|intros [= <-]; eexists; reflexivity].
  destruct (truetype fw path (platform_size sizes));
    [discriminate|intros [= <-]; eexists; reflexivity].
Qed.

Lemma four_fonts_slots (fw : FontWorld) (path score_path : str) (sizes : FontSizes)
    (fs : FontSlots) :
  four_fonts fw path score_path sizes = Ok fs ->
  exists t s r p, fs = slots t s r p.
Proof.
  unfold four_fonts, bind.
  destruct (truetype fw path (title_size sizes)) as [t|]; [|discriminate].
  destruct (truetype fw score_path (score_size sizes)) as [s|]; [|discriminate].
  destruct (truetype fw path (review_size sizes)) as [r|]; [|discriminate].
  destruct (truetype fw path (platform_size sizes)) as [p|]; [|discriminate].
  intros [= <-]. eauto.
Qed.

(** What the loop over the system fonts comes to. *)
Lemma try_system_fonts_cases (fw : FontWorld) (sizes : FontSizes) (names : list str) :
  forall s,
    (exists pre name post fs,
        names = pre ++ name :: post
        /\ Forall (os_failure fw sizes) pre
        /\ four_fonts fw name name sizes = Ok fs
        /\ try_system_fonts fw sizes names s = (Ok true, fs))
    \/ (exists s',
          Forall (os_failure fw sizes) names
          /\ try_system_fonts fw sizes names s = (Ok false, s'))
    \/ (exists pre name post e s',
          names = pre ++ name :: post
          /\ Forall (os_failure fw sizes) pre
          /\ four_fonts fw name name sizes = Raise e
          /\ is_os_error e = false
          /\ try_system_fonts fw sizes names s = (Raise e, s')).
Proof.
  induction names as [|n ns IH]; intros s.
  - right; left. exists s. split; [constructor|reflexivity].
  - cbn [try_system_fonts].
    destruct (four_fonts fw n n sizes) as [fs|e] eqn:E.
    + left. exists [], n, ns, fs. rewrite (load_four_ok _ _ _ _ _ s E).
      split; [reflexivity|]. split; [constructor|]. split; [exact E|reflexivity].
    + destruct (load_four_raise _ _ _ _ _ s E) as [s' Es]. rewrite Es.
      destruct (is_os_error e) eqn:Eo.
      * assert (Hn : os_failure fw sizes n) by (exists e; auto).
        destruct (IH s') as [(pre & name & post & fs & H1 & H2 & H3 & H4)
                            |[(s'' & H1 & H2)
                             |(pre & name & post & e' & s'' & H1 & H2 & H3 & H4 & H5)]].
        -- left. exists (n :: pre), name, post, fs. rewrite H4, H1.
           split; [reflexivity|]. split; [constructor; assumption|].
           split; [exact H3|reflexivity].
        -- right; left. exists s''. split; [constructor; assumption|exact H2].
        -- right; right. exists (n :: pre), name, post, e', s''. rewrite H5, H1.
           split; [reflexivity|]. split; [constructor; assumption|].
           split; [exact H3|]. split; [exact H4|reflexivity].
      * right; right. exists [], n, ns, e, s'.
        split; [reflexivity|]. split; [constructor|].
        split; [exact E|]. split; [exact Eo|reflexivity].
Qed.

(** The names before the first one that does not fail with an [OSError]
    are determined by the list. *)
Lemma first_not_failing (fw : FontWorld) (sizes : FontSizes)
    (pre pre' post post' : list str) (name name' : str) :
  pre ++ name :: post = pre' ++ name' :: post' ->
  Forall (os_failure fw sizes) pre -> ~ os_failure fw sizes name ->
  Forall (os_failure fw sizes) pre' -> ~ os_failure fw sizes name' ->
  pre = pre' /\ name = name'.
Proof.
  revert pre'. induction pre as [|a pre IH]; intros [|a' pre'] E H1 H2 H3 H4;
    cbn in E; injection E as -> E.
  - auto.
  - inversion H3; contradiction.
  - inversion H1; contradiction.
  - inversion H1; inversion H3; subst.
    destruct (IH pre' E) as [-> ->]; auto.
Qed.

Lemma not_os_failure_ok (fw : FontWorld) (sizes : FontSizes) (name : str)
    (fs : FontSlots) :
  four_fonts fw name name sizes = Ok fs -> ~ os_failure fw sizes name.
Proof. intros E (e & E' & _). congruence. Qed.

Lemma not_os_failure_other (fw : FontWorld) (sizes : FontSizes) (name : str)
    (e : exception) :
  four_fonts fw name name sizes = Raise e -> is_os_error e = false ->
  ~ os_failure fw sizes name.
Proof. intros E He (e' & E' & He'). congruence. Qed.

(** X13. [_load_fonts] always sets all four fonts, whatever they were before,
    and never mixes sources: either all four are the default bitmap font, or
    all were loaded from the usable [font_path] (the score font from
    [bold_font_path] when given), or all were loaded from one and the same
    system font. *)
Theorem load_fonts_single_source (fw : FontWorld) (font_path bold_font_path : option str)
    (sizes : FontSizes) (s0 : FontSlots) :
  exists t s r p,
    _load_fonts fw font_path bold_font_path sizes s0 = (Ok tt, slots t s r p)
    /\ (slots t s r p = default_slots fw
        \/ (font_path_usable fw font_path = true
            /\ four_fonts fw (or_default font_path [])
                 (or_default bold_font_path (or_default font_path [])) sizes
               = Ok (slots t s r p))
        \/ (font_path_usable fw font_path = false
            /\ exists name,
                 In name system_fonts
                 /\ four_fonts fw name name sizes = Ok (slots t s r p))).
Proof.
  unfold _load_fonts.
  destruct (font_path_usable fw font_path) eqn:Eu.
  - destruct (four_fonts fw (or_default font_path [])
                (or_default bold_font_path (or_default font_path [])) sizes)
      as [fs|e] eqn:E.
    + destruct (four_fonts_slots _ _ _ _ _ E) as (t & s & r & p & ->).
      exists t, s, r, p. rewrite (load_four_ok _ _ _ _ _ s0 E). auto.
    + destruct (load_four_raise _ _ _ _ _ s0 E) as [s' ->].
      exists (load_default fw), (load_default fw), (load_default fw), (load_default fw).
      split; [reflexivity|left; reflexivity].
  - unfold lbind.
    destruct (try_system_fonts_cases fw sizes system_fonts s0)
      as [(pre & name & post & fs & H1 & H2 & H3 & H4)
         |[(s' & H1 & H2)
          |(pre & name & post & e & s' & H1 & H2 & H3 & H4 & H5)]].
    + destruct (four_fonts_slots _ _ _ _ _ H3) as (t & s & r & p & ->).
      exists t, s, r, p. rewrite H4. split; [reflexivity|].
      right; right. split; [reflexivity|]. exists name. split; [|exact H3].
      rewrite H1. apply in_or_app. right; left; reflexivity.
    + rewrite H2.
      exists (load_default fw), (load_default fw), (load_default fw), (load_default fw).
      split; [reflexivity|left; reflexivity].
    + rewrite H5.
      exists (load_default fw), (load_default fw), (load_default fw), (load_default fw).
      split; [reflexivity|left; reflexivity].
Qed.

(** X14. Without a usable [font_path], the fonts come from the first system
    font, in the order of the list, that loads at all four sizes, the ones
    before it having failed with an [OSError]. *)
Theorem load_fonts_first_system_font (fw : FontWorld)
    (font_path bold_font_path : option str) (sizes : FontSizes) (s0 : FontSlots)
    (pre post : list str) (name : str) (fs : FontSlots) :
  font_path_usable fw font_path = false ->
  system_fonts = pre ++ name :: post ->
  Forall (os_failure fw sizes) pre ->
  four_fonts fw name name sizes = Ok fs ->
  _load_fonts fw font_path bold_font_path sizes s0 = (Ok tt, fs).
Proof.
  intros Eu Hl Hpre Hn. unfold _load_fonts. rewrite Eu. unfold lbind.
  pose proof (not_os_failure_ok _ _ _ _ Hn) as Hnot.
  destruct (try_system_fonts_cases fw sizes system_fonts s0)
    as [(pre' & name' & post' & fs' & H1 & H2 & H3 & H4)
       |[(s' & H1 & H2)
        |(pre' & name' & post' & e & s' & H1 & H2 & H3 & H4 & H5)]].
  - rewrite H4. rewrite Hl in H1.
    destruct (first_not_failing fw sizes _ _ _ _ _ _ H1 Hpre Hnot H2
                (not_os_failure_ok _ _ _ _ H3)) as [-> ->].
    cbn. congruence.
  - exfalso. rewrite Hl in H1. apply Forall_app in H1. destruct H1 as [_ H1].
    inversion H1; contradiction.
  - exfalso. rewrite Hl in H1.
    destruct (first_not_failing fw sizes _ _ _ _ _ _ H1 Hpre Hnot H2
                (not_os_failure_other _ _ _ _ H3 H4)) as [-> ->].
    congruence.
Qed.

Lemma dejavu_before :
  Forall (os_failure dejavu_world default_sizes)
    [lit "arial.ttf"; lit "Arial.ttf"; lit "segoeui.ttf"; lit "Segoe UI.ttf";
     lit "Helvetica.ttf"].
Proof.
  repeat constructor; exists OSError; split; reflexivity.
Qed.

Lemma load_fonts_first_system_font_witness :
  exists f,
    _load_fonts dejavu_world None None default_sizes no_slots
    = (Ok tt, slots (f 48) (f 72) (f 24) (f 20)).
Proof.
  eexists (fun size => {| font_name := lit "DejaVuSans.ttf"; font_size := size;
                          getbbox := fun s => (0, 0, size * len s, size) |}).
  apply (load_fonts_first_system_font dejavu_world None None default_sizes no_slots
           [lit "arial.ttf"; lit "Arial.ttf"; lit "segoeui.ttf"; lit "Segoe UI.ttf";
            lit "Helvetica.ttf"]
           [lit "C:/Windows/Fonts/segoeui.ttf"; lit "C:/Windows/Fonts/arial.ttf"]
           (lit "DejaVuSans.ttf")).
  - reflexivity.
  - reflexivity.
  - exact dejavu_before.
  - reflexivity.
Defined.

(** X15. A [font_path] that exists but does not give all four fonts (the
    file is not a font, or the bold font is missing) leaves the style with
    the default bitmap font in all four places: the regular font that did
    load is discarded and the system fonts are not tried. *)
Theorem load_fonts_explicit_failure (fw : FontWorld) (p : str)
    (bold_font_path : option str) (sizes : FontSizes) (s0 : FontSlots)
    (e : exception) :
  truthy p = true -> path_exists fw p = true ->
  four_fonts fw p (or_default bold_font_path p) sizes = Raise e ->
  _load_fonts fw (Some p) bold_font_path sizes s0 = (Ok tt, default_slots fw).
Proof.
  intros Hp He E. unfold _load_fonts, font_path_usable. rewrite Hp, He.
  cbn [andb or_default]. rewrite Hp.
  destruct (load_four_raise _ _ _ _ _ s0 E) as [s' ->]. reflexivity.
Qed.

Lemma load_fonts_explicit_failure_witness :
  _load_fonts regular_only_world (Some (lit "fonts/Regular.ttf"))
    (Some (lit "fonts/Bold.ttf")) default_sizes no_slots
  = (Ok tt, default_slots regular_only_world).
Proof.
  apply (load_fonts_explicit_failure regular_only_world (lit "fonts/Regular.ttf")
           (Some (lit "fonts/Bold.ttf")) default_sizes no_slots OSError);
    reflexivity.
Defined.

(** X16. Without a usable [font_path], the style gets the default bitmap
    font in all four places when every system font fails with an [OSError],
    and also when one of them fails with any other exception: the search
    stops there, whatever the fonts later in the list would give. *)
Theorem load_fonts_default_fallback (fw : FontWorld)
    (font_path bold_font_path : option str) (sizes : FontSizes) (s0 : FontSlots) :
  font_path_usable fw font_path = false ->
  (Forall (os_failure fw sizes) system_fonts
   \/ exists pre name post e,
        system_fonts = pre ++ name :: post
        /\ Forall (os_failure fw sizes) pre
        /\ four_fonts fw name name sizes = Raise e
        /\ is_os_error e = false) ->
  _load_fonts fw font_path bold_font_path sizes s0 = (Ok tt, default_slots fw).
Proof.
  intros Eu H. unfold _load_fonts. rewrite Eu. unfold lbind.
  destruct (try_system_fonts_cases fw sizes system_fonts s0)
    as [(pre' & name' & post' & fs' & H1 & H2 & H3 & H4)
       |[(s' & H1 & H2)
        |(pre' & name' & post' & e' & s' & H1 & H2 & H3 & H4 & H5)]].
  - exfalso. pose proof (not_os_failure_ok _ _ _ _ H3) as Hnot.
    destruct H as [H|(pre & name & post & e & Hl & Hpre & Hn & He)].
    + rewrite H1 in H. apply Forall_app in H. destruct H as [_ H].
      inversion H; contradiction.
    + rewrite Hl in H1.
      destruct (first_not_failing fw sizes _ _ _ _ _ _ H1 Hpre
                  (not_os_failure_other _ _ _ _ Hn He) H2 Hnot) as [-> ->].
      congruence.
  - rewrite H2. reflexivity.
  - rewrite H5. reflexivity.
Qed.

Lemma load_fonts_default_fallback_witness :
  _load_fonts dejavu_world None None
    {| title_size := 48; score_size := 72; review_size := 24; platform_size := 0 |}
    no_slots
  = (Ok tt, default_slots dejavu_world).
Proof.
  apply load_fonts_default_fallback; [reflexivity|].
  right.
  exists [lit "arial.ttf"; lit "Arial.ttf"; lit "segoeui.ttf"; lit "Segoe UI.ttf";
          lit "Helvetica.ttf"], (lit "DejaVuSans.ttf"),
         [lit "C:/Windows/Fonts/segoeui.ttf"; lit "C:/Windows/Fonts/arial.ttf"],
         (ValueError (lit "font size must be greater than 0")).
  split; [reflexivity|]. split; [|split; reflexivity].
  repeat constructor; exists OSError; split; reflexivity.
Defined.

(** ** The colour helpers of the UI *)

Lemma channel_cases (n : Z) :
  channel n -> In n (map Z.of_nat (seq 0 256)).
Proof.
  intros [H1 H2]. apply in_map_iff. exists (Z.to_nat n).
  split; [lia|]. apply in_seq. lia.
Qed.

(** A channel is written as two characters, neither of them a [#], that
    read back as the channel. *)
Lemma format_02x_read (u : Unicode) (n : Z) :
  channel n ->
  exists c1 c2,
    format_02x n = [c1; c2] /\ c1 <> 35%N /\ int_base16 u [c1; c2] = Ok n.
Proof.
  intros Hn.
  assert (H : forallb (fun n =>
              match format_02x n with
              | [c1; c2] =>
                  negb (c1 =? 35)%N
                  && match int_base16 u [c1; c2] with
                     | Ok v => v =? n
                     | Raise _ => false
                     end
              | _ => false
              end) (map Z.of_nat (seq 0 256)) = true)
    by (vm_compute; reflexivity).
  rewrite forallb_forall in H. specialize (H n (channel_cases n Hn)).
  destruct (format_02x n) as [|c1 [|c2 [|c3 s]]]; try discriminate.
  apply andb_true_iff in H. destruct H as [H1 H2].
  exists c1, c2. split; [reflexivity|]. split.
  - intros ->. discriminate.
  - destruct (int_base16 u [c1; c2]) as [v|e]; [|discriminate].
    apply Z.eqb_eq in H2. now subst.
Qed.

(** X17. Writing a colour with [rgb_to_hex] and reading it back with
    [hex_to_rgb] gives the colour again, for channels in [[0, 255]]. *)
Theorem hex_rgb_round_trip (u : Unicode) (r g b : Z) :
  channel r -> channel g -> channel b ->
  hex_to_rgb u (rgb_to_hex (r, g, b)) = Ok (r, g, b).
Proof.
  intros Hr Hg Hb.
  destruct (format_02x_read u r Hr) as (r1 & r2 & Er & Nr & Pr).
  destruct (format_02x_read u g Hg) as (g1 & g2 & Eg & _ & Pg).
  destruct (format_02x_read u b Hb) as (b1 & b2 & Eb & _ & Pb).
  unfold rgb_to_hex, hex_to_rgb. rewrite Er, Eg, Eb.
  change (lit "#") with [35%N]. cbn [app lstrip_char].
  change (35 =? 35)%N with true. cbv iota.
  apply N.eqb_neq in Nr. rewrite Nr.
  unfold slice2. cbn [skipn firstn]. unfold bind. rewrite Pr, Pg, Pb. reflexivity.
Qed.

Lemma hex_rgb_round_trip_witness :
  hex_to_rgb ascii_only (rgb_to_hex (18, 18, 26)) = Ok (18, 18, 26).
Proof.
  apply (hex_rgb_round_trip ascii_only 18 18 26); unfold channel; lia.
Defined.

Lemma lstrip_char_repeat (ch : char) (k : nat) (c : char) (s : str) :
  c <> ch -> lstrip_char ch (repeat ch k ++ c :: s) = c :: s.
Proof.
  intros Hc. induction k as [|k IH]; cbn [repeat app lstrip_char].
  - apply N.eqb_neq in Hc. now rewrite Hc.
  - now rewrite N.eqb_refl.
Qed.

(** Two hexadecimal digits read as their value, a channel. *)
Lemma int_base16_pair (u : Unicode) (a b : char) :
  In a hex_chars -> In b hex_chars ->
  int_base16 u [a; b] = Ok (hex_pair a b)
  /\ channel (hex_pair a b) /\ a <> 35%N.
Proof.
  intros Ha Hb.
  assert (H : forallb (fun a => forallb (fun b =>
              match int_base16 u [a; b] with
              | Ok v => (v =? hex_pair a b) && (0 <=? v) && (v <=? 255)
                        && negb (a =? 35)%N
              | Raise _ => false
              end) hex_chars) hex_chars = true)
    by (vm_compute; reflexivity).
  rewrite forallb_forall in H. specialize (H a Ha).
  rewrite forallb_forall in H. specialize (H b Hb).
  destruct (int_base16 u [a; b]) as [v|e]; [|discriminate].
  rewrite !andb_true_iff in H. destruct H as [[[H1 H2] H3] H4].
  apply Z.eqb_eq in H1. apply Z.leb_le in H2, H3. subst v.
  split; [reflexivity|]. split; [split; assumption|].
  intros ->. discriminate.
Qed.

(** X18. [hex_to_rgb] reads six hexadecimal digits, in either case, as three
    channels; any number of [#] before them, and anything after them (an
    alpha channel, say), is ignored. *)
Theorem hex_to_rgb_six_digits (u : Unicode) (k : nat) (h1 h2 h3 h4 h5 h6 : char)
    (rest : str) :
  Forall (fun h => In h hex_chars) [h1; h2; h3; h4; h5; h6] ->
  hex_to_rgb u (repeat 35%N k ++ [h1; h2; h3; h4; h5; h6] ++ rest)
  = Ok (hex_pair h1 h2, hex_pair h3 h4, hex_pair h5 h6)
  /\ channel (hex_pair h1 h2) /\ channel (hex_pair h3 h4)
  /\ channel (hex_pair h5 h6).
Proof.
  intros H.
  inversion H as [|? ? H1 H']; subst. inversion H' as [|? ? H2 H'']; subst.
  inversion H'' as [|? ? H3 H3']; subst. inversion H3' as [|? ? H4 H4']; subst.
  inversion H4' as [|? ? H5 H5']; subst. inversion H5' as [|? ? H6 _]; subst.
  destruct (int_base16_pair u h1 h2 H1 H2) as (E1 & C1 & N1).
  destruct (int_base16_pair u h3 h4 H3 H4) as (E2 & C2 & _).
  destruct (int_base16_pair u h5 h6 H5 H6) as (E3 & C3 & _).
  split; [|auto].
  unfold hex_to_rgb. cbn [app]. rewrite (lstrip_char_repeat _ _ _ _ N1).
  unfold slice2. cbn [skipn firstn]. unfold bind. now rewrite E1, E2, E3.
Qed.

Lemma existsb_In (c : char) (l : list char) :
  existsb (N.eqb c) l = true -> In c l.
Proof.
  intros H. apply existsb_exists in H. destruct H as (x & Hx & E).
  apply N.eqb_eq in E. now subst.
Qed.

Lemma hex_to_rgb_six_digits_witness :
  hex_to_rgb ascii_only (lit "#EC4899ff") = Ok (236, 72, 153).
Proof.
  apply (hex_to_rgb_six_digits ascii_only 1 69%N 67%N 52%N 56%N 57%N 57%N (lit "ff")).
  repeat (apply Forall_cons; [apply existsb_In; reflexivity|]). apply Forall_nil.
Defined.

(** A channel written from two lower-case digits is these two digits. *)
Lemma format_02x_pair (a b : char) :
  In a lower_hex_chars -> In b lower_hex_chars ->
  format_02x (hex_pair a b) = [a; b] /\ In a hex_chars /\ In b hex_chars.
Proof.
  intros Ha Hb.
  assert (H : forallb (fun a => forallb (fun b =>
              (if list_eq_dec N.eq_dec (format_02x (hex_pair a b)) [a; b]
               then true else false)
              && existsb (N.eqb a) hex_chars && existsb (N.eqb b) hex_chars)
              lower_hex_chars) lower_hex_chars = true)
    by (vm_compute; reflexivity).
  rewrite forallb_forall in H. specialize (H a Ha).
  rewrite forallb_forall in H. specialize (H b Hb).
  rewrite !andb_true_iff in H. destruct H as [[H1 H2] H3].
  destruct (list_eq_dec N.eq_dec _ _) as [E|]; [|discriminate].
  split; [exact E|].
  apply existsb_exists in H2, H3.
  destruct H2 as (x & Hx & Ex), H3 as (y & Hy & Ey).
  apply N.eqb_eq in Ex, Ey. subst. auto.
Qed.

(** X19. A colour written as [#] and six lower-case hexadecimal digits, as
    the palettes and the colour chooser give it, is read by [hex_to_rgb] and
    written back by [rgb_to_hex] unchanged. *)
Theorem rgb_hex_round_trip (u : Unicode) (h1 h2 h3 h4 h5 h6 : char) :
  Forall (fun h => In h lower_hex_chars) [h1; h2; h3; h4; h5; h6] ->
  exists rgb,
    hex_to_rgb u (35%N :: [h1; h2; h3; h4; h5; h6]) = Ok rgb
    /\ rgb_to_hex rgb = 35%N :: [h1; h2; h3; h4; h5; h6].
Proof.
  intros H.
  inversion H as [|? ? H1 H']; subst. inversion H' as [|? ? H2 H'']; subst.
  inversion H'' as [|? ? H3 H3']; subst. inversion H3' as [|? ? H4 H4']; subst.
  inversion H4' as [|? ? H5 H5']; subst. inversion H5' as [|? ? H6 _]; subst.
  destruct (format_02x_pair h1 h2 H1 H2) as (F1 & A1 & A2).
  destruct (format_02x_pair h3 h4 H3 H4) as (F2 & A3 & A4).
  destruct (format_02x_pair h5 h6 H5 H6) as (F3 & A5 & A6).
  destruct (int_base16_pair u h1 h2 A1 A2) as (E1 & _ & N1).
  destruct (int_base16_pair u h3 h4 A3 A4) as (E2 & _ & _).
  destruct (int_base16_pair u h5 h6 A5 A6) as (E3 & _ & _).
  exists (hex_pair h1 h2, hex_pair h3 h4, hex_pair h5 h6). split.
  - unfold hex_to_rgb. cbn [lstrip_char].
    change (35 =? 35)%N with true. cbv iota.
    apply N.eqb_neq in N1. rewrite N1.
    unfold slice2. cbn [skipn firstn]. unfold bind. now rewrite E1, E2, E3.
  - unfold rgb_to_hex. rewrite F1, F2, F3. reflexivity.
Qed.

Lemma rgb_hex_round_trip_witness :
  exists rgb,
    hex_to_rgb ascii_only (lit "#12121a") = Ok rgb
    /\ rgb_to_hex rgb = lit "#12121a".
Proof.
  apply (rgb_hex_round_trip ascii_only 49%N 50%N 49%N 50%N 49%N 97%N).
  repeat (apply Forall_cons; [apply existsb_In; reflexivity|]). apply Forall_nil.
Defined.

Lemma int_base16_error (u : Unicode) (s : str) (e : exception) :
  int_base16 u s = Raise e ->
  e = ValueError (lit "invalid literal for int() with base 16").
Proof.
  unfold int_base16.
  generalize (skip_spaces (if forallb (fun c => c <? 128)%N s then s
                           else transform_decimal_and_space u s)).
  intros t.
  match goal with
  | |- (let '(negative, a) := ?p in _) = _ -> _ => destruct p as [neg a0]
  end.
  assert (HX : forall b,
             match scan_digits 16 0 0 false b with
             | Some (v, S _, rest) =>
                 match skip_spaces rest with
                 | [] => Ok (if neg then - v else v)
                 | _ :: _ =>
                     Raise (ValueError (lit "invalid literal for int() with base 16"))
                 end
             | _ => Raise (ValueError (lit "invalid literal for int() with base 16"))
             end = Raise e ->
             e = ValueError (lit "invalid literal for int() with base 16")).
  { intros b. destruct (scan_digits 16 0 0 false b) as [[[v [|n]] rest]|];
      try (intros [= <-]; reflexivity).
    destruct (skip_spaces rest); [discriminate|intros [= <-]; reflexivity]. }
  match goal with
  | |- match ?b with [] => _ | _ => _ end = _ -> _ => generalize b
  end.
  intros [|[|p] b]; [exact (HX [])|exact (HX (0%N :: b))|].
  do 7 (try destruct p as [p|p|]);
    first [ intros [= <-]; reflexivity
          | match goal with
            | |- match scan_digits _ _ _ _ ?l with _ => _ end = _ -> _ => exact (HX l)
            end ].
Qed.

(** X20. A colour with fewer than five characters after the leading [#],
    such as the short form [#fff] or the empty string, makes [hex_to_rgb]
    raise a [ValueError]. *)
Theorem hex_to_rgb_short (u : Unicode) (hex_color : str) :
  (length (lstrip_char 35%N hex_color) <= 4)%nat ->
  exists msg, hex_to_rgb u hex_color = Raise (ValueError msg).
Proof.
  intros Hl. unfold hex_to_rgb, bind.
  destruct (int_base16 u (slice2 0 _)) as [r|e] eqn:Er;
    [|rewrite (int_base16_error _ _ _ Er); eauto].
  destruct (int_base16 u (slice2 2 _)) as [g|e] eqn:Eg;
    [|rewrite (int_base16_error _ _ _ Eg); eauto].
  unfold slice2. rewrite skipn_all2 by exact Hl.
  eexists. reflexivity.
Qed.

Lemma hex_to_rgb_short_witness :
  exists msg, hex_to_rgb ascii_only (lit "#fff") = Raise (ValueError msg).
Proof.
  apply (hex_to_rgb_short ascii_only (lit "#fff")). cbn. lia.
Defined.

(** [x > n] on a positive float, as a comparison of values. *)
Lemma float_gt_int_pos (J K : Z) (x : PyFloat.float) (n : Z) :
  pos_between J K x ->
  (float_gt_int x n = true <-> (inject_Z n < PyFloat.value x)%Q).
Proof.
  intros Hx. destruct x as [| | |[|] m e]; try contradiction.
  unfold float_gt_int, PyFloat.compare_int. rewrite Qlt_alt.
  rewrite <- (Qcompare_antisym (PyFloat.value (S754_finite false m e)) (inject_Z n)).
  destruct (PyFloat.value (S754_finite false m e) ?= inject_Z n)%Q; cbn;
    split; congruence.
Qed.

(** The brightness test: [n / 1000 > 128] in floating point decides
    [n > 128000] exactly. *)
Lemma brightness_test (n : Z) :
  0 <= n <= 255000 ->
  exists x,
    PyFloat.int_truediv n 1000 = Ok x
    /\ float_gt_int x 128 = (128000 <? n).
Proof.
  intros Hn. destruct n as [|a|a]; try lia.
  { eexists. split; reflexivity. }
  destruct (int_truediv_between (Z.pos a) 1000 18) as (x & Ex & Hx); try lia.
  exists x. split; [exact Ex|].
  pose proof (int_truediv_round a 1000 x Ex) as Er.
  destruct (frac_range a 1000 18 ltac:(lia) ltac:(lia) ltac:(lia)) as [Hlo Hhi].
  destruct (128000 <? Z.pos a) eqn:E.
  - apply Z.ltb_lt in E. apply (float_gt_int_pos _ _ _ _ Hx).
    assert (H : (inject_Z (2 ^ 27 + 1) * PyFloat.pow2 (-20) <= PyFloat.value x)%Q).
    { rewrite Er.
      apply (round_abs_ge_repr (Z.pos a # 1000) (-18) 18); try assumption; try lia.
      unfold Qle. cbn. lia. }
    eapply Qlt_le_trans; [|exact H]. reflexivity.
  - apply Z.ltb_ge in E.
    destruct (float_gt_int x 128) eqn:G; [|reflexivity].
    apply (float_gt_int_pos _ _ _ _ Hx) in G. exfalso.
    assert (H : (PyFloat.value x <= inject_Z 128 * PyFloat.pow2 0)%Q).
    { rewrite Er.
      apply (round_abs_le_repr (Z.pos a # 1000) (-18) 18); try assumption; try lia.
      unfold Qle. cbn. lia. }
    rewrite pow2_0_r in H. exact (Qlt_not_le _ _ G H).
Qed.

(** X21. The button text is black exactly when the luma of the button
    colour, [299 r + 587 g + 114 b], exceeds 128000, and white otherwise: the
    floating-point division by 1000 does not blur the threshold. *)
Theorem update_text_color_threshold (u : Unicode) (current_color : str) (r g b : Z) :
  hex_to_rgb u current_color = Ok (r, g, b) ->
  channel r -> channel g -> channel b ->
  _update_text_color u current_color
  = Ok (if 128000 <? luma (r, g, b) then lit "#000000" else lit "#ffffff").
Proof.
  intros H Hr Hg Hb. unfold _update_text_color, bind. rewrite H.
  destruct (brightness_test (luma (r, g, b))) as (x & Ex & Hx).
  { unfold luma, channel in *. lia. }
  unfold luma in *. rewrite Ex, Hx. reflexivity.
Qed.

Lemma update_text_color_threshold_witness :
  _update_text_color ascii_only (lit "#ffd700") = Ok (lit "#000000").
Proof.
  apply (update_text_color_threshold ascii_only (lit "#ffd700") 255 215 0);
    [reflexivity| | |]; unfold channel; lia.
Defined.

(** ** The score slider *)

Lemma py_round_spec (m : positive) (e : Z) :
  exists k,
    py_round (S754_finite false m e) = Ok k
    /\ 0 <= k
    /\ (inject_Z (2 * k) - 1 <= 2 * PyFloat.value (S754_finite false m e))%Q
    /\ (2 * PyFloat.value (S754_finite false m e) <= inject_Z (2 * k) + 1)%Q.
Proof.
  unfold py_round, PyFloat.value. destruct e as [|p|p].
  - exists (Z.pos m * 2 ^ 0). split; [reflexivity|]. split; [lia|].
    unfold PyFloat.pow2. change (2 ^ 0) with 1.
    split; unfold Qle, Qminus, Qplus, Qmult, Qopp, inject_Z; cbn [Qnum Qden]; lia.
  - exists (Z.pos m * 2 ^ Z.pos p). split; [reflexivity|]. split; [lia|].
    unfold PyFloat.pow2.
    split; unfold Qle, Qminus, Qplus, Qmult, Qopp, inject_Z; cbn [Qnum Qden]; lia.
  - pose proof (rne_div_spec (Z.pos m) (2 ^ Z.pos p)) as H.
    assert (Hd : 0 < 2 ^ Z.pos p) by lia.
    destruct (H Hd ltac:(lia)) as [[H1 H2] H0].
    exists (PyFloat.rne_div (Z.pos m) (2 ^ Z.pos p)).
    split; [reflexivity|]. split; [exact H0|].
    set (k := PyFloat.rne_div (Z.pos m) (2 ^ Z.pos p)) in *.
    unfold PyFloat.pow2.
    assert (Ed : Z.pos (2 ^ p) = 2 ^ Z.pos p) by apply Pos2Z.inj_pow.
    split; unfold Qle, Qminus, Qplus, Qmult, Qopp, inject_Z; cbn [Qnum Qden];
      rewrite ?Pos.mul_1_l, ?Pos.mul_1_r, ?Z.mul_1_r, ?Pos2Z.inj_mul, Ed; nia.
Qed.

(** [f"{x:.1f}"] of a positive float, from the tenths nearest to it. *)
Lemma format_1f_tenths (m : positive) (e : Z) (t : Z) :
  let x := S754_finite false m e in
  (inject_Z (2 * t) - 1 < 20 * PyFloat.value x)%Q ->
  (20 * PyFloat.value x < inject_Z (2 * t) + 1)%Q ->
  PyFloat.format_1f x
  = PyFloat.str_of_int (t / 10) ++ lit "." ++ PyFloat.str_of_int (t mod 10).
Proof.
  intros x H1 H2.
  destruct (format_1f_spec m e) as (t' & _ & H1' & H2' & E & _). fold x in H1', H2', E.
  assert (t' = t); [|now subst t'].
  assert (A : (inject_Z (2 * t) - 1 < inject_Z (2 * t') + 1)%Q)
    by (eapply Qlt_le_trans; eassumption).
  assert (B : (inject_Z (2 * t') - 1 < inject_Z (2 * t) + 1)%Q)
    by (eapply Qle_lt_trans; eassumption).
  assert (A' : (inject_Z (2 * t) < inject_Z (2 * t' + 2))%Q).
  { rewrite inject_Z_plus. change (inject_Z 2) with 2%Q. lra. }
  assert (B' : (inject_Z (2 * t') < inject_Z (2 * t + 2))%Q).
  { rewrite inject_Z_plus. change (inject_Z 2) with 2%Q. lra. }
  rewrite <- Zlt_Qlt in A', B'. lia.
Qed.

(** Doubling a normal double of at most 16 is exact. *)
Lemma double_exact (v : PyFloat.float) :
  pos_between (-1022) 4 v ->
  exists d,
    float_mul_int v 2 = Ok d
    /\ pos_between (-1021) 6 d
    /\ (PyFloat.value d == 2 * PyFloat.value v)%Q.
Proof.
  intros Hv.
  set (f2 := S754_finite false 4503599627370496 (-51)).
  assert (E2 : PyFloat.of_int 2 = Ok f2) by (vm_compute; reflexivity).
  assert (H2 : pos_between 1 1 f2) by (repeat split; vm_compute; discriminate).
  assert (V2 : (PyFloat.value f2 == 2)%Q) by (vm_compute; reflexivity).
  unfold float_mul_int. rewrite E2.
  destruct (mul_range (-1022) 4 1 1 v f2 Hv H2) as (Em & Hlo & Hhi).
  pose proof (mul_between (-1022) 4 1 1 v f2 Hv H2 ltac:(lia) ltac:(lia)) as Hb.
  exists (PyFloat.mul v f2). split; [reflexivity|]. split; [exact Hb|].
  destruct (pos_between_repr _ _ _ Hv) as (k & ex & Hk & Ek).
  rewrite Em.
  rewrite (round_abs_exact _ (-1022 + 1) (4 + 1 + 1) k (ex + 1)
             ltac:(lia) ltac:(lia) Hlo Hhi Hk).
  - rewrite V2. ring.
  - rewrite V2, Ek, pow2_add. change (PyFloat.pow2 1) with 2%Q. ring.
Qed.

(** Halving an integer of at most 31 is exact. *)
Lemma half_exact (k : Z) :
  0 <= k < 32 ->
  exists s,
    PyFloat.int_truediv k 2 = Ok s
    /\ is_real s
    /\ (PyFloat.value s == inject_Z k * (1 # 2))%Q.
Proof.
  intros Hk. destruct k as [|a|a]; try lia.
  { eexists. split; [reflexivity|]. split; [exact I|reflexivity]. }
  destruct (int_truediv_between (Z.pos a) 2 5) as (s & Es & Hs); try lia.
  exists s. split; [exact Es|]. split.
  { destruct s as [| | |[|] m e]; try contradiction. exact I. }
  rewrite (int_truediv_round a 2 s Es).
  destruct (frac_range a 2 5 ltac:(lia) ltac:(lia) ltac:(lia)) as [Hlo Hhi].
  assert (Eq : (Z.pos a # 2 == inject_Z (Z.pos a) * PyFloat.pow2 (-1))%Q).
  { unfold Qeq. cbn. lia. }
  rewrite (round_abs_exact _ (-5) 5 (Z.pos a) (-1)
             ltac:(lia) ltac:(lia) Hlo Hhi ltac:(lia) Eq).
  exact Eq.
Qed.

(** The label of a score that is a whole number of halves. *)
Lemma half_step_text (s : PyFloat.float) (k : Z) :
  is_real s -> 0 <= k ->
  (PyFloat.value s == inject_Z k * (1 # 2))%Q ->
  exists i,
    PyFloat.to_int s = Ok i
    /\ (if negb (PyFloat.eq_int s i)
        then PyFloat.format_1f s
        else PyFloat.str_of_int i ++ lit ".0")
       = PyFloat.str_of_int (k / 2) ++ (if Z.even k then lit ".0" else lit ".5").
Proof.
  intros Hr Hk Hv.
  destruct (Z.even k) eqn:Ev.
  - apply Z.even_spec in Ev. destruct Ev as [j ->].
    assert (Hj : (PyFloat.value s == inject_Z j)%Q).
    { rewrite Hv, inject_Z_mult. change (inject_Z 2) with 2%Q. field. }
    exists j. split; [now apply to_int_integral|].
    assert (E : PyFloat.eq_int s j = true) by (apply eq_int_real; assumption).
    rewrite E, (Z.mul_comm 2 j), Z.div_mul by lia. reflexivity.
  - assert (Ho : Z.odd k = true) by (rewrite <- Z.negb_even, Ev; reflexivity).
    apply Z.odd_spec in Ho. destruct Ho as [j ->].
    assert (Hj : (PyFloat.value s == inject_Z j + (1 # 2))%Q).
    { rewrite Hv, inject_Z_plus, inject_Z_mult.
      change (inject_Z 2) with 2%Q. change (inject_Z 1) with 1%Q. field. }
    assert (H0 : (0 < PyFloat.value s)%Q).
    { rewrite Hj.
      assert (0 <= inject_Z j)%Q
        by (change 0%Q with (inject_Z 0); rewrite <- Zle_Qle; lia).
      lra. }
    destruct (positive_real_cases s Hr H0) as (m & e & ->).
    assert (Hn : ~ is_integer_value (S754_finite false m e)).
    { apply (not_integer_between _ j); rewrite Hj.
      - lra.
      - rewrite inject_Z_plus. change (inject_Z 1) with 1%Q. lra. }
    destruct (to_int_real (S754_finite false m e) I) as [i Hi].
    exists i. split; [exact Hi|].
    assert (Hne : PyFloat.eq_int (S754_finite false m e) i = false).
    { destruct (PyFloat.eq_int (S754_finite false m e) i) eqn:E; [|reflexivity].
      exfalso. apply Hn. now apply (eq_int_to_int (S754_finite false m e) i I Hi). }
    rewrite Hne. cbn [negb].
    rewrite (format_1f_tenths m e (10 * j + 5)).
    + replace ((10 * j + 5) / 10) with j by (apply Z.div_unique with 5; lia).
      replace ((10 * j + 5) mod 10) with 5 by (apply Z.mod_unique with j; lia).
      replace ((2 * j + 1) / 2) with j by (apply Z.div_unique with 1; lia).
      reflexivity.
    + rewrite Hj. replace (2 * (10 * j + 5)) with (20 * j + 10) by lia.
      rewrite inject_Z_plus, inject_Z_mult.
      change (inject_Z 20) with 20%Q. change (inject_Z 10) with 10%Q. lra.
    + rewrite Hj. replace (2 * (10 * j + 5)) with (20 * j + 10) by lia.
      rewrite inject_Z_plus, inject_Z_mult.
      change (inject_Z 20) with 20%Q. change (inject_Z 10) with 10%Q. lra.
Qed.

(** X22. A slider value of at most 10 is snapped to the nearest half: the
    stored score is [k / 2] for an integer [0 <= k <= 20] within a quarter of
    the value, it lies in [[0, 10]], and the label shows it with one decimal,
    [.0] or [.5]. *)
Theorem update_score_label_snaps (value : PyFloat.float) :
  slider_float value -> (PyFloat.value value <= 10)%Q ->
  exists k score color,
    _update_score_label value
    = Ok (score,
          PyFloat.str_of_int (k / 2) ++ (if Z.even k then lit ".0" else lit ".5"),
          color)
    /\ 0 <= k <= 20
    /\ (PyFloat.value score == inject_Z k * (1 # 2))%Q
    /\ (PyFloat.value score - (1 # 4) <= PyFloat.value value)%Q
    /\ (PyFloat.value value <= PyFloat.value score + (1 # 4))%Q
    /\ score_in_range score.
Proof.
  intros [[s ->]|Hv] Hle.
  - exists 0, (S754_zero false). eexists.
    split; [destruct s; vm_compute; reflexivity|].
    split; [lia|]. split; [reflexivity|].
    repeat split; vm_compute; discriminate.
  - destruct (double_exact value Hv) as (d & Ed & Hd & Vd).
    destruct d as [| | |[|] m e]; try contradiction.
    destruct (py_round_spec m e) as (k & Ek & Hk0 & Hk1 & Hk2).
    rewrite Vd in Hk1, Hk2. rewrite inject_Z_mult in Hk1, Hk2.
    change (inject_Z 2) with 2%Q in Hk1, Hk2.
    assert (Hk20 : k <= 20).
    { assert (H : (inject_Z k < inject_Z 21)%Q)
        by (change (inject_Z 21) with 21%Q; lra).
      rewrite <- Zlt_Qlt in H. lia. }
    destruct (half_exact k ltac:(lia)) as (score & Es & Hr & Vs).
    destruct (half_step_text score k Hr Hk0 Vs) as (i & Ei & Et).
    exists k, score. eexists.
    unfold _update_score_label, bind. rewrite Ed, Ek, Es, Ei, Et.
    split; [reflexivity|]. split; [lia|]. split; [exact Vs|].
    assert (H20 : (inject_Z k <= 20)%Q).
    { change 20%Q with (inject_Z 20). rewrite <- Zle_Qle. exact Hk20. }
    assert (H00 : (0 <= inject_Z k)%Q).
    { change 0%Q with (inject_Z 0). rewrite <- Zle_Qle. exact Hk0. }
    split; [rewrite Vs; lra|]. split; [rewrite Vs; lra|].
    split; [exact Hr|]. rewrite Vs. split; lra.
Qed.

Lemma update_score_label_snaps_witness :
  exists score color,
    _update_score_label f_7_3 = Ok (score, lit "7.5", color)
    /\ score_in_range score.
Proof.
  destruct (update_score_label_snaps f_7_3) as (k & score & color & H1 & H2 & H3 & H4 & H5 & H6).
  - right. repeat split; vm_compute; discriminate.
  - vm_compute. discriminate.
  - exists score, color. split; [|exact H6].
    rewrite H1. assert (k = 15); [|subst k; reflexivity].
    assert (A : (inject_Z 14 < inject_Z k)%Q).
    { change (inject_Z 14) with 14%Q.
      assert (V : (PyFloat.value f_7_3 == 8219069319951155 # 1125899906842624)%Q)
        by (vm_compute; reflexivity).
      rewrite H3, V in H5. lra. }
    assert (B : (inject_Z k < inject_Z 16)%Q).
    { change (inject_Z 16) with 16%Q.
      assert (V : (PyFloat.value f_7_3 == 8219069319951155 # 1125899906842624)%Q)
        by (vm_compute; reflexivity).
      rewrite H3, V in H4. lra. }
    rewrite <- Zlt_Qlt in A, B. lia.
Defined.

(** X23. The colour of the slider label is the colour the card uses for the
    same score, written in hexadecimal. *)
Theorem update_score_label_color (value score : PyFloat.float) (text color : str) :
  _update_score_label value = Ok (score, text, color) ->
  color = rgb_to_hex (color_rgb (_get_score_color score)).
Proof.
  unfold _update_score_label, bind, _get_score_color.
  destruct (float_mul_int value 2) as [d|]; [|discriminate].
  destruct (py_round d) as [k|]; [|discriminate].
  destruct (PyFloat.int_truediv k 2) as [s|]; [|discriminate].
  destruct (PyFloat.to_int s) as [i|]; [|discriminate].
  intros [= <- _ <-].
  destruct (PyFloat.ge_int s 8); [reflexivity|].
  destruct (PyFloat.ge_int s 6); [reflexivity|].
  destruct (PyFloat.ge_int s 4); reflexivity.
Qed.

Lemma update_score_label_color_witness :
  exists score text,
    _update_score_label f_7_3 = Ok (score, text, lit "#eab308").
Proof.
  destruct (_update_score_label f_7_3) as [[[score text] color]|e] eqn:E;
    [|vm_compute in E; discriminate].
  exists score, text.
  rewrite (update_score_label_color f_7_3 score text color E).
  vm_compute in E. injection E as <- _ _. reflexivity.
Defined.

(** ** The preview *)

Lemma to_int_le (x : PyFloat.float) (J K z : Z) :
  pos_between J K x -> (PyFloat.value x < inject_Z (z + 1))%Q ->
  exists i, PyFloat.to_int x = Ok i /\ 0 <= i <= z.
Proof.
  intros Hx Hv.
  destruct (pos_between_value _ _ _ Hx) as (H0 & _).
  destruct x as [| | |[|] m e]; try contradiction.
  destruct (to_int_floor m e) as (i & Ei & Hi1 & Hi2).
  exists i. split; [exact Ei|].
  assert (A : (inject_Z i < inject_Z (z + 1))%Q) by (eapply Qle_lt_trans; eassumption).
  assert (B : (inject_Z 0 < inject_Z (i + 1))%Q)
    by (eapply Qlt_trans; [exact H0|exact Hi2]).
  rewrite <- Zlt_Qlt in A, B. lia.
Qed.

(** A card wider than the room: the height of the preview fits. *)
Lemma preview_wide (cw ch mw mh : positive) (cr fr : PyFloat.float) :
  Z.pos cw < 2 ^ 31 -> Z.pos ch < 2 ^ 31 -> Z.pos mw < 2 ^ 31 -> Z.pos mh < 2 ^ 31 ->
  PyFloat.int_truediv (Z.pos cw) (Z.pos ch) = Ok cr ->
  PyFloat.int_truediv (Z.pos mw) (Z.pos mh) = Ok fr ->
  PyFloat.gt cr fr = true ->
  exists f new_height,
    PyFloat.int_div (Z.pos mw) cr = Ok f
    /\ PyFloat.to_int f = Ok new_height
    /\ 0 <= new_height <= Z.pos mh.
Proof.
  intros Hcw Hch Hmw Hmh Ecr Efr Hgt.
  destruct (int_truediv_between (Z.pos cw) (Z.pos ch) 31) as (cr' & Ecr' & Hcr); try lia.
  destruct (int_truediv_between (Z.pos mw) (Z.pos mh) 31) as (fr' & Efr' & Hfr); try lia.
  assert (cr' = cr) by congruence. assert (fr' = fr) by congruence. subst cr' fr'.
  apply (gt_pos _ _ _ _ cr fr Hcr Hfr) in Hgt.
  pose proof (above_rounded_quotient mw mh cr fr _ _ Hcr Hmw Hmh Efr Hgt) as Hq.
  destruct (of_int_exact (Z.pos mw) 31) as (f & Ef & Hf & Vf); try lia.
  destruct (div_range 0 31 (-31) 31 f cr Hf Hcr) as (Ed & Hlo & Hhi).
  destruct (div_between 0 31 (-31) 31 f cr Hf Hcr ltac:(lia) ltac:(lia))
    as (z & Ez & Hz).
  pose proof (pos_between_value _ _ _ Hcr) as (Hc0 & _).
  assert (Hle : (PyFloat.value f / PyFloat.value cr <= inject_Z (Z.pos mh))%Q).
  { apply (Qle_cancel _ _ (PyFloat.value cr) Hc0).
    setoid_replace (PyFloat.value f / PyFloat.value cr * PyFloat.value cr)%Q
      with (PyFloat.value f)
      by (field; intros H; rewrite H in Hc0; discriminate).
    rewrite Vf. rewrite <- (Qmake_mul_den (Z.pos mw) mh).
    rewrite (Qmult_comm (Z.pos mw # mh)).
    apply Qmult_le_l; [reflexivity|exact Hq]. }
  assert (Hv : (PyFloat.value z <= inject_Z (Z.pos mh) * PyFloat.pow2 0)%Q).
  { rewrite Ed in Ez. injection Ez as <-.
    apply (round_abs_le_repr _ (0 - 31) (31 - -31 + 1)); try assumption; try lia.
    now rewrite pow2_0_r. }
  rewrite pow2_0_r in Hv.
  destruct (to_int_le z _ _ (Z.pos mh) Hz) as (nh & Enh & Hnh).
  { eapply Qle_lt_trans; [exact Hv|]. rewrite <- Zlt_Qlt. lia. }
  exists z, nh. unfold PyFloat.int_div. rewrite Ef. auto.
Qed.

Lemma pow2_neg_mul (s : Z) :
  0 <= s -> (PyFloat.pow2 (- s) * inject_Z (2 ^ s) == 1)%Q.
Proof.
  intros Hs. rewrite <- (pow2_of_nonneg s Hs), <- pow2_add.
  replace (- s + s) with 0 by lia. reflexivity.
Qed.

Lemma pow2_int_pos (s : Z) : 0 <= s -> (0 < inject_Z (2 ^ s))%Q.
Proof.
  intros Hs. change 0%Q with (inject_Z 0). rewrite <- Zlt_Qlt. lia.
Qed.

(** Comparing two binary fractions through their numerators. *)
Lemma scaled_le (x y s t : Z) :
  0 <= s -> 0 <= t -> x * 2 ^ t <= y * 2 ^ s ->
  (inject_Z x * PyFloat.pow2 (- s) <= inject_Z y * PyFloat.pow2 (- t))%Q.
Proof.
  intros Hs Ht H.
  pose proof (pow2_neg_mul s Hs) as Es. pose proof (pow2_neg_mul t Ht) as Et.
  pose proof (pow2_int_pos s Hs) as Ps. pose proof (pow2_int_pos t Ht) as Pt.
  apply (Qle_cancel _ _ (inject_Z (2 ^ s) * inject_Z (2 ^ t))).
  { apply Qmult_lt_0_compat; assumption. }
  setoid_replace (inject_Z x * PyFloat.pow2 (- s) * (inject_Z (2 ^ s) * inject_Z (2 ^ t)))%Q
    with (inject_Z x * inject_Z (2 ^ t) * (PyFloat.pow2 (- s) * inject_Z (2 ^ s)))%Q
    by ring.
  setoid_replace (inject_Z y * PyFloat.pow2 (- t) * (inject_Z (2 ^ s) * inject_Z (2 ^ t)))%Q
    with (inject_Z y * inject_Z (2 ^ s) * (PyFloat.pow2 (- t) * inject_Z (2 ^ t)))%Q
    by ring.
  rewrite Es, Et, !Qmult_1_r, <- !inject_Z_mult, <- Zle_Qle. exact H.
Qed.

(** The rounded quotient [a / b] is at most any binary fraction with a
    53-bit numerator that is at least [a / b]. *)
Lemma quotient_upper (a b : positive) (fr : PyFloat.float) (k s : Z) :
  Z.pos a < 2 ^ 31 -> Z.pos b < 2 ^ 31 ->
  PyFloat.int_truediv (Z.pos a) (Z.pos b) = Ok fr ->
  0 <= s -> 0 < k < 2 ^ 53 -> Z.pos a * 2 ^ s <= k * Z.pos b ->
  (PyFloat.value fr <= inject_Z k * PyFloat.pow2 (- s))%Q.
Proof.
  intros Ha Hb Efr Hs Hk H.
  destruct (frac_range a b 31 ltac:(lia) Ha Hb) as [Hlo Hhi].
  rewrite (int_truediv_round a b fr Efr).
  apply (round_abs_le_repr (Z.pos a # b) (-31) 31); try assumption; try lia.
  assert (Pb : (0 < inject_Z (Z.pos b))%Q) by reflexivity.
  apply (Qle_cancel _ _ _ Pb). rewrite Qmake_mul_den.
  pose proof (scaled_le (Z.pos a) (k * Z.pos b) 0 s ltac:(lia) Hs) as Hsc.
  change (- 0) with 0 in Hsc. rewrite pow2_0_r in Hsc.
  rewrite Z.pow_0_r, Z.mul_1_r in Hsc. specialize (Hsc H).
  rewrite inject_Z_mult in Hsc.
  setoid_replace (inject_Z k * PyFloat.pow2 (- s) * inject_Z (Z.pos b))%Q
    with (inject_Z k * inject_Z (Z.pos b) * PyFloat.pow2 (- s))%Q by ring.
  exact Hsc.
Qed.

(** A card not wider than the room, with the fineness [s] of the bound on
    the ratio of the room. *)
Lemma preview_tall_at (s : Z) (cw ch mw mh : positive) (cr fr : PyFloat.float) :
  0 <= s ->
  (Z.pos mw * 2 ^ s + Z.pos mh - 1) / Z.pos mh < 2 ^ 53 ->
  (Z.pos mh - 1) * 2 ^ 21 <= 2 ^ s * (2 ^ 21 - 1) ->
  Z.pos cw < 2 ^ 31 -> Z.pos ch < 2 ^ 31 -> Z.pos mw < 2 ^ 31 -> Z.pos mh < 2 ^ 31 ->
  PyFloat.int_truediv (Z.pos cw) (Z.pos ch) = Ok cr ->
  PyFloat.int_truediv (Z.pos mw) (Z.pos mh) = Ok fr ->
  PyFloat.gt cr fr = false ->
  exists f new_width,
    PyFloat.int_mul (Z.pos mh) cr = Ok f
    /\ PyFloat.to_int f = Ok new_width
    /\ 0 <= new_width <= Z.pos mw.
Proof.
  intros Hs HK H2 Hcw Hch Hmw Hmh Ecr Efr Hgt.
  destruct (int_truediv_between (Z.pos cw) (Z.pos ch) 31) as (cr' & Ecr' & Hcr); try lia.
  destruct (int_truediv_between (Z.pos mw) (Z.pos mh) 31) as (fr' & Efr' & Hfr); try lia.
  assert (cr' = cr) by congruence. assert (fr' = fr) by congruence. subst cr' fr'.
  assert (Hle : (PyFloat.value cr <= PyFloat.value fr)%Q).
  { apply Qnot_lt_le. intros H. apply (gt_pos _ _ _ _ cr fr Hcr Hfr) in H. congruence. }
  set (k := (Z.pos mw * 2 ^ s + Z.pos mh - 1) / Z.pos mh) in *.
  assert (P2 : 0 < 2 ^ s) by lia.
  assert (Hk1 : k * Z.pos mh <= Z.pos mw * 2 ^ s + Z.pos mh - 1).
  { unfold k. rewrite Z.mul_comm. apply Z.mul_div_le. lia. }
  assert (Hk2 : Z.pos mw * 2 ^ s <= k * Z.pos mh).
  { pose proof (Z.div_mod (Z.pos mw * 2 ^ s + Z.pos mh - 1) (Z.pos mh) ltac:(lia)) as E.
    pose proof (Z.mod_pos_bound (Z.pos mw * 2 ^ s + Z.pos mh - 1) (Z.pos mh)
                  ltac:(lia)) as Hr.
    fold k in E. lia. }
  assert (Hk0 : 0 < k) by nia.
  pose proof (quotient_upper mw mh fr k s Hmw Hmh Efr Hs (conj Hk0 HK) Hk2) as Hfr_le.
  destruct (of_int_exact (Z.pos mh) 31) as (f & Ef & Hf & Vf); try lia.
  destruct (mul_range 0 31 (-31) 31 f cr Hf Hcr) as (Em & Hlo & Hhi).
  pose proof (mul_between 0 31 (-31) 31 f cr Hf Hcr ltac:(lia) ltac:(lia)) as Hm.
  set (kB := (Z.pos mw + 1) * 2 ^ 21 - 1).
  assert (HkB : 0 < kB < 2 ^ 53) by (unfold kB; lia).
  assert (Hq : (PyFloat.value f * PyFloat.value cr <= inject_Z kB * PyFloat.pow2 (-21))%Q).
  { eapply Qle_trans.
    - apply Qmult_le_l; [rewrite Vf; reflexivity|].
      eapply Qle_trans; [exact Hle|exact Hfr_le].
    - rewrite Vf, Qmult_assoc, <- inject_Z_mult.
      apply (scaled_le (Z.pos mh * k) kB s 21 Hs ltac:(lia)).
      unfold kB. nia. }
  assert (Hv : (PyFloat.value (PyFloat.mul f cr) <= inject_Z kB * PyFloat.pow2 (-21))%Q).
  { rewrite Em.
    apply (round_abs_le_repr _ (0 + -31) (31 + 31 + 1)); try assumption; lia. }
  destruct (to_int_le (PyFloat.mul f cr) _ _ (Z.pos mw) Hm) as (nw & Enw & Hnw).
  { eapply Qle_lt_trans; [exact Hv|].
    pose proof (scaled_le (kB + 1) (Z.pos mw + 1) 21 0 ltac:(lia) ltac:(lia)) as Hsc.
    change (- 0) with 0 in Hsc. rewrite pow2_0_r in Hsc.
    specialize (Hsc ltac:(unfold kB; lia)).
    eapply Qlt_le_trans; [|exact Hsc].
    rewrite inject_Z_plus. change (inject_Z 1) with 1%Q.
    pose proof (pow2_pos (-21)) as Hp.
    setoid_replace ((inject_Z kB + 1) * PyFloat.pow2 (-21))%Q
      with (inject_Z kB * PyFloat.pow2 (-21) + PyFloat.pow2 (-21))%Q by ring.
    lra. }
  exists (PyFloat.mul f cr), nw. unfold PyFloat.int_mul. rewrite Ef. auto.
Qed.

Lemma preview_tall (cw ch mw mh : positive) (cr fr : PyFloat.float) :
  Z.pos cw < 2 ^ 31 -> Z.pos ch < 2 ^ 31 -> Z.pos mw < 2 ^ 31 -> Z.pos mh < 2 ^ 31 ->
  PyFloat.int_truediv (Z.pos cw) (Z.pos ch) = Ok cr ->
  PyFloat.int_truediv (Z.pos mw) (Z.pos mh) = Ok fr ->
  PyFloat.gt cr fr = false ->
  exists f new_width,
    PyFloat.int_mul (Z.pos mh) cr = Ok f
    /\ PyFloat.to_int f = Ok new_width
    /\ 0 <= new_width <= Z.pos mw.
Proof.
  intros Hcw Hch Hmw Hmh Ecr Efr Hgt.
  assert (E10 : 2 ^ 10 = 1024) by reflexivity.
  assert (E21 : 2 ^ 21 = 2097152) by reflexivity.
  assert (E22 : 2 ^ 22 = 4194304) by reflexivity.
  assert (E31 : 2 ^ 31 = 2147483648) by reflexivity.
  assert (E32 : 2 ^ 32 = 4294967296) by reflexivity.
  assert (E53 : 2 ^ 53 = 9007199254740992) by reflexivity.
  destruct (Z_lt_le_dec (Z.pos mh) (2 ^ 10)) as [Hs|Hs].
  - apply (preview_tall_at 22 cw ch mw mh cr fr); try assumption.
    + lia.
    + apply Z.div_lt_upper_bound; [lia|]. rewrite E22, E53. rewrite E31 in Hmw.
      clear - Hmw. lia.
    + rewrite E21, E22. rewrite E10 in Hs. clear - Hs. lia.
  - apply (preview_tall_at 32 cw ch mw mh cr fr); try assumption.
    + lia.
    + apply Z.div_lt_upper_bound; [lia|]. rewrite E32, E53.
      rewrite E31 in Hmw. rewrite E10 in Hs. clear - Hmw Hs. lia.
    + rewrite E21, E32. rewrite E31 in Hmh. clear - Hmh. lia.
Qed.

Lemma preview_room_positive (frame_width frame_height : Z) :
  frame_width < 2 ^ 31 -> frame_height < 2 ^ 31 ->
  pil_size (fst (preview_room frame_width frame_height))
  /\ pil_size (snd (preview_room frame_width frame_height)).
Proof.
  intros Hw Hh. unfold preview_room, pil_size.
  destruct (frame_width - 40 <=? 0) eqn:E1; cbn [orb fst snd]; [lia|].
  destruct (frame_height - 40 <=? 0) eqn:E2; cbn [fst snd]; [lia|].
  apply Z.leb_gt in E1, E2. lia.
Qed.

(** X24. The preview always fits the room left in the frame: for a card and
    a frame of PIL sizes, [_update_preview] resizes the card to at most
    [max_width] by [max_height], one of the two being met exactly; the
    rounding of the two ratios never makes it a pixel too large. *)
Theorem preview_fits (card_width card_height frame_width frame_height : Z) :
  pil_size card_width -> pil_size card_height ->
  frame_width < 2 ^ 31 -> frame_height < 2 ^ 31 ->
  exists new_width new_height,
    preview_size card_width card_height frame_width frame_height
    = Ok (new_width, new_height)
    /\ 0 <= new_width <= fst (preview_room frame_width frame_height)
    /\ 0 <= new_height <= snd (preview_room frame_width frame_height)
    /\ (new_width = fst (preview_room frame_width frame_height)
        \/ new_height = snd (preview_room frame_width frame_height)).
Proof.
  intros [Hw1 Hw2] [Hh1 Hh2] Hfw Hfh.
  destruct (preview_room_positive frame_width frame_height Hfw Hfh)
    as [[Hmw1 Hmw2] [Hmh1 Hmh2]].
  unfold preview_size.
  destruct (preview_room frame_width frame_height) as [max_width max_height].
  cbn [fst snd] in *.
  destruct (int_truediv_between card_width card_height 31) as (cr & Ecr & Hcr); try lia.
  destruct (int_truediv_between max_width max_height 31) as (fr & Efr & Hfr); try lia.
  unfold bind. rewrite Ecr, Efr.
  destruct card_width as [|cw|cw]; try lia.
  destruct card_height as [|ch|ch]; try lia.
  destruct max_width as [|mw|mw]; try lia.
  destruct max_height as [|mh|mh]; try lia.
  destruct (PyFloat.gt cr fr) eqn:Egt.
  - destruct (preview_wide cw ch mw mh cr fr) as (f & nh & Ef & Enh & Hnh);
      try assumption.
    rewrite Ef, Enh. exists (Z.pos mw), nh.
    split; [reflexivity|]. split; [lia|]. split; [exact Hnh|]. left; reflexivity.
  - destruct (preview_tall cw ch mw mh cr fr) as (f & nw & Ef & Enw & Hnw);
      try assumption.
    rewrite Ef, Enw. exists nw, (Z.pos mh).
    split; [reflexivity|]. split; [exact Hnw|]. split; [lia|]. right; reflexivity.
Qed.

Lemma preview_fits_witness :
  exists new_width new_height,
    preview_size 1200 675 700 500 = Ok (new_width, new_height)
    /\ 0 <= new_width <= 660 /\ 0 <= new_height <= 460.
Proof.
  destruct (preview_fits 1200 675 700 500) as (nw & nh & H1 & H2 & H3 & _);
    try (unfold pil_size; lia).
  exists nw, nh. split; [exact H1|]. split; [exact H2|exact H3].
Defined.

(** ** The form *)

Lemma lstrip_head (s : str) (c : char) (r : str) :
  lstrip s = c :: r -> isspace c = false.
Proof.
  induction s as [|d s IH]; cbn [lstrip]; [discriminate|].
  destruct (isspace d) eqn:E; [exact IH|]. intros [= <- _]. exact E.
Qed.

Lemma all_space_lstrip (s : str) : all_space (lstrip s) -> lstrip s = [].
Proof.
  destruct (lstrip s) as [|c r] eqn:E; [reflexivity|].
  intros H. inversion H as [|? ? Hc _]; subst.
  rewrite (lstrip_head s c r E) in Hc. discriminate.
Qed.

Lemma blank_strip (s : str) : blank (strip s) <-> blank s.
Proof.
  split.
  - intros H. apply strip_nil_iff. unfold strip, rstrip in *.
    unfold blank, all_space in H. apply Forall_rev in H.
    rewrite rev_involutive in H. apply all_space_lstrip in H.
    now rewrite H.
  - intros H. apply strip_nil_iff in H. rewrite H. constructor.
Qed.

Lemma truthy_strip (s : str) : truthy (strip s) = false <-> blank s.
Proof.
  rewrite <- strip_nil_iff. destruct (strip s); cbn; split; congruence.
Qed.

(** X25. The form and the generator agree on the title and the text: when
    [_validate_inputs] accepts the two fields, the review made of their
    stripped contents and a score in [[0, 10]] passes [validate]; when it
    rejects them, [validate] raises a [ValueError] for that review. *)
Theorem ui_validation_agrees (title_entry review_box : str) (r : ReviewData) :
  title r = strip title_entry -> review_text r = strip review_box ->
  score_in_range (score r) ->
  (fst (_validate_inputs title_entry review_box) = true -> validate r = Ok true)
  /\ (fst (_validate_inputs title_entry review_box) = false ->
      exists msg, validate r = Raise (ValueError msg)).
Proof.
  intros Ht Hx Hs. unfold _validate_inputs.
  destruct (truthy (strip title_entry)) eqn:E1; cbn [negb fst].
  - destruct (truthy (strip review_box)) eqn:E2; cbn [negb fst].
    + split; [intros _|discriminate].
      apply validate_valid. split; [|split; [|exact Hs]].
      * rewrite Ht, blank_strip, <- truthy_strip. congruence.
      * rewrite Hx, blank_strip, <- truthy_strip. congruence.
    + split; [discriminate|intros _].
      apply validate_invalid. right; left.
      rewrite Hx, blank_strip. now apply truthy_strip.
  - split; [discriminate|intros _].
    apply validate_invalid. left.
    rewrite Ht, blank_strip. now apply truthy_strip.
Qed.

Lemma ui_validation_agrees_witness :
  validate sample_review = Ok true.
Proof.
  apply (ui_validation_agrees (lit "  Elden Ring ")
           (lit "A masterpiece of open-world design.  ") sample_review).
  - reflexivity.
  - reflexivity.
  - exact f_9_5_in_range.
  - reflexivity.
Defined.

Lemma Forall_lstrip (P : char -> Prop) (s : str) : Forall P s -> Forall P (lstrip s).
Proof.
  induction 1 as [|c s Hc Hs IH]; cbn [lstrip]; [constructor|].
  destruct (isspace c); [exact IH|now constructor].
Qed.

Lemma Forall_strip (P : char -> Prop) (s : str) : Forall P s -> Forall P (strip s).
Proof.
  intros H. unfold strip, rstrip.
  apply Forall_rev, Forall_lstrip, Forall_rev, Forall_lstrip, H.
Qed.

(** X26. The file name proposed for a card is [review_card.png] or a
    non-empty stem followed by [_review.png]; the stem holds alphanumeric
    characters, hyphens and underscores only: no space, no path separator. *)
Theorem default_name_safe (u : Unicode) (title_entry : str) :
  default_name u title_entry = lit "review_card.png"
  \/ exists stem,
       default_name u title_entry = stem ++ lit "_review.png"
       /\ stem <> [] /\ Forall (name_char u) stem.
Proof.
  unfold default_name.
  set (keep := fun c => isalnum u c || (c =? 32)%N || (c =? 45)%N || (c =? 95)%N).
  set (safe := strip (filter keep (strip title_entry))).
  assert (Hk : Forall (fun c => keep c = true) safe).
  { apply Forall_strip. apply Forall_forall. intros c Hc.
    now apply filter_In in Hc. }
  destruct safe as [|c rest]; [left; reflexivity|right].
  exists (underscored (c :: rest)). split; [reflexivity|].
  split; [discriminate|].
  unfold underscored. apply Forall_map.
  eapply Forall_impl; [|exact Hk]. intros d Hd. unfold keep in Hd.
  destruct (d =? 32)%N eqn:E32.
  - split; [right; right; reflexivity|discriminate].
  - split; [|now apply N.eqb_neq].
    rewrite !orb_true_iff in Hd. destruct Hd as [[[Hd|Hd]|Hd]|Hd].
    + now left.
    + congruence.
    + right; left. now apply N.eqb_eq.
    + right; right. now apply N.eqb_eq.
Qed.
